(** * Line counter of [src/utils/cloc.c]: language registry, extension
      detection, byte-level line classifier, batch analysis and aggregation.

    Modelling conventions.
    - A C string (a NUL-terminated [char] array) is the Rocq [string] of the
      bytes before its terminator; reading one position past the last byte
      yields the terminator ["000"].  A pointer that may be [NULL] is an
      [option].
    - A byte buffer [(buffer, buf_size)] is a [list ascii] whose length is
      [buf_size].
    - [int] variables are in [Z].  The scanner's indices and counters never
      exceed [buf_size + 1] (lemma [count_file_buffer_bounds]) and the sum
      [pos + pattern_len] of [bytes_match] never exceeds [buf_size] plus the
      length of a marker, at most 7 in an 8-byte array; so they are written
      without wrap-around, which is exact for buffers of at most [2^31 - 8]
      bytes.  The sums of the aggregator, which are not bounded by any input
      size, wrap at 32 bits ([int_add]).
    - The global registry [g_languages]/[g_lang_count] is passed explicitly
      as a list of descriptors, in registration order. *)

From Stdlib Require Import ZArith List Bool Ascii String Lia.
Import ListNotations.

Open Scope Z_scope.

(** ** Bytes and C strings *)

Definition NUL : ascii := "000"%char.
Definition NL : ascii := "010"%char.
Definition TAB : ascii := "009"%char.
Definition SPACE : ascii := " "%char.

(** [s[k]] for a C string: the terminator is read at [k = strlen s]. *)
Definition char_at (s : string) (k : Z) : ascii :=
  match String.get (Z.to_nat k) s with
  | Some c => c
  | None => NUL
  end.

(** [buffer[k]] for a byte buffer. *)
Definition byte_at (buf : list ascii) (k : Z) : ascii :=
  nth (Z.to_nat k) buf NUL.

(** [str_len]: 0 for [NULL], else the number of bytes before the NUL. *)
Definition str_len (s : option string) : Z :=
  match s with
  | None => 0
  | Some s => Z.of_nat (String.length s)
  end.

(** The loop of [str_copy], from index [i]: copies while [src[i]] is not the
    terminator and [i < max_len - 1]. *)
Fixpoint str_copy_from (src : string) (i max_len : Z) : string :=
  match src with
  | EmptyString => EmptyString
  | String c rest =>
      if i <? max_len - 1
      then String c (str_copy_from rest (i + 1) max_len)
      else EmptyString
  end.

(** [str_copy(dst, src, max_len)]: the C string left in [dst]. *)
Definition str_copy (src : option string) (max_len : Z) : string :=
  match src with
  | None => EmptyString
  | Some s => str_copy_from s 0 max_len
  end.

(** [*a >= 'A' && *a <= 'Z' ? *a + 32 : *a] *)
Definition lower (c : ascii) : ascii :=
  let n := Z.of_nat (nat_of_ascii c) in
  if (65 <=? n) && (n <=? 90) then ascii_of_nat (Z.to_nat (n + 32)) else c.

(** [str_equals_ci] on two non-NULL strings. *)
Fixpoint str_equals_ci (a b : string) : bool :=
  match a, b with
  | String x a', String y b' =>
      if Ascii.eqb (lower x) (lower y) then str_equals_ci a' b' else false
  | EmptyString, EmptyString => true
  | _, _ => false
  end.

(** ** Language descriptors and the registry *)

Record dynamic_lang_t : Type := mkLang {
  name : string;
  extensions : list string;
  line_comment : string;
  block_start : string;
  block_end : string
}.

Definition ext_count (lang : dynamic_lang_t) : Z :=
  Z.of_nat (List.length (extensions lang)).

Definition registry : Type := list dynamic_lang_t.

Definition g_lang_count (g : registry) : Z := Z.of_nat (List.length g).

(** ** The line classifier *)

Record result_t : Type := mkResult {
  r_lines : Z;
  r_code : Z;
  r_comments : Z;
  r_blanks : Z;
  r_size : Z
}.

(** [bytes_match(buf, pos, pattern, pattern_len, buf_len)] *)
Definition bytes_match (buf : list ascii) (pos : Z) (pattern : option string)
    (pattern_len buf_len : Z) : bool :=
  match pattern with
  | None => false
  | Some p =>
      if pattern_len =? 0 then false
      else if pos + pattern_len >? buf_len then false
      else forallb
             (fun k => Ascii.eqb (byte_at buf (pos + Z.of_nat k))
                                 (char_at p (Z.of_nat k)))
             (seq 0 (Z.to_nat pattern_len))
  end.

(** Local variables of [count_file_buffer]. *)
Record scan_t : Type := mkScan {
  s_i : Z;
  s_lines : Z;
  s_code : Z;
  s_comments : Z;
  s_blanks : Z;
  s_in_block : bool;
  s_line_start : bool;
  s_is_empty : bool
}.

(** [if (in_block) comments++; else if (is_empty) blanks++; else code++;] *)
Definition close_line (s : scan_t) : scan_t :=
  if s_in_block s then
    mkScan (s_i s) (s_lines s) (s_code s) (s_comments s + 1) (s_blanks s)
           (s_in_block s) (s_line_start s) (s_is_empty s)
  else if s_is_empty s then
    mkScan (s_i s) (s_lines s) (s_code s) (s_comments s) (s_blanks s + 1)
           (s_in_block s) (s_line_start s) (s_is_empty s)
  else
    mkScan (s_i s) (s_lines s) (s_code s + 1) (s_comments s) (s_blanks s)
           (s_in_block s) (s_line_start s) (s_is_empty s).

Section Scanner.

Variable buffer : list ascii.
Variables line_comment_p block_start_p block_end_p : option string.

Let buf_size : Z := Z.of_nat (List.length buffer).
Let lc_len : Z := str_len line_comment_p.
Let bs_len : Z := str_len block_start_p.
Let be_len : Z := str_len block_end_p.

(** [while (i < buf_size && buffer[i] != '\n') i++;]  The loop runs at most
    [buf_size - i] times, which is the [n] it is called with. *)
Fixpoint skip_to_newline (n : nat) (i : Z) : Z :=
  match n with
  | O => i
  | S n' =>
      if (i <? buf_size) && negb (Ascii.eqb (byte_at buffer i) NL)
      then skip_to_newline n' (i + 1)
      else i
  end.

(** [for (int j = i; j <= buf_size - be_len; j++)]: [Some i'] when the
    block end is found before a newline ([i' = j + be_len]), [None] when
    the loop leaves [in_block] set.  It runs at most
    [buf_size - be_len - j + 1] times. *)
Fixpoint find_block_end (n : nat) (j : Z) : option Z :=
  match n with
  | O => None
  | S n' =>
      if j <=? buf_size - be_len then
        if Ascii.eqb (byte_at buffer j) NL then None
        else if bytes_match buffer j block_end_p be_len buf_size
             then Some (j + be_len)
             else find_block_end n' (j + 1)
      else None
  end.

(** One iteration of [while (i < buf_size)]. *)
Definition scan_step (s : scan_t) : scan_t :=
  let c := byte_at buffer (s_i s) in
  if Ascii.eqb c NL then
    let s' := close_line s in
    mkScan (s_i s + 1) (s_lines s' + 1) (s_code s') (s_comments s')
           (s_blanks s') (s_in_block s) true true
  else if s_line_start s && (Ascii.eqb c SPACE || Ascii.eqb c TAB) then
    mkScan (s_i s + 1) (s_lines s) (s_code s) (s_comments s) (s_blanks s)
           (s_in_block s) (s_line_start s) (s_is_empty s)
  else
    let plain :=
      mkScan (s_i s + 1) (s_lines s) (s_code s) (s_comments s) (s_blanks s)
             (s_in_block s) false
             (if negb (Ascii.eqb c SPACE) && negb (Ascii.eqb c TAB)
              then false else s_is_empty s) in
    if s_line_start s then
      if s_in_block s
         && bytes_match buffer (s_i s) block_end_p be_len buf_size then
        mkScan (s_i s + be_len) (s_lines s) (s_code s) (s_comments s)
               (s_blanks s) false false false
      else if negb (s_in_block s) then
        if bytes_match buffer (s_i s) line_comment_p lc_len buf_size then
          mkScan (skip_to_newline (Z.to_nat (buf_size - s_i s)) (s_i s))
                 (s_lines s) (s_code s) (s_comments s + 1) (s_blanks s)
                 (s_in_block s) false (s_is_empty s)
        else if bytes_match buffer (s_i s) block_start_p bs_len buf_size then
          let i1 := s_i s + bs_len in
          let found :=
            if be_len >? 0
            then find_block_end (Z.to_nat (buf_size - be_len - i1 + 1)) i1
            else None in
          match found with
          | Some i2 =>
              mkScan i2 (s_lines s) (s_code s) (s_comments s) (s_blanks s)
                     false false false
          | None =>
              mkScan i1 (s_lines s) (s_code s) (s_comments s) (s_blanks s)
                     true false false
          end
        else plain
      else plain
    else plain.

(** [while (i < buf_size) { ... }]: every iteration advances [i] by at
    least one (lemma [scan_step_advances]), so [buf_size] iterations reach
    the exit (lemma [scan_loop_exits]). *)
Fixpoint scan_loop (fuel : nat) (s : scan_t) : scan_t :=
  match fuel with
  | O => s
  | S fuel' =>
      if s_i s <? buf_size then scan_loop fuel' (scan_step s) else s
  end.

Definition scan_init : scan_t := mkScan 0 1 0 0 0 false true true.

Definition scan_all : scan_t :=
  close_line (scan_loop (Z.to_nat buf_size) scan_init).

End Scanner.

(** [lang && lang->field[0] ? lang->field : 0] *)
Definition marker (lang : option dynamic_lang_t)
    (field : dynamic_lang_t -> string) : option string :=
  match lang with
  | None => None
  | Some l =>
      if negb (Ascii.eqb (char_at (field l) 0) NUL) then Some (field l)
      else None
  end.

(** [count_file_buffer(buffer, buf_size, lang, result)] with
    [buf_size = length buffer]; the value is the array
    [result[0..4] = lines, code, comments, blanks, size]. *)
Definition count_file_buffer (buffer : list ascii)
    (lang : option dynamic_lang_t) : result_t :=
  let buf_size := Z.of_nat (List.length buffer) in
  if buf_size =? 0 then mkResult 1 0 0 1 buf_size
  else
    let s := scan_all buffer (marker lang line_comment)
                      (marker lang block_start) (marker lang block_end) in
    mkResult (s_lines s) (s_code s) (s_comments s) (s_blanks s) buf_size.

(** ** Registration *)

(** Body of the [if (ext_str[pos] == ',' || ...)] branch: the entry
    [ext_str[start..pos)] is stored when [0 < len < 15], with a ['.'] put in
    front unless it starts with one; at most 15 bytes are written before the
    terminator. *)
Definition store_extension (ext_str : string) (start pos : Z)
    (exts : list string) : list string :=
  let len := pos - start in
  if (len >? 0) && (len <? 15) then
    let j0 := if negb (Ascii.eqb (char_at ext_str start) "."%char)
              then 1 else 0 in
    let copied := Z.min (pos - start) (15 - j0) in
    let body := substring (Z.to_nat start) (Z.to_nat copied) ext_str in
    exts ++ [if j0 =? 1 then String "."%char body else body]
  else exts.

(** [while (ext_str[pos] && lang->ext_count < 20) { ... }]; [pos] grows by
    one per iteration, so the loop runs at most [strlen ext_str] times. *)
Fixpoint parse_extensions_loop (n : nat) (ext_str : string) (start pos : Z)
    (exts : list string) : list string :=
  match n with
  | O => exts
  | S n' =>
      if negb (Ascii.eqb (char_at ext_str pos) NUL)
         && (Z.of_nat (List.length exts) <? 20)
      then
        let hit := Ascii.eqb (char_at ext_str pos) ","%char
                   || Ascii.eqb (char_at ext_str pos) NUL in
        let exts' := if hit then store_extension ext_str start pos exts
                     else exts in
        let start' := if hit then pos + 1 else start in
        if negb (Ascii.eqb (char_at ext_str pos) NUL)
        then parse_extensions_loop n' ext_str start' (pos + 1) exts'
        else exts'
      else exts
  end.

Definition parse_extensions (extensions : option string) : list string :=
  match extensions with
  | None => []
  | Some ext_str =>
      parse_extensions_loop (String.length ext_str) ext_str 0 0 []
  end.

(** [add_language(name, extensions, line_comment, block_start, block_end)]:
    the registry after the call. *)
Definition add_language (g : registry) (name extensions line_comment
    block_start block_end : option string) : registry :=
  if g_lang_count g >=? 300 then g
  else g ++ [mkLang (str_copy name 64)
                    (parse_extensions extensions)
                    (str_copy line_comment 8)
                    (str_copy block_start 8)
                    (str_copy block_end 8)].

(** ** Detection *)

(** [for (p = filepath; *p; p++) if ( *p == '.' ) ext = p;] where a pointer
    into the path is the suffix it points at. *)
Fixpoint last_dot (p : string) (ext : option string) : option string :=
  match p with
  | EmptyString => ext
  | String c rest =>
      last_dot rest (if Ascii.eqb c "."%char then Some p else ext)
  end.

(** The inner loop over [lang->extensions[j]]. *)
Definition has_extension (ext : string) (lang : dynamic_lang_t) : bool :=
  existsb (fun e => str_equals_ci ext e) (extensions lang).

(** The outer loop over [g_languages[i]]: the first language that has the
    extension. *)
Definition lookup_extension (g : registry) (ext : string)
    : option dynamic_lang_t :=
  find (has_extension ext) g.

Definition detect_language (g : registry) (filepath : string)
    : option dynamic_lang_t :=
  if g_lang_count g =? 0 then None
  else match last_dot filepath None with
       | None => None
       | Some ext => lookup_extension g ext
       end.

(** ** Single-file and batch analysis *)

Definition analyze_file (g : registry) (file_path : string)
    (file_buffer : list ascii) : result_t :=
  let lang := detect_language g file_path in
  count_file_buffer file_buffer lang.

(** [get_language_name(file_path, lang_name, max_len)]: the C string left in
    [lang_name]. *)
Definition get_language_name (g : registry) (file_path : string)
    (max_len : Z) : string :=
  match detect_language g file_path with
  | Some lang => str_copy (Some (name lang)) max_len
  | None => str_copy (Some "Unknown"%string) max_len
  end.

(** [analyze_batch]: the files are the pairs [(file_paths[i],
    file_buffers[i])] for [i < num_files]; the value is the list of the
    64-byte name slots of [lang_names_out] and the list of the 5-int groups
    of [results_out], in input order. *)
Fixpoint analyze_batch (g : registry) (files : list (string * list ascii))
    : list string * list result_t :=
  match files with
  | [] => ([], [])
  | (file_path, buffer) :: rest =>
      let lang := detect_language g file_path in
      let lang_name :=
        match lang with
        | Some l => str_copy (Some (name l)) 64
        | None => str_copy (Some "Unknown"%string) 64
        end in
      let result := count_file_buffer buffer lang in
      let '(names, results) := analyze_batch g rest in
      (lang_name :: names, result :: results)
  end.

(** ** Aggregation *)

Record lang_stats_t : Type := mkStats {
  files : Z;
  lines : Z;
  code : Z;
  comments : Z;
  size : Z
}.

(** 32-bit two's-complement [int] addition. *)
Definition int_wrap (z : Z) : Z := (z + 2 ^ 31) mod 2 ^ 32 - 2 ^ 31.
Definition int_add (a b : Z) : Z := int_wrap (a + b).

(** [for (j = 0; j < lang_count; j++) if (str_equals_ci(temp_names[j],
    file_lang)) { lang_idx = j; break; }] : the index found, or [-1]. *)
Fixpoint find_lang_idx (temp_names : list string) (file_lang : string)
    (j : Z) : Z :=
  match temp_names with
  | [] => -1
  | n :: rest =>
      if str_equals_ci n file_lang then j
      else find_lang_idx rest file_lang (j + 1)
  end.

(** [temp_stats[idx].files++; ... += file_result[..]] on the table of
    [(temp_names[j], temp_stats[j])] for [j < lang_count]. *)
Fixpoint add_stats (table : list (string * lang_stats_t)) (idx : Z)
    (r : result_t) : list (string * lang_stats_t) :=
  match table with
  | [] => []
  | (n, st) :: rest =>
      if idx =? 0 then
        (n, mkStats (int_add (files st) 1)
                    (int_add (lines st) (r_lines r))
                    (int_add (code st) (r_code r))
                    (int_add (comments st) (r_comments r))
                    (int_add (size st) (r_size r))) :: rest
      else (n, st) :: add_stats rest (idx - 1) r
  end.

(** One iteration of the loop over the files. *)
Definition aggregate_step (table : list (string * lang_stats_t))
    (file : string * result_t) : list (string * lang_stats_t) :=
  let '(file_lang, file_result) := file in
  if str_equals_ci file_lang "Unknown" then table
  else
    let lang_count := Z.of_nat (List.length table) in
    let lang_idx := find_lang_idx (map fst table) file_lang 0 in
    if lang_idx =? -1 then
      if lang_count <? 100 then
        add_stats (table ++ [(str_copy (Some file_lang) 64,
                              mkStats 0 0 0 0 0)])
                  lang_count file_result
      else table
    else add_stats table lang_idx file_result.

(** [aggregate_results]: the inputs are the pairs of the [i]-th name slot
    and the [i]-th result; the value is the list of
    [(unique_langs_out[i], lang_stats_out[i])] for [i < *num_langs_out]. *)
Definition aggregate_results (inputs : list (string * result_t))
    : list (string * lang_stats_t) :=
  map (fun e => (str_copy (Some (fst e)) 64, snd e))
      (fold_left aggregate_step inputs []).

(** ** Helpers to write inputs *)

Definition bytes (s : string) : list ascii := list_ascii_of_string s.

Definition lang_markers (lc bs be : string) : dynamic_lang_t :=
  mkLang "L" [] lc bs be.

(** ** Notions used in the statements *)

(** Number of newline bytes in the buffer, and among its first [i] bytes. *)
Definition count_newlines (buf : list ascii) : Z :=
  Z.of_nat (count_occ ascii_dec buf NL).

Definition newlines_upto (buf : list ascii) (i : Z) : Z :=
  count_newlines (firstn (Z.to_nat i) buf).

(** A C string that holds no byte [c]. *)
Definition byte_free (c : ascii) (s : string) : bool :=
  negb (existsb (Ascii.eqb c) (list_ascii_of_string s)).

(** A C string that holds no newline byte, no ['.'], no [','] . *)
Definition newline_free (s : string) : bool := byte_free NL s.
Definition dot_free (s : string) : bool := byte_free "."%char s.
Definition comma_free (s : string) : bool := byte_free ","%char s.

Definition opt_newline_free (m : option string) : Prop :=
  match m with Some s => newline_free s = true | None => True end.

(** The three markers of a descriptor hold no newline byte. *)
Definition markers_newline_free (lang : option dynamic_lang_t) : Prop :=
  match lang with
  | None => True
  | Some l =>
      newline_free (line_comment l) = true
      /\ newline_free (block_start l) = true
      /\ newline_free (block_end l) = true
  end.

(** The first [n] bytes of a C string. *)
Definition str_prefix (n : nat) (s : string) : string := substring 0 n s.

(** No newline byte at the positions [a <= k < b]. *)
Definition nl_free_between (buf : list ascii) (a b : Z) : Prop :=
  forall k, a <= k < b -> byte_at buf k <> NL.

(** Bounds on the counters: [lines] grows by at most one per byte passed,
    and no class counts more lines than have been started. *)
Definition scan_bounded (s : scan_t) : Prop :=
  1 <= s_lines s <= 1 + s_i s
  /\ 0 <= s_code s <= s_lines s - 1
  /\ 0 <= s_blanks s <= s_lines s - 1
  /\ 0 <= s_comments s
  /\ (s_comments s <= s_lines s - 1
      \/ (s_comments s <= s_lines s
          /\ s_in_block s = false /\ s_line_start s = false)).

(** Every name of the registry fits a 64-byte slot. *)
Definition names_fit (g : registry) : Prop :=
  Forall (fun l => (String.length (name l) <= 63)%nat) g.

(** A file whose language name is ["Unknown"], in any letter case. *)
Definition is_unknown (file : string * result_t) : bool :=
  str_equals_ci (fst file) "Unknown".

(** No name of the table is ["Unknown"]. *)
Definition known_names (table : list (string * lang_stats_t)) : Prop :=
  Forall (fun n => str_equals_ci n "Unknown" = false) (map fst table).

(** ** Notions used in the further properties *)

(** Lower-case copy of a C string, byte by byte. *)
Fixpoint str_lower (s : string) : string :=
  match s with
  | EmptyString => EmptyString
  | String c rest => String (lower c) (str_lower rest)
  end.

(** A stored extension: 1 to 15 bytes, the first of them ['.'], so that it
    fits a 16-byte slot with its terminator. *)
Definition ext_ok (e : string) : Prop :=
  char_at e 0 = "."%char /\ (1 <= String.length e <= 15)%nat.

(** The three markers of a descriptor fit their 8-byte arrays
    ([char line_comment[8]], [block_start[8]], [block_end[8]]). *)
Definition markers_fit (lang : option dynamic_lang_t) : Prop :=
  match lang with
  | None => True
  | Some l =>
      (String.length (line_comment l) <= 7)%nat
      /\ (String.length (block_start l) <= 7)%nat
      /\ (String.length (block_end l) <= 7)%nat
  end.

(** A descriptor whose strings fit the arrays of [dynamic_lang_t]. *)
Definition lang_fits (l : dynamic_lang_t) : Prop :=
  (String.length (name l) <= 63)%nat
  /\ (List.length (extensions l) <= 20)%nat
  /\ Forall ext_ok (extensions l)
  /\ (String.length (line_comment l) <= 7)%nat
  /\ (String.length (block_start l) <= 7)%nat
  /\ (String.length (block_end l) <= 7)%nat.

(** A space or a horizontal tab. *)
Definition blank_byte (c : ascii) : bool :=
  Ascii.eqb c SPACE || Ascii.eqb c TAB.

(** The physical lines of a buffer: the segments between newline bytes,
    including the (possibly empty) one after the last newline. *)
Fixpoint split_lines (buf : list ascii) : list (list ascii) :=
  match buf with
  | [] => [[]]
  | c :: rest =>
      if Ascii.eqb c NL then [] :: split_lines rest
      else match split_lines rest with
           | seg :: segs => (c :: seg) :: segs
           | [] => [[c]]
           end
  end.

(** A line made of spaces and tabs only. *)
Definition blank_line (seg : list ascii) : bool := forallb blank_byte seg.

(** How many of the lines are blank, and how many are not. *)
Definition count_blank (segs : list (list ascii)) : Z :=
  Z.of_nat (List.length (filter blank_line segs)).

Definition count_nonblank (segs : list (list ascii)) : Z :=
  Z.of_nat (List.length (filter (fun seg => negb (blank_line seg)) segs)).

(** The same counts when the first line continues a line that is blank so
    far ([e = true]) or already has content ([e = false]). *)
Definition blank_from (e : bool) (segs : list (list ascii)) : Z :=
  match segs with
  | [] => 0
  | seg :: rest =>
      (if e && blank_line seg then 1 else 0) + count_blank rest
  end.

Definition nonblank_from (e : bool) (segs : list (list ascii)) : Z :=
  match segs with
  | [] => 0
  | seg :: rest =>
      (if e && blank_line seg then 0 else 1) + count_nonblank rest
  end.

(** A descriptor, if any, without line-comment and block-start markers. *)
Definition no_markers (lang : option dynamic_lang_t) : Prop :=
  marker lang line_comment = None /\ marker lang block_start = None.

(** The sum of the three classes stays between the lines closed so far and
    twice that number, one more while a line-comment line is open. *)
Definition sum_bounded (s : scan_t) : Prop :=
  s_lines s - 1 <= s_code s + s_comments s + s_blanks s
  /\ (s_code s + s_comments s + s_blanks s <= 2 * (s_lines s - 1)
      \/ (s_code s + s_comments s + s_blanks s <= 2 * (s_lines s - 1) + 1
          /\ s_line_start s = false)).

(** The state of the scanner as long as it has met only spaces, tabs and
    newlines. *)
Definition all_blank_so_far (buffer : list ascii) (s : scan_t) : Prop :=
  s_in_block s = false /\ s_line_start s = true /\ s_is_empty s = true
  /\ s_code s = 0 /\ s_comments s = 0 /\ s_blanks s = s_lines s - 1
  /\ s_lines s = 1 + newlines_upto buffer (s_i s).

(** The sum of one field over the aggregates, and the sum of one field of
    the results over the input files that are not ["Unknown"]. *)
Definition table_total (proj : lang_stats_t -> Z)
    (table : list (string * lang_stats_t)) : Z :=
  fold_right (fun e acc => proj (snd e) + acc) 0 table.

Definition known_total (val : result_t -> Z)
    (inputs : list (string * result_t)) : Z :=
  fold_right (fun f acc => if is_unknown f then acc else val (snd f) + acc)
             0 inputs.

(** The number of input files that are not ["Unknown"]. *)
Definition known_count (inputs : list (string * result_t)) : Z :=
  known_total (fun _ => 1) inputs.

(** The counts of a result are not negative. *)
Definition result_nonneg (r : result_t) : Prop :=
  0 <= r_lines r /\ 0 <= r_code r /\ 0 <= r_comments r /\ 0 <= r_size r.

(** No two names of the list are equal up to letter case. *)
Definition distinct_ci (names : list string) : Prop :=
  ForallOrdPairs (fun a b => str_equals_ci a b = false) names.

(** [p] is a prefix of [l]. *)
Fixpoint is_prefix (p l : list ascii) : bool :=
  match p, l with
  | [], _ => true
  | x :: p', y :: l' => Ascii.eqb x y && is_prefix p' l'
  | _ :: _, [] => false
  end.

(** The bytes [l] start with the marker; an absent or empty marker starts
    nothing. *)
Definition starts_with (m : option string) (l : list ascii) : bool :=
  match m with
  | None => false
  | Some s =>
      match list_ascii_of_string s with
      | [] => false
      | p => is_prefix p l
      end
  end.

(** The marker occurs somewhere in [l]. *)
Fixpoint occurs (m : option string) (l : list ascii) : bool :=
  starts_with m l
  || match l with
     | [] => false
     | _ :: rest => occurs m rest
     end.

(** A line without its leading spaces and tabs. *)
Fixpoint skip_blanks (l : list ascii) : list ascii :=
  match l with
  | [] => []
  | c :: rest => if blank_byte c then skip_blanks rest else l
  end.

(** How a line is counted: as a blank, as code, as a comment, or, for a
    line that starts with the line-comment marker, as a comment and as a
    blank. *)
Inductive line_class : Type :=
  | LBlank
  | LCode
  | LComment
  | LLineComment.

(** The class of one line and whether a block comment is open after it,
    from whether one is open before it ([in_block]).  Markers are looked
    for at the first byte that is not a space or a tab, and a block end
    also in what follows a block start on the same line. *)
Definition classify_line (lc bs be : option string) (in_block : bool)
    (seg : list ascii) : line_class * bool :=
  match skip_blanks seg with
  | [] => (if in_block then LComment else LBlank, in_block)
  | body =>
      if in_block then
        if starts_with be body then (LCode, false) else (LComment, true)
      else if starts_with lc body then (LLineComment, false)
      else if starts_with bs body then
        if occurs be (skipn (Z.to_nat (str_len bs)) body)
        then (LCode, false) else (LComment, true)
      else (LCode, false)
  end.

Fixpoint classify_lines (lc bs be : option string) (in_block : bool)
    (segs : list (list ascii)) : list line_class :=
  match segs with
  | [] => []
  | seg :: rest =>
      fst (classify_line lc bs be in_block seg)
      :: classify_lines lc bs be
           (snd (classify_line lc bs be in_block seg)) rest
  end.

Definition line_class_eqb (a b : line_class) : bool :=
  match a, b with
  | LBlank, LBlank | LCode, LCode | LComment, LComment
  | LLineComment, LLineComment => true
  | _, _ => false
  end.

(** How many lines of the list have the class [c]. *)
Definition count_class (c : line_class) (cs : list line_class) : Z :=
  Z.of_nat (List.length (filter (line_class_eqb c) cs)).

(** The lines joined by newlines. *)
Fixpoint join_lines (segs : list (list ascii)) : list ascii :=
  match segs with
  | [] => []
  | [seg] => seg
  | seg :: rest => seg ++ NL :: join_lines rest
  end.

(** What may follow a line in the buffer: nothing, or a newline. *)
Definition line_end (tail : list ascii) : Prop :=
  tail = [] \/ exists rest, tail = NL :: rest.

(** The state [s] moved to the index [i]. *)
Definition set_i (s : scan_t) (i : Z) : scan_t :=
  mkScan i (s_lines s) (s_code s) (s_comments s) (s_blanks s)
         (s_in_block s) (s_line_start s) (s_is_empty s).

(** What scanning one line of class [cls] does to the state: the counters
    of closed lines are untouched, a line-comment line is already counted
    as a comment, and the flags say how the line will be closed. *)
Definition line_done (s s' : scan_t) (cls : line_class) (in_block' : bool)
    : Prop :=
  s_lines s' = s_lines s /\ s_code s' = s_code s
  /\ s_blanks s' = s_blanks s /\ s_in_block s' = in_block'
  /\ match cls with
     | LBlank =>
         s_comments s' = s_comments s /\ in_block' = false
         /\ s_is_empty s' = true
     | LCode =>
         s_comments s' = s_comments s /\ in_block' = false
         /\ s_is_empty s' = false
     | LComment => s_comments s' = s_comments s /\ in_block' = true
     | LLineComment =>
         s_comments s' = s_comments s + 1 /\ in_block' = false
         /\ s_is_empty s' = true
     end.

(** Whether a block comment is open after the lines [segs], read from a
    state where one is open or not ([in_block]). *)
Fixpoint block_open_after (lc bs be : option string) (in_block : bool)
    (segs : list (list ascii)) : bool :=
  match segs with
  | [] => in_block
  | seg :: rest =>
      block_open_after lc bs be
        (snd (classify_line lc bs be in_block seg)) rest
  end.

(** Whether the descriptor leaves a block comment open at the end of the
    buffer. *)
Definition ends_in_block (buffer : list ascii)
    (lang : option dynamic_lang_t) : bool :=
  block_open_after (marker lang line_comment) (marker lang block_start)
    (marker lang block_end) false (split_lines buffer).

(** The sum of [val] over the input files whose language name equals [n]
    up to letter case. *)
Definition group_total (val : result_t -> Z) (n : string)
    (inputs : list (string * result_t)) : Z :=
  fold_right
    (fun f acc => if str_equals_ci (fst f) n then val (snd f) + acc else acc)
    0 inputs.

(** The statistics of a language after one more file. *)
Definition add_result (st : lang_stats_t) (r : result_t) : lang_stats_t :=
  mkStats (int_add (files st) 1)
          (int_add (lines st) (r_lines r))
          (int_add (code st) (r_code r))
          (int_add (comments st) (r_comments r))
          (int_add (size st) (r_size r)).

(** One file added to the table of a language found by name up to case, or
    to a new entry at the end: what an iteration of [aggregate_results]
    does for a file that is not ["Unknown"] while the table has room. *)
Fixpoint upsert (table : list (string * lang_stats_t)) (n : string)
    (r : result_t) : list (string * lang_stats_t) :=
  match table with
  | [] => [(str_copy (Some n) 64, add_result (mkStats 0 0 0 0 0) r)]
  | (m, st) :: rest =>
      if str_equals_ci m n then (m, add_result st r) :: rest
      else (m, st) :: upsert rest n r
  end.

(** Every file of [done] that is not ["Unknown"] has its language in the
    table. *)
Definition represented (table : list (string * lang_stats_t))
    (done : list (string * result_t)) : Prop :=
  forall f, In f done -> is_unknown f = false ->
    exists m, In m (map fst table) /\ str_equals_ci m (fst f) = true.

(** * Properties *)

(** Case analysis on the tests of a loop body, and clean-up of the boolean
    facts it leaves. *)
Ltac scan_cases :=
  repeat match goal with
    | |- context [if ?b then _ else _] => destruct b eqn:?
    | |- context [match ?o with Some _ => _ | None => _ end] =>
        destruct o eqn:?
    end.

Ltac bool_hyps :=
  repeat match goal with
    | H : _ && _ = true |- _ => apply andb_true_iff in H; destruct H
    | H : negb _ = true |- _ => apply negb_true_iff in H
    | H : negb _ = false |- _ => apply negb_false_iff in H
    | H : (_ >? _) = true |- _ => apply Z.gtb_lt in H
    | H : Ascii.eqb _ _ = true |- _ => apply Ascii.eqb_eq in H
    | H : Ascii.eqb _ _ = false |- _ => apply Ascii.eqb_neq in H
    end.

(** ** Strings *)

Lemma str_copy_from_prefix (s : string) (i max_len : Z) :
  str_copy_from s i max_len = str_prefix (Z.to_nat (max_len - 1 - i)) s.
Proof.
  revert i; induction s as [|c s IH]; intros i; simpl.
  - unfold str_prefix. destruct (Z.to_nat _); reflexivity.
  - destruct (Z.ltb_spec i (max_len - 1)) as [Hlt|Hge].
    + rewrite IH. unfold str_prefix.
      replace (Z.to_nat (max_len - 1 - i))
        with (S (Z.to_nat (max_len - 1 - (i + 1)))) by lia.
      reflexivity.
    + unfold str_prefix.
      replace (Z.to_nat (max_len - 1 - i)) with O by lia. reflexivity.
Qed.

Lemma str_copy_prefix (s : string) (max_len : Z) :
  str_copy (Some s) max_len = str_prefix (Z.to_nat (max_len - 1)) s.
Proof.
  unfold str_copy. rewrite str_copy_from_prefix. f_equal. lia.
Qed.

Lemma str_prefix_length (n : nat) (s : string) :
  (String.length (str_prefix n s) <= n)%nat.
Proof.
  unfold str_prefix.
  revert n; induction s as [|c s IH]; intros [|n]; simpl; try lia.
  specialize (IH n). lia.
Qed.

Lemma str_prefix_short (n : nat) (s : string) :
  (String.length s <= n)%nat -> str_prefix n s = s.
Proof.
  unfold str_prefix.
  revert n; induction s as [|c s IH]; intros [|n] H; simpl in *;
    try reflexivity; try lia.
  rewrite IH by lia. reflexivity.
Qed.

Lemma str_prefix_idem (n : nat) (s : string) :
  str_prefix n (str_prefix n s) = str_prefix n s.
Proof. apply str_prefix_short, str_prefix_length. Qed.

(** ** Counting newline bytes in a prefix of the buffer *)

Lemma count_occ_firstn_S (l : list ascii) (k : nat) :
  (k < List.length l)%nat ->
  count_occ ascii_dec (firstn (S k) l) NL
  = (count_occ ascii_dec (firstn k l) NL
     + if Ascii.eqb (nth k l NUL) NL then 1 else 0)%nat.
Proof.
  revert k; induction l as [|a l IH]; intros k Hk; simpl in Hk; [lia|].
  destruct k as [|k].
  - simpl. destruct (ascii_dec a NL) as [E|E];
      destruct (Ascii.eqb_spec a NL); congruence.
  - change (firstn (S (S k)) (a :: l)) with (a :: firstn (S k) l).
    change (firstn (S k) (a :: l)) with (a :: firstn k l).
    change (nth (S k) (a :: l) NUL) with (nth k l NUL).
    cbn [count_occ]. destruct (ascii_dec a NL); rewrite IH by lia; lia.
Qed.

Lemma newlines_upto_0 (buf : list ascii) : newlines_upto buf 0 = 0.
Proof. reflexivity. Qed.

Lemma newlines_upto_succ (buf : list ascii) (i : Z) :
  0 <= i < Z.of_nat (List.length buf) ->
  newlines_upto buf (i + 1)
  = newlines_upto buf i + (if Ascii.eqb (byte_at buf i) NL then 1 else 0).
Proof.
  intros Hi. unfold newlines_upto, count_newlines, byte_at.
  replace (Z.to_nat (i + 1)) with (S (Z.to_nat i)) by lia.
  rewrite count_occ_firstn_S by lia.
  destruct (Ascii.eqb _ NL); lia.
Qed.

Lemma newlines_upto_all (buf : list ascii) :
  newlines_upto buf (Z.of_nat (List.length buf)) = count_newlines buf.
Proof.
  unfold newlines_upto. rewrite Nat2Z.id, firstn_all. reflexivity.
Qed.

Lemma newlines_upto_skip (buf : list ascii) (a b : Z) :
  0 <= a <= b -> b <= Z.of_nat (List.length buf) ->
  nl_free_between buf a b ->
  newlines_upto buf b = newlines_upto buf a.
Proof.
  intros Hab Hb Hfree.
  replace b with (a + Z.of_nat (Z.to_nat (b - a))) in * by lia.
  induction (Z.to_nat (b - a)) as [|d IH].
  - f_equal. lia.
  - replace (a + Z.of_nat (S d)) with (a + Z.of_nat d + 1) in * by lia.
    rewrite newlines_upto_succ by lia.
    assert (Hk : byte_at buf (a + Z.of_nat d) <> NL) by (apply Hfree; lia).
    destruct (Ascii.eqb_spec (byte_at buf (a + Z.of_nat d)) NL);
      [contradiction|].
    rewrite Z.add_0_r. apply IH; try lia.
    intros k Hk'. apply Hfree. lia.
Qed.

Lemma newlines_upto_nonneg (buf : list ascii) (i : Z) :
  0 <= newlines_upto buf i.
Proof. unfold newlines_upto, count_newlines. lia. Qed.

(** ** Marker matching *)

Lemma char_at_get (s : string) (k : nat) (c : ascii) :
  String.get k s = Some c -> char_at s (Z.of_nat k) = c.
Proof. unfold char_at. rewrite Nat2Z.id. intros ->. reflexivity. Qed.

Lemma byte_free_cons (c x : ascii) (s : string) :
  byte_free c (String x s) = negb (Ascii.eqb c x) && byte_free c s.
Proof.
  unfold byte_free. cbn [list_ascii_of_string existsb].
  now rewrite negb_orb.
Qed.

Lemma byte_free_char_at (c : ascii) (s : string) (k : Z) :
  c <> NUL -> byte_free c s = true -> char_at s k <> c.
Proof.
  intros Hc. unfold char_at. generalize (Z.to_nat k) as n.
  induction s as [|x s IH]; intros n H.
  - destruct n; cbn [String.get]; congruence.
  - rewrite byte_free_cons in H. apply andb_true_iff in H.
    destruct H as [Hx Hs]. apply negb_true_iff, Ascii.eqb_neq in Hx.
    destruct n as [|n]; cbn [String.get]; [congruence|].
    now apply IH.
Qed.

Lemma newline_free_char_at (s : string) (k : Z) :
  newline_free s = true -> char_at s k <> NL.
Proof. apply byte_free_char_at. discriminate. Qed.

Lemma bytes_match_spec (buf : list ascii) (pos : Z) (p : option string)
    (buf_len : Z) :
  bytes_match buf pos p (str_len p) buf_len = true ->
  exists s, p = Some s
    /\ 0 < str_len p
    /\ pos + str_len p <= buf_len
    /\ forall k, 0 <= k < str_len p ->
         byte_at buf (pos + k) = char_at s k.
Proof.
  unfold bytes_match. destruct p as [s|]; [|discriminate].
  intros H. exists s. split; [reflexivity|].
  destruct (Z.eqb_spec (str_len (Some s)) 0) as [|Hne]; [discriminate|].
  destruct (Z.gtb_spec (pos + str_len (Some s)) buf_len); [discriminate|].
  assert (Hpos : 0 <= str_len (Some s)) by (simpl; lia).
  repeat split; try lia.
  intros k Hk. rewrite forallb_forall in H.
  specialize (H (Z.to_nat k)).
  rewrite Z2Nat.id in H by lia.
  apply Ascii.eqb_eq, H, in_seq. lia.
Qed.

Lemma bytes_match_nl_free (buf : list ascii) (pos : Z) (s : string)
    (buf_len : Z) :
  newline_free s = true ->
  bytes_match buf pos (Some s) (str_len (Some s)) buf_len = true ->
  nl_free_between buf pos (pos + str_len (Some s)).
Proof.
  intros Hs Hm k Hk.
  destruct (bytes_match_spec _ _ _ _ Hm) as (s' & E & _ & _ & Hb).
  injection E as <-.
  replace k with (pos + (k - pos)) by lia.
  rewrite Hb by lia. now apply newline_free_char_at.
Qed.

(** ** The inner loops of the classifier *)

Section ScannerFacts.

Variable buffer : list ascii.
Variables lc bs be : option string.

Local Abbreviation buf_size := (Z.of_nat (List.length buffer)).

Lemma skip_to_newline_S (n : nat) (i : Z) :
  skip_to_newline buffer (S n) i
  = if (i <? buf_size) && negb (Ascii.eqb (byte_at buffer i) NL)
    then skip_to_newline buffer n (i + 1) else i.
Proof. reflexivity. Qed.

Lemma find_block_end_S (n : nat) (j : Z) :
  find_block_end buffer be (S n) j
  = if j <=? buf_size - str_len be then
      if Ascii.eqb (byte_at buffer j) NL then None
      else if bytes_match buffer j be (str_len be) buf_size
           then Some (j + str_len be)
           else find_block_end buffer be n (j + 1)
    else None.
Proof. reflexivity. Qed.

(** The skip stops inside the buffer and passes no newline. *)
Lemma skip_to_newline_range (n : nat) (i : Z) :
  i <= buf_size ->
  i <= skip_to_newline buffer n i <= buf_size
  /\ nl_free_between buffer i (skip_to_newline buffer n i).
Proof.
  revert i; induction n as [|n IH]; intros i Hi.
  - simpl. split; [lia|]. intros k Hk; lia.
  - rewrite skip_to_newline_S.
    destruct (Z.ltb_spec i buf_size) as [Hlt|Hge]; simpl.
    + destruct (Ascii.eqb_spec (byte_at buffer i) NL) as [E|E]; simpl.
      * split; [lia|]. intros k Hk; lia.
      * destruct (IH (i + 1)) as [Hr Hf]; [lia|]. split; [lia|].
        intros k Hk. destruct (Z.eq_dec k i) as [->|Hne]; [exact E|].
        apply Hf. lia.
    + split; [lia|]. intros k Hk; lia.
Qed.

(** Called with the remaining length, the skip ends at the end of the
    buffer or on a newline: the [while] has really exited. *)
Lemma skip_to_newline_exit (n : nat) (i : Z) :
  buf_size - i <= Z.of_nat n ->
  let r := skip_to_newline buffer n i in
  buf_size <= r \/ byte_at buffer r = NL.
Proof.
  revert i; induction n as [|n IH]; intros i Hn; cbv zeta.
  - simpl. left. lia.
  - rewrite skip_to_newline_S.
    destruct (Z.ltb_spec i buf_size) as [Hlt|Hge]; simpl.
    + destruct (Ascii.eqb_spec (byte_at buffer i) NL) as [E|E]; simpl.
      * now right.
      * apply IH. lia.
    + left. lia.
Qed.

(** On a byte that is not a newline the skip moves forward. *)
Lemma skip_to_newline_advances (i : Z) :
  0 <= i < buf_size -> byte_at buffer i <> NL ->
  i < skip_to_newline buffer (Z.to_nat (buf_size - i)) i.
Proof.
  intros Hi Hc.
  replace (Z.to_nat (buf_size - i))
    with (S (Z.to_nat (buf_size - i - 1))) by lia.
  rewrite skip_to_newline_S.
  destruct (Z.ltb_spec i buf_size); [|lia].
  destruct (Ascii.eqb_spec (byte_at buffer i) NL); [contradiction|].
  simpl. destruct (skip_to_newline_range (Z.to_nat (buf_size - i - 1))
                     (i + 1)); lia.
Qed.

(** A block end found on the same line lies after [j], inside the buffer,
    and, when the marker holds no newline, no newline is passed. *)
Lemma find_block_end_range (n : nat) (j r : Z) :
  find_block_end buffer be n j = Some r ->
  j < r <= buf_size
  /\ (match be with Some s => newline_free s = true | None => True end ->
      nl_free_between buffer j r).
Proof.
  revert j; induction n as [|n IH]; intros j H; [discriminate|].
  rewrite find_block_end_S in H.
  destruct (Z.leb_spec j (buf_size - str_len be)); [|discriminate].
  destruct (Ascii.eqb_spec (byte_at buffer j) NL) as [E|E]; [discriminate|].
  destruct (bytes_match buffer j be (str_len be) buf_size) eqn:Hm.
  - injection H as <-.
    destruct (bytes_match_spec _ _ _ _ Hm) as (s & -> & Hlen & Hle & _).
    split; [lia|]. intros Hs. now apply (bytes_match_nl_free _ _ _ buf_size).
  - destruct (IH _ H) as [Hr Hf]. split; [lia|].
    intros Hs k Hk. destruct (Z.eq_dec k j) as [->|Hne]; [exact E|].
    apply Hf; [exact Hs|lia].
Qed.

(** The search is called with its exact number of iterations: allowing more
    changes nothing. *)
Lemma find_block_end_fuel (n m : nat) (j : Z) :
  buf_size - str_len be - j + 1 <= Z.of_nat n ->
  find_block_end buffer be (n + m) j = find_block_end buffer be n j.
Proof.
  revert j; induction n as [|n IH]; intros j Hn.
  - destruct m as [|m]; [reflexivity|].
    cbn [Nat.add]. rewrite find_block_end_S.
    destruct (Z.leb_spec j (buf_size - str_len be)); [lia|reflexivity].
  - cbn [Nat.add]. rewrite !find_block_end_S.
    destruct (j <=? buf_size - str_len be); [|reflexivity].
    destruct (Ascii.eqb (byte_at buffer j) NL); [reflexivity|].
    destruct (bytes_match buffer j be (str_len be) buf_size); [reflexivity|].
    apply IH. lia.
Qed.

End ScannerFacts.

(** ** One iteration of the main loop *)

Section StepFacts.

Variable buffer : list ascii.
Variables lc bs be : option string.

Local Abbreviation buf_size := (Z.of_nat (List.length buffer)).
Local Abbreviation step := (scan_step buffer lc bs be).

Lemma close_line_fields (s : scan_t) :
  s_i (close_line s) = s_i s
  /\ s_lines (close_line s) = s_lines s
  /\ s_in_block (close_line s) = s_in_block s.
Proof. unfold close_line. scan_cases; auto. Qed.

(** Every iteration moves [i] forward and keeps it inside the buffer. *)
Lemma scan_step_advances (s : scan_t) :
  0 <= s_i s < buf_size ->
  s_i s < s_i (step s) <= buf_size.
Proof.
  destruct s as [i l c cm b ib ls ie]. cbn [s_i]. intros Hi.
  unfold scan_step; cbv zeta;
    cbn [s_i s_lines s_code s_comments s_blanks s_in_block s_line_start
         s_is_empty].
  scan_cases; cbn [s_i]; bool_hyps; try lia;
    repeat match goal with
      | H : bytes_match _ _ _ _ _ = true |- _ =>
          apply bytes_match_spec in H; destruct H as (? & ? & ? & ? & _)
      | H : find_block_end _ _ _ _ = Some _ |- _ =>
          apply find_block_end_range in H; destruct H as [? _]
      end; try lia.
  pose proof (skip_to_newline_advances buffer i Hi).
  pose proof (skip_to_newline_range buffer (Z.to_nat (buf_size - i)) i).
  intuition lia.
Qed.

(** Consuming a matched marker that holds no newline passes no newline. *)
Lemma match_skip (m : option string) (i : Z) :
  opt_newline_free m -> 0 <= i ->
  bytes_match buffer i m (str_len m) buf_size = true ->
  i < i + str_len m <= buf_size
  /\ newlines_upto buffer (i + str_len m) = newlines_upto buffer i.
Proof.
  intros Hm Hi H.
  destruct (bytes_match_spec _ _ _ _ H) as (s & -> & Hlen & Hle & _).
  split; [lia|].
  apply newlines_upto_skip; try lia.
  now apply (bytes_match_nl_free _ _ _ buf_size).
Qed.

(** [lines] is one more than the number of newlines already passed. *)
Lemma scan_step_lines (s : scan_t) :
  opt_newline_free bs -> opt_newline_free be ->
  0 <= s_i s < buf_size ->
  s_lines s = 1 + newlines_upto buffer (s_i s) ->
  s_lines (step s) = 1 + newlines_upto buffer (s_i (step s)).
Proof.
  destruct s as [i l c cm b ib ls ie].
  cbn [s_i s_lines]. intros Hbs Hbe Hi Hl.
  pose proof (newlines_upto_succ buffer i Hi) as Hsucc.
  unfold scan_step, close_line; cbv zeta;
    cbn [s_i s_lines s_code s_comments s_blanks s_in_block s_line_start
         s_is_empty].
  destruct (Ascii.eqb (byte_at buffer i) NL) eqn:Hnl.
  { scan_cases; cbn [s_i s_lines]; lia. }
  scan_cases; cbn [s_i s_lines]; try lia; bool_hyps;
    repeat match goal with
      | H : bytes_match _ _ ?m _ _ = true |- _ =>
          apply (match_skip m) in H; [destruct H as [? ?]|assumption|lia]
      end; try lia.
  - destruct (skip_to_newline_range buffer (Z.to_nat (buf_size - i)) i)
      as [Hr Hf]; [lia|].
    rewrite (newlines_upto_skip buffer i) by (assumption || lia). lia.
  - match goal with
    | H : find_block_end _ _ _ _ = Some _ |- _ =>
        apply find_block_end_range in H; destruct H as [Hr Hf]
    end.
    rewrite (newlines_upto_skip buffer (i + str_len bs)); try lia.
    apply Hf, Hbe.
Qed.

(** Without a line-comment marker every line is counted in exactly one
    class: before the final line is closed, [lines] is one more than the
    sum of the three classes. *)
Lemma scan_step_sum (s : scan_t) :
  lc = None ->
  s_lines s = s_code s + s_comments s + s_blanks s + 1 ->
  s_lines (step s)
  = s_code (step s) + s_comments (step s) + s_blanks (step s) + 1.
Proof.
  destruct s as [i l c cm b ib ls ie].
  cbn [s_lines s_code s_comments s_blanks]. intros -> Hsum.
  unfold scan_step, close_line; cbv zeta;
    cbn [s_i s_lines s_code s_comments s_blanks s_in_block s_line_start
         s_is_empty bytes_match].
  scan_cases; cbn [s_lines s_code s_comments s_blanks]; lia.
Qed.

Lemma scan_step_bounded (s : scan_t) :
  0 <= s_i s < buf_size -> scan_bounded s -> scan_bounded (step s).
Proof.
  intros Hi. pose proof (scan_step_advances s Hi) as Hadv.
  revert Hi Hadv. destruct s as [i l c cm b ib ls ie].
  unfold scan_bounded.
  unfold scan_step, close_line; cbv zeta;
    cbn [s_i s_lines s_code s_comments s_blanks s_in_block s_line_start
         s_is_empty].
  scan_cases;
    cbn [s_i s_lines s_code s_comments s_blanks s_in_block s_line_start
         s_is_empty];
    intros Hi Hadv (Hl & Hc & Hb & Hcm & Hcm');
    repeat split; try lia; try assumption;
    bool_hyps; destruct Hcm' as [?|(? & ? & ?)]; subst; try discriminate;
    solve [left; lia | right; repeat split; (lia || reflexivity)].
Qed.

(** The main loop keeps whatever one iteration keeps. *)
Lemma scan_loop_invariant (P : scan_t -> Prop) :
  (forall s, 0 <= s_i s < buf_size -> P s -> P (step s)) ->
  forall (fuel : nat) (s : scan_t),
    0 <= s_i s -> P s ->
    P (scan_loop buffer lc bs be fuel s)
    /\ 0 <= s_i (scan_loop buffer lc bs be fuel s).
Proof.
  intros Hstep fuel; induction fuel as [|fuel IH]; intros s Hi HP.
  - simpl. auto.
  - simpl. destruct (Z.ltb_spec (s_i s) buf_size) as [Hlt|Hge]; [|auto].
    pose proof (scan_step_advances s (conj Hi Hlt)).
    apply IH; [lia|]. apply Hstep; [lia|exact HP].
Qed.

(** With [buf_size] iterations allowed, the loop stops because its test
    [i < buf_size] fails, with [i] exactly at the end of the buffer. *)
Lemma scan_loop_exits (fuel : nat) (s : scan_t) :
  0 <= s_i s <= buf_size ->
  buf_size - s_i s <= Z.of_nat fuel ->
  s_i (scan_loop buffer lc bs be fuel s) = buf_size.
Proof.
  revert s; induction fuel as [|fuel IH]; intros s Hi Hfuel.
  - simpl. lia.
  - simpl. destruct (Z.ltb_spec (s_i s) buf_size) as [Hlt|Hge]; [|lia].
    pose proof (scan_step_advances s (conj (proj1 Hi) Hlt)).
    apply IH; lia.
Qed.

Lemma scan_final_index :
  s_i (scan_loop buffer lc bs be (Z.to_nat buf_size) scan_init) = buf_size.
Proof. apply scan_loop_exits; simpl; lia. Qed.

End StepFacts.

(** ** The classifier as a whole *)

Lemma marker_cases (lang : option dynamic_lang_t)
    (field : dynamic_lang_t -> string) :
  marker lang field = None
  \/ exists l, lang = Some l /\ marker lang field = Some (field l).
Proof.
  unfold marker. destruct lang as [l|]; [|now left].
  destruct (negb _); [right; now exists l | now left].
Qed.

Lemma markers_newline_free_opt (lang : option dynamic_lang_t) :
  markers_newline_free lang ->
  opt_newline_free (marker lang block_start)
  /\ opt_newline_free (marker lang block_end).
Proof.
  intros H. split.
  - destruct (marker_cases lang block_start) as [->|(l & -> & ->)];
      simpl in *; tauto.
  - destruct (marker_cases lang block_end) as [->|(l & -> & ->)];
      simpl in *; tauto.
Qed.

Lemma scan_all_lines (buffer : list ascii) (lc bs be : option string) :
  opt_newline_free bs -> opt_newline_free be ->
  s_lines (scan_all buffer lc bs be) = count_newlines buffer + 1.
Proof.
  intros Hbs Hbe. unfold scan_all.
  destruct (close_line_fields
              (scan_loop buffer lc bs be
                 (Z.to_nat (Z.of_nat (List.length buffer))) scan_init))
    as (_ & -> & _).
  destruct (scan_loop_invariant buffer lc bs be
              (fun s => s_lines s = 1 + newlines_upto buffer (s_i s))
              (fun s Hi => scan_step_lines buffer lc bs be s Hbs Hbe Hi)
              (Z.to_nat (Z.of_nat (List.length buffer))) scan_init)
    as [Hl _]; [simpl; lia|reflexivity|].
  rewrite Hl, scan_final_index, newlines_upto_all. lia.
Qed.

Lemma count_file_buffer_lines (buffer : list ascii)
    (lang : option dynamic_lang_t) :
  markers_newline_free lang ->
  r_lines (count_file_buffer buffer lang) = count_newlines buffer + 1.
Proof.
  intros H. unfold count_file_buffer.
  destruct (Z.eqb_spec (Z.of_nat (List.length buffer)) 0) as [E|E].
  - destruct buffer; [reflexivity|simpl in E; lia].
  - cbn [r_lines]. destruct (markers_newline_free_opt lang H).
    now apply scan_all_lines.
Qed.

Lemma count_newlines_snoc (buffer : list ascii) :
  count_newlines (buffer ++ [NL]) = count_newlines buffer + 1.
Proof.
  unfold count_newlines. rewrite count_occ_app. simpl. lia.
Qed.

Lemma count_newlines_nonneg (buffer : list ascii) :
  0 <= count_newlines buffer.
Proof. unfold count_newlines. lia. Qed.

(** Without a line-comment marker (or without a descriptor) the three
    classes partition the lines. *)
Lemma count_file_buffer_sum_without_line_comment (buffer : list ascii)
    (lang : option dynamic_lang_t) :
  marker lang line_comment = None ->
  let r := count_file_buffer buffer lang in
  r_lines r = r_code r + r_comments r + r_blanks r.
Proof.
  intros Hlc. cbv zeta. unfold count_file_buffer.
  destruct (Z.eqb_spec (Z.of_nat (List.length buffer)) 0) as [E|E];
    [reflexivity|].
  cbn [r_lines r_code r_comments r_blanks]. rewrite Hlc. unfold scan_all.
  destruct (scan_loop_invariant buffer None (marker lang block_start)
              (marker lang block_end)
              (fun s => s_lines s = s_code s + s_comments s + s_blanks s + 1)
              (fun s _ => scan_step_sum buffer None _ _ s eq_refl)
              (Z.to_nat (Z.of_nat (List.length buffer))) scan_init)
    as [Hsum _]; [simpl; lia|reflexivity|].
  revert Hsum. generalize (scan_loop buffer None (marker lang block_start)
    (marker lang block_end) (Z.to_nat (Z.of_nat (List.length buffer)))
    scan_init).
  intros [i l c cm b ib ls ie]. unfold close_line.
  cbn [s_i s_lines s_code s_comments s_blanks s_in_block s_line_start
       s_is_empty].
  scan_cases; cbn [s_lines s_code s_comments s_blanks]; lia.
Qed.

(** All counters stay between 0 and [buf_size + 1]. *)
Lemma count_file_buffer_bounds (buffer : list ascii)
    (lang : option dynamic_lang_t) :
  let r := count_file_buffer buffer lang in
  let n := Z.of_nat (List.length buffer) in
  1 <= r_lines r <= n + 1
  /\ 0 <= r_code r <= r_lines r
  /\ 0 <= r_comments r <= r_lines r
  /\ 0 <= r_blanks r <= r_lines r
  /\ r_size r = n.
Proof.
  cbv zeta. unfold count_file_buffer.
  destruct (Z.eqb_spec (Z.of_nat (List.length buffer)) 0) as [E|E].
  - cbn [r_lines r_code r_comments r_blanks r_size]. lia.
  - cbn [r_lines r_code r_comments r_blanks r_size]. unfold scan_all.
    set (lc := marker lang line_comment).
    set (bs := marker lang block_start).
    set (be := marker lang block_end).
    destruct (scan_loop_invariant buffer lc bs be scan_bounded
                (scan_step_bounded buffer lc bs be)
                (Z.to_nat (Z.of_nat (List.length buffer))) scan_init)
      as [Hb _]; [simpl; lia|unfold scan_bounded; simpl; lia|].
    pose proof (scan_final_index buffer lc bs be) as Hend.
    revert Hb Hend. generalize (scan_loop buffer lc bs be
      (Z.to_nat (Z.of_nat (List.length buffer))) scan_init).
    intros [i l c cm b ib ls ie]. unfold scan_bounded, close_line.
    cbn [s_i s_lines s_code s_comments s_blanks s_in_block s_line_start
         s_is_empty].
    intros (Hl & Hc & Hbl & Hcm & Hcm') Hend.
    scan_cases; cbn [s_lines s_code s_comments s_blanks];
      repeat split; try lia;
      destruct Hcm' as [?|(? & ? & ?)]; subst; try discriminate; lia.
Qed.

(** ** Claims about the classifier *)

(** C1.  The claim is that [lines = code + comments + blanks] for every
    buffer and descriptor.  The code breaks it on a line that starts with
    the line-comment marker: the line is counted as a comment when the
    marker is matched and, [is_empty] being left set, once more as a blank
    when the line ends.  On the 3-byte buffer ["//x"] with line-comment
    marker ["//"] the result is [lines = 1, code = 0, comments = 1,
    blanks = 1]. *)
Theorem line_comment_line_counted_twice :
  let r := count_file_buffer (bytes "//x")
             (Some (lang_markers "//" EmptyString EmptyString)) in
  r = mkResult 1 0 1 1 3
  /\ r_lines r <> r_code r + r_comments r + r_blanks r.
Proof. vm_compute. split; [reflexivity|discriminate]. Qed.

(** C2, as stated, fails: on ["//hello\ncode();\n"] with line-comment marker
    ["//"] the result is not [lines = 2, code = 1, comments = 1,
    blanks = 0]. *)
Lemma line_comment_example_not_as_claimed :
  let r := count_file_buffer
             (bytes "//hello" ++ [NL] ++ bytes "code();" ++ [NL])
             (Some (lang_markers "//" EmptyString EmptyString)) in
  ~ (r_lines r = 2 /\ r_code r = 1 /\ r_comments r = 1 /\ r_blanks r = 0).
Proof. vm_compute. intros (H & _). discriminate H. Qed.

(** C2, amended.  With line-comment marker ["//"] and no block markers, the
    16-byte buffer ["//hello\ncode();\n"] has [lines = 3] (the empty segment
    after the final newline is a line), [code = 1] and [comments = 1]. *)
Theorem line_comment_example_counts :
  let buf := bytes "//hello" ++ [NL] ++ bytes "code();" ++ [NL] in
  let r := count_file_buffer buf (Some (lang_markers "//" EmptyString EmptyString)) in
  List.length buf = 16%nat
  /\ r_lines r = 3 /\ r_code r = 1 /\ r_comments r = 1 /\ r_size r = 16.
Proof. vm_compute. repeat split. Qed.

(** C3, as stated, fails: on ["/* a\nb */\ncode;\n"] with block markers
    ["/*"] and ["*/"] the result is not [lines = 3, code = 1, comments = 2,
    blanks = 0]. *)
Lemma block_comment_example_not_as_claimed :
  let r := count_file_buffer
             (bytes "/* a" ++ [NL] ++ bytes "b */" ++ [NL]
              ++ bytes "code;" ++ [NL])
             (Some (lang_markers EmptyString "/*" "*/")) in
  ~ (r_lines r = 3 /\ r_code r = 1 /\ r_comments r = 2 /\ r_blanks r = 0).
Proof. vm_compute. intros (H & _). discriminate H. Qed.

(** C3, amended.  With block markers ["/*"] and ["*/"], the buffer
    ["/* a\nb */\ncode;\n"] has [lines = 4]: the empty segment after the
    final newline is a line.  Line 1 is classified as a comment, the block
    being open at its end: after the four iterations of the main loop that
    read line 1 and its newline ([i = 5]) the counters are [lines = 2,
    code = 0, comments = 1, blanks = 0] and [in_block] is set. *)
Theorem block_comment_example_counts :
  let buf := bytes "/* a" ++ [NL] ++ bytes "b */" ++ [NL]
             ++ bytes "code;" ++ [NL] in
  let lang := Some (lang_markers EmptyString "/*" "*/") in
  r_lines (count_file_buffer buf lang) = 4
  /\ scan_loop buf (marker lang line_comment) (marker lang block_start)
       (marker lang block_end) 4 scan_init
     = mkScan 5 2 0 1 0 true true true.
Proof. vm_compute. split; reflexivity. Qed.

(** C4.  The empty buffer, with any descriptor or none, gives
    [lines = 1, code = 0, comments = 0, blanks = 1, size = 0]. *)
Theorem count_empty_buffer (lang : option dynamic_lang_t) :
  count_file_buffer [] lang = mkResult 1 0 0 1 0.
Proof. reflexivity. Qed.

(** C9.  When the three markers of the descriptor hold no newline byte (or
    there is no descriptor), [lines] is the number of newline bytes of the
    buffer plus one; so [lines >= 1], and appending a newline to a buffer
    adds one line: the empty segment after a final newline is a line. *)
Theorem lines_is_newlines_plus_one (B : list ascii)
    (lang : option dynamic_lang_t) :
  markers_newline_free lang ->
  r_lines (count_file_buffer B lang) = count_newlines B + 1
  /\ 1 <= r_lines (count_file_buffer B lang)
  /\ r_lines (count_file_buffer (B ++ [NL]) lang)
     = r_lines (count_file_buffer B lang) + 1.
Proof.
  intros H. rewrite !count_file_buffer_lines by exact H.
  rewrite count_newlines_snoc.
  pose proof (count_newlines_nonneg B). lia.
Qed.

Lemma lines_is_newlines_plus_one_witness :
  let B := bytes "// a" ++ [NL] ++ bytes "/* b */ c" ++ [NL] in
  let lang := Some (lang_markers "//" "/*" "*/") in
  markers_newline_free lang
  /\ r_lines (count_file_buffer B lang) = count_newlines B + 1
  /\ 1 <= r_lines (count_file_buffer B lang)
  /\ r_lines (count_file_buffer (B ++ [NL]) lang)
     = r_lines (count_file_buffer B lang) + 1.
Proof.
  cbv zeta.
  assert (H : markers_newline_free (Some (lang_markers "//" "/*" "*/")))
    by (vm_compute; auto).
  split; [exact H|].
  apply (lines_is_newlines_plus_one
           (bytes "// a" ++ [NL] ++ bytes "/* b */ c" ++ [NL])
           (Some (lang_markers "//" "/*" "*/")) H).
Defined.

(** [lines >= 1] needs no assumption on the markers. *)
Lemma lines_at_least_one (B : list ascii) (lang : option dynamic_lang_t) :
  1 <= r_lines (count_file_buffer B lang).
Proof. apply (count_file_buffer_bounds B lang). Qed.

(** ** Detection *)

Lemma last_dot_dot_free (p : string) (ext : option string) :
  dot_free p = true -> last_dot p ext = ext.
Proof.
  revert ext; induction p as [|c p IH]; intros ext H; [reflexivity|].
  unfold dot_free in *. rewrite byte_free_cons in H.
  apply andb_true_iff in H. destruct H as [Hc Hp].
  cbn [last_dot]. rewrite Ascii.eqb_sym. apply negb_true_iff in Hc.
  rewrite Hc. now apply IH.
Qed.

(** The extension is the suffix that starts at the last ['.']. *)
Lemma last_dot_suffix (pre suf : string) (ext : option string) :
  dot_free suf = true ->
  last_dot (pre ++ String "."%char suf) ext = Some (String "."%char suf).
Proof.
  intros Hsuf. revert ext; induction pre as [|c pre IH]; intros ext.
  - cbn [append last_dot]. rewrite Ascii.eqb_refl.
    now apply last_dot_dot_free.
  - cbn [append last_dot]. apply IH.
Qed.

Lemma lookup_extension_nil (ext : string) : lookup_extension [] ext = None.
Proof. reflexivity. Qed.

Lemma detect_language_lookup (g : registry) (pre suf : string) :
  dot_free suf = true ->
  detect_language g (pre ++ String "."%char suf)
  = lookup_extension g (String "."%char suf).
Proof.
  intros Hsuf. unfold detect_language. rewrite last_dot_suffix by exact Hsuf.
  destruct g; reflexivity.
Qed.

Lemma detect_language_no_dot (g : registry) (p : string) :
  dot_free p = true -> detect_language g p = None.
Proof.
  intros Hp. unfold detect_language. rewrite last_dot_dot_free by exact Hp.
  destruct (g_lang_count g =? 0); reflexivity.
Qed.

Lemma str_copy_unknown (max_len : Z) :
  8 <= max_len -> str_copy (Some "Unknown"%string) max_len = "Unknown"%string.
Proof.
  intros H. rewrite str_copy_prefix. apply str_prefix_short. simpl. lia.
Qed.

(** C5.  The extension used for detection is the suffix of the path that
    starts at its last ['.']: a path [pre ++ "." ++ suf] with no ['.'] in
    [suf] is looked up under ["." ++ suf]; ["archive.tar.gz"] is looked up
    under [".gz"], so a language registered for [".tar.gz"] only does not
    match it and one registered for [".gz"] does; a path without ['.'] has
    no descriptor and its language name is ["Unknown"] (in a name buffer of
    at least 8 bytes). *)
Theorem detect_uses_last_dot (g : registry) (pre suf p : string)
    (max_len : Z) :
  dot_free suf = true -> dot_free p = true -> 8 <= max_len ->
  last_dot (pre ++ String "."%char suf) None = Some (String "."%char suf)
  /\ detect_language g (pre ++ String "."%char suf)
     = lookup_extension g (String "."%char suf)
  /\ last_dot "archive.tar.gz" None = Some ".gz"%string
  /\ detect_language g "archive.tar.gz" = lookup_extension g ".gz"
  /\ (let g1 := add_language [] (Some "Tarball"%string)
                  (Some "tar.gz,"%string) None None None in
      let g2 := add_language g1 (Some "Gzip"%string)
                  (Some "gz,"%string) None None None in
      detect_language g1 "archive.tar.gz" = None
      /\ option_map name (detect_language g2 "archive.tar.gz")
         = Some "Gzip"%string)
  /\ detect_language g p = None
  /\ get_language_name g p max_len = "Unknown"%string.
Proof.
  intros Hsuf Hp Hmax. repeat apply conj.
  - now apply last_dot_suffix.
  - now apply detect_language_lookup.
  - reflexivity.
  - apply (detect_language_lookup g "archive.tar" "gz"). reflexivity.
  - reflexivity.
  - reflexivity.
  - now apply detect_language_no_dot.
  - unfold get_language_name. rewrite detect_language_no_dot by exact Hp.
    now apply str_copy_unknown.
Qed.

Lemma detect_uses_last_dot_witness :
  let g := add_language [] (Some "C"%string) (Some "c,h,"%string)
             (Some "//"%string) (Some "/*"%string) (Some "*/"%string) in
  dot_free "c" = true /\ dot_free "Makefile" = true /\ 8 <= 64
  /\ detect_language g "src/utils/cloc.c" = lookup_extension g ".c"
  /\ detect_language g "Makefile" = None
  /\ get_language_name g "Makefile" 64 = "Unknown"%string.
Proof.
  cbv zeta.
  assert (H1 : dot_free "c" = true) by reflexivity.
  assert (H2 : dot_free "Makefile" = true) by reflexivity.
  assert (H3 : 8 <= 64) by lia.
  pose proof (detect_uses_last_dot
                (add_language [] (Some "C"%string) (Some "c,h,"%string)
                   (Some "//"%string) (Some "/*"%string) (Some "*/"%string))
                "src/utils/cloc" "c" "Makefile" 64 H1 H2 H3)
    as (_ & Hd & _ & _ & _ & Hn & Hu).
  repeat split; try assumption.
Defined.

(** ** Registration *)

Lemma parse_extensions_loop_S (n : nat) (ext_str : string) (start pos : Z)
    (exts : list string) :
  parse_extensions_loop (S n) ext_str start pos exts
  = if negb (Ascii.eqb (char_at ext_str pos) NUL)
       && (Z.of_nat (List.length exts) <? 20)
    then
      let hit := Ascii.eqb (char_at ext_str pos) ","%char
                 || Ascii.eqb (char_at ext_str pos) NUL in
      let exts' := if hit then store_extension ext_str start pos exts
                   else exts in
      let start' := if hit then pos + 1 else start in
      if negb (Ascii.eqb (char_at ext_str pos) NUL)
      then parse_extensions_loop n ext_str start' (pos + 1) exts'
      else exts'
    else exts.
Proof. reflexivity. Qed.

(** Bytes that are neither [','] nor the terminator are passed without
    storing anything. *)
Lemma parse_extensions_loop_skip (n m : nat) (ext_str : string)
    (start pos : Z) (exts : list string) :
  (forall k, pos <= k < pos + Z.of_nat n ->
     char_at ext_str k <> ","%char /\ char_at ext_str k <> NUL) ->
  Z.of_nat (List.length exts) < 20 ->
  parse_extensions_loop (n + m) ext_str start pos exts
  = parse_extensions_loop m ext_str start (pos + Z.of_nat n) exts.
Proof.
  revert pos; induction n as [|n IH]; intros pos Hk Hlen.
  - simpl. now rewrite Z.add_0_r.
  - change (S n + m)%nat with (S (n + m)).
    rewrite parse_extensions_loop_S. cbv zeta.
    destruct (Hk pos) as [Hc Hz]; [lia|].
    apply Ascii.eqb_neq in Hc, Hz. rewrite Hc, Hz.
    destruct (Z.ltb_spec (Z.of_nat (List.length exts)) 20); [|lia].
    cbn [negb andb orb]. rewrite IH; [f_equal; lia| |exact Hlen].
    intros k Hk'. apply Hk. lia.
Qed.

(** The final entry of the list, the one that is followed by the terminator
    and not by a [','], is never stored: the loop test [ext_str[pos]] fails
    before the body can see the terminator.  In particular a list without
    [','] registers no extension at all. *)
Lemma parse_extensions_loop_no_comma (n : nat) (ext_str : string)
    (start pos : Z) (exts : list string) :
  comma_free ext_str = true ->
  parse_extensions_loop n ext_str start pos exts = exts.
Proof.
  intros Hfree. revert pos; induction n as [|n IH]; intros pos;
    [reflexivity|].
  rewrite parse_extensions_loop_S. cbv zeta.
  assert (Hc : char_at ext_str pos <> ","%char)
    by (apply byte_free_char_at; [discriminate|exact Hfree]).
  apply Ascii.eqb_neq in Hc. rewrite Hc.
  destruct (Ascii.eqb (char_at ext_str pos) NUL); cbn [negb andb orb];
    [reflexivity|].
  destruct (Z.of_nat (List.length exts) <? 20); [apply IH|reflexivity].
Qed.

Lemma parse_extensions_no_comma (ext_str : string) :
  comma_free ext_str = true -> parse_extensions (Some ext_str) = [].
Proof. intros H. now apply parse_extensions_loop_no_comma. Qed.

Lemma byte_free_char_at_in (c : ascii) (s : string) (k : Z) :
  byte_free c s = true -> 0 <= k < Z.of_nat (String.length s) ->
  char_at s k <> c.
Proof.
  unfold char_at. intros H Hk.
  assert (Hn : (Z.to_nat k < String.length s)%nat) by lia. clear Hk.
  revert Hn. generalize (Z.to_nat k) as n. revert H.
  induction s as [|x s IH]; intros H n Hn; [simpl in Hn; lia|].
  rewrite byte_free_cons in H. apply andb_true_iff in H.
  destruct H as [Hx Hs]. apply negb_true_iff, Ascii.eqb_neq in Hx.
  destruct n as [|n]; cbn [String.get]; [congruence|].
  apply IH; [exact Hs|simpl in Hn; lia].
Qed.

Lemma char_at_app_l (s t : string) (k : Z) :
  0 <= k < Z.of_nat (String.length s) ->
  char_at (s ++ t)%string k = char_at s k.
Proof.
  intros Hk. unfold char_at.
  now rewrite <- (append_correct1 s t (Z.to_nat k)) by lia.
Qed.

Lemma char_at_app_r (s t : string) :
  char_at (s ++ t)%string (Z.of_nat (String.length s)) = char_at t 0.
Proof.
  unfold char_at. rewrite Nat2Z.id.
  change (String.length s) with (0 + String.length s)%nat.
  now rewrite <- append_correct2.
Qed.

Lemma char_at_past_end (s : string) (k : Z) :
  Z.of_nat (String.length s) <= k -> char_at s k = NUL.
Proof.
  intros Hk. unfold char_at.
  assert (Hn : (String.length s <= Z.to_nat k)%nat) by lia.
  clear Hk. revert Hn. generalize (Z.to_nat k) as n.
  induction s as [|x s IH]; intros n Hn; [now destruct n|].
  destruct n as [|n]; simpl in Hn; [lia|]. cbn [String.get].
  apply IH. lia.
Qed.

(** The parsing loop is called with [strlen ext_str] iterations, by which
    [pos] has reached the terminator: allowing more changes nothing. *)
Lemma parse_extensions_loop_fuel (n m : nat) (ext_str : string)
    (start pos : Z) (exts : list string) :
  Z.of_nat (String.length ext_str) <= pos + Z.of_nat n ->
  parse_extensions_loop (n + m) ext_str start pos exts
  = parse_extensions_loop n ext_str start pos exts.
Proof.
  revert start pos exts; induction n as [|n IH]; intros start pos exts Hn.
  - destruct m as [|m]; [reflexivity|].
    cbn [Nat.add]. rewrite parse_extensions_loop_S.
    rewrite char_at_past_end by lia. reflexivity.
  - cbn [Nat.add]. rewrite !parse_extensions_loop_S. cbv zeta.
    destruct (negb (Ascii.eqb (char_at ext_str pos) NUL)
              && (Z.of_nat (List.length exts) <? 20)); [|reflexivity].
    destruct (negb (Ascii.eqb (char_at ext_str pos) NUL)); [|reflexivity].
    apply IH. lia.
Qed.

Lemma string_length_app (s t : string) :
  String.length (s ++ t)%string = (String.length s + String.length t)%nat.
Proof. induction s as [|x s IH]; simpl; [reflexivity|now rewrite IH]. Qed.

Lemma substring_app_l (s t : string) :
  substring 0 (String.length s) (s ++ t)%string = s.
Proof.
  induction s as [|x s IH]; simpl.
  - destruct t; reflexivity.
  - now rewrite IH.
Qed.

(** What dot-normalisation does to an entry that is stored: a list made of
    one entry of 1 to 14 bytes followed by a [','] registers that entry,
    with a ['.'] in front unless it has one. *)
Lemma parse_extensions_single (e : string) :
  comma_free e = true -> byte_free NUL e = true ->
  (1 <= String.length e <= 14)%nat ->
  parse_extensions (Some (e ++ ",")%string)
  = [if Ascii.eqb (char_at e 0) "."%char then e else String "."%char e].
Proof.
  intros Hcomma Hnul Hlen. unfold parse_extensions.
  assert (Hl : String.length (e ++ ",")%string = (String.length e + 1)%nat).
  { rewrite string_length_app. reflexivity. }
  rewrite Hl, parse_extensions_loop_skip; cbn [List.length]; try lia.
  - rewrite Z.add_0_l.
    change 1%nat with (S O). rewrite parse_extensions_loop_S. cbv zeta.
    rewrite char_at_app_r.
    change (char_at ","%string 0) with ","%char.
    cbn [Ascii.eqb Bool.eqb negb andb orb List.length parse_extensions_loop].
    assert (H20 : (Z.of_nat 0 <? 20) = true) by reflexivity.
    rewrite H20. cbn [negb andb orb].
    unfold store_extension.
    replace (Z.of_nat (String.length e) - 0 >? 0) with true
      by (symmetry; apply Z.gtb_lt; lia).
    replace (Z.of_nat (String.length e) - 0 <? 15) with true
      by (symmetry; apply Z.ltb_lt; lia).
    cbn [andb app]. rewrite (char_at_app_l e ","%string 0) by lia.
    destruct (Ascii.eqb (char_at e 0) "."%char); cbn [negb Z.eqb].
    + replace (Z.to_nat (Z.min (Z.of_nat (String.length e) - 0) (15 - 0)))
        with (String.length e) by lia.
      change (Z.to_nat 0) with O. now rewrite substring_app_l.
    + replace (Z.to_nat (Z.min (Z.of_nat (String.length e) - 0) (15 - 1)))
        with (String.length e) by lia.
      change (Z.to_nat 0) with O. now rewrite substring_app_l.
  - intros k Hk. rewrite char_at_app_l by lia. split.
    + apply byte_free_char_at; [discriminate|exact Hcomma].
    + apply byte_free_char_at_in; [exact Hnul|lia].
Qed.

(** C8.  The claim is that the entries ["py"] and [".py"] register the same
    extension, a ['.'] being put in front of an entry that lacks one.  The
    code stores an entry only when it meets the [','] that follows it: the
    loop stops on the terminator before its body, which tests for it, can
    run.  Registering the list ["py"] (or [".py"]) therefore stores no
    extension, nothing is normalised, and ["a.py"] is not detected; with a
    [','] after the entry it is stored as [".py"] and detected. *)
Theorem last_extension_entry_dropped :
  let reg := fun exts =>
    add_language [] (Some "Python"%string) (Some exts)
                 (Some "#"%string) None None in
  reg "py"%string = [mkLang "Python" [] "#" EmptyString EmptyString]
  /\ reg ".py"%string = [mkLang "Python" [] "#" EmptyString EmptyString]
  /\ detect_language (reg "py"%string) "a.py" = None
  /\ get_language_name (reg "py"%string) "a.py" 64 = "Unknown"%string
  /\ reg "py,"%string
     = [mkLang "Python" [".py"%string] "#" EmptyString EmptyString]
  /\ reg ".py,"%string = reg "py,"%string
  /\ reg "js,py"%string
     = [mkLang "Python" [".js"%string] "#" EmptyString EmptyString]
  /\ option_map name (detect_language (reg "py,"%string) "a.py")
     = Some "Python"%string.
Proof. vm_compute. repeat apply conj; reflexivity. Qed.

(** Registration appends one descriptor, with every string cut to the size
    of its field, while there is room. *)
Lemma add_language_spec (g : registry) (name exts lc bs be : option string) :
  g_lang_count g < 300 ->
  add_language g name exts lc bs be
  = g ++ [mkLang (str_copy name 64) (parse_extensions exts)
                 (str_copy lc 8) (str_copy bs 8) (str_copy be 8)].
Proof.
  intros H. unfold add_language.
  destruct (Z.geb_spec (g_lang_count g) 300); [lia|reflexivity].
Qed.

Lemma add_language_full (g : registry) (name exts lc bs be : option string) :
  300 <= g_lang_count g -> add_language g name exts lc bs be = g.
Proof.
  intros H. unfold add_language.
  destruct (Z.geb_spec (g_lang_count g) 300); [reflexivity|lia].
Qed.

Lemma str_copy_idem (s : string) (max_len : Z) :
  str_copy (Some (str_copy (Some s) max_len)) max_len
  = str_copy (Some s) max_len.
Proof. rewrite !str_copy_prefix. apply str_prefix_idem. Qed.

(** C10.  While the registry has room, registration stores the first 63
    bytes of the name and the first 7 bytes of each comment marker; the
    registry, and with it every later analysis, is the one obtained by
    registering these prefixes: a marker of more than 7 bytes is matched by
    its first 7 bytes only.  For instance the 9-byte marker ["REMARK:::"]
    makes a comment of the line ["REMARK: x"], which does not hold it. *)
Theorem registration_truncates (g : registry) (name lc bs be : string)
    (exts : option string) :
  g_lang_count g < 300 ->
  let g' := add_language g (Some name) exts (Some lc) (Some bs) (Some be) in
  g' = g ++ [mkLang (str_prefix 63 name) (parse_extensions exts)
                    (str_prefix 7 lc) (str_prefix 7 bs) (str_prefix 7 be)]
  /\ g' = add_language g (Some (str_prefix 63 name)) exts
            (Some (str_prefix 7 lc)) (Some (str_prefix 7 bs))
            (Some (str_prefix 7 be))
  /\ (forall (path : string) (buf : list ascii),
        analyze_file g' path buf
        = analyze_file
            (add_language g (Some name) exts (Some (str_prefix 7 lc))
               (Some (str_prefix 7 bs)) (Some (str_prefix 7 be)))
            path buf)
  /\ (let g1 := add_language [] (Some "Basic"%string) (Some "bas,"%string)
                  (Some "REMARK:::"%string) None None in
      map line_comment g1 = ["REMARK:"%string]
      /\ r_comments (analyze_file g1 "a.bas" (bytes "REMARK: x")) = 1
      /\ r_code (analyze_file g1 "a.bas" (bytes "REMARK: x")) = 0).
Proof.
  intros Hroom. cbv zeta.
  rewrite !add_language_spec by exact Hroom.
  rewrite !str_copy_prefix.
  change (Z.to_nat (64 - 1)) with 63%nat.
  change (Z.to_nat (8 - 1)) with 7%nat.
  rewrite !str_prefix_idem.
  repeat apply conj; try reflexivity.
Qed.

Lemma registration_truncates_witness :
  let g := add_language [] (Some "C"%string) (Some "c,"%string)
             (Some "//"%string) (Some "/*"%string) (Some "*/"%string) in
  g_lang_count g < 300
  /\ add_language g (Some "Ruby"%string) (Some "rb,"%string)
       (Some "#"%string) (Some "=begin doc"%string) (Some "=end docs"%string)
     = g ++ [mkLang "Ruby" [".rb"%string] "#" "=begin " "=end do"].
Proof.
  cbv zeta.
  assert (H : g_lang_count
                (add_language [] (Some "C"%string) (Some "c,"%string)
                   (Some "//"%string) (Some "/*"%string) (Some "*/"%string))
              < 300) by (vm_compute; reflexivity).
  split; [exact H|].
  exact (proj1 (registration_truncates _ "Ruby" "#" "=begin doc"
                  "=end docs" (Some "rb,"%string) H)).
Defined.

(** ** Batch analysis *)

Lemma analyze_batch_cons (g : registry) (p : string) (buf : list ascii)
    (rest : list (string * list ascii)) :
  analyze_batch g ((p, buf) :: rest)
  = (get_language_name g p 64 :: fst (analyze_batch g rest),
     analyze_file g p buf :: snd (analyze_batch g rest)).
Proof.
  cbn [analyze_batch]. unfold get_language_name, analyze_file.
  destruct (analyze_batch g rest) as [names results].
  destruct (detect_language g p); reflexivity.
Qed.

(** The batch is the single-file analysis of each file, in input order;
    the names are those of [get_language_name] for a 64-byte buffer. *)
Lemma analyze_batch_map (g : registry) (batch : list (string * list ascii)) :
  analyze_batch g batch
  = (map (fun f => get_language_name g (fst f) 64) batch,
     map (fun f => analyze_file g (fst f) (snd f)) batch).
Proof.
  induction batch as [|[p buf] rest IH]; [reflexivity|].
  rewrite analyze_batch_cons, IH. reflexivity.
Qed.

(** C7.  A batch of one file [(p, buf)] yields exactly one result, that of
    [analyze_file] on [p] and [buf], and exactly one language name, that of
    [get_language_name] on [p] (for the 64-byte name slot of the batch). *)
Theorem batch_single_agrees (g : registry) (p : string) (buf : list ascii) :
  analyze_batch g [(p, buf)]
  = ([get_language_name g p 64], [analyze_file g p buf]).
Proof. rewrite analyze_batch_cons. reflexivity. Qed.

(** Registered names fit the 64-byte slots, so a larger name buffer gives
    the same name. *)
Lemma add_language_names_fit (g : registry)
    (nm exts lc bs be : option string) :
  names_fit g -> names_fit (add_language g nm exts lc bs be).
Proof.
  intros Hg. unfold add_language.
  destruct (g_lang_count g >=? 300); [exact Hg|].
  apply Forall_app. split; [exact Hg|]. constructor; [|constructor].
  cbn [name]. destruct nm as [s|]; [|simpl; lia].
  rewrite str_copy_prefix. apply str_prefix_length.
Qed.

Lemma detect_language_in (g : registry) (p : string) (l : dynamic_lang_t) :
  detect_language g p = Some l -> In l g.
Proof.
  unfold detect_language, lookup_extension.
  destruct (g_lang_count g =? 0); [discriminate|].
  destruct (last_dot p None); [|discriminate].
  intros H. now apply find_some in H.
Qed.

Lemma get_language_name_max_len (g : registry) (p : string) (max_len : Z) :
  names_fit g -> 64 <= max_len ->
  get_language_name g p max_len = get_language_name g p 64.
Proof.
  intros Hg Hmax. unfold get_language_name.
  destruct (detect_language g p) as [l|] eqn:Hd.
  - apply detect_language_in in Hd.
    unfold names_fit in Hg. rewrite Forall_forall in Hg.
    specialize (Hg l Hd). rewrite !str_copy_prefix.
    rewrite !str_prefix_short by lia. reflexivity.
  - rewrite !str_copy_unknown by lia. reflexivity.
Qed.

(** ** Aggregation *)

Lemma aggregate_step_unknown (table : list (string * lang_stats_t))
    (file : string * result_t) :
  is_unknown file = true -> aggregate_step table file = table.
Proof.
  destruct file as [n r]. unfold is_unknown, aggregate_step. cbn [fst].
  intros ->. reflexivity.
Qed.


Lemma str_equals_ci_length (a b : string) :
  str_equals_ci a b = true -> String.length a = String.length b.
Proof.
  revert b; induction a as [|x a IH]; intros [|y b] H; simpl in H;
    try discriminate; [reflexivity|].
  destruct (Ascii.eqb (lower x) (lower y)); [|discriminate].
  simpl. f_equal. now apply IH.
Qed.

Lemma str_prefix_length_eq (n : nat) (s : string) :
  (n <= String.length s)%nat -> String.length (str_prefix n s) = n.
Proof.
  unfold str_prefix.
  revert n; induction s as [|c s IH]; intros [|n] H; simpl in *;
    try reflexivity; try lia.
  rewrite IH by lia. reflexivity.
Qed.

(** Cutting a name to its 64-byte slot does not make it ["Unknown"]. *)
Lemma str_copy_not_unknown (n : string) :
  str_equals_ci n "Unknown" = false ->
  str_equals_ci (str_copy (Some n) 64) "Unknown" = false.
Proof.
  intros H. rewrite str_copy_prefix.
  change (Z.to_nat (64 - 1)) with 63%nat.
  destruct (Nat.le_gt_cases (String.length n) 63) as [Hle|Hgt].
  - now rewrite str_prefix_short.
  - destruct (str_equals_ci (str_prefix 63 n) "Unknown") eqn:E;
      [|reflexivity].
    apply str_equals_ci_length in E.
    rewrite str_prefix_length_eq in E by lia. discriminate E.
Qed.

Lemma add_stats_names (table : list (string * lang_stats_t)) (idx : Z)
    (r : result_t) :
  map fst (add_stats table idx r) = map fst table.
Proof.
  revert idx; induction table as [|[n st] table IH]; intros idx;
    [reflexivity|].
  cbn [add_stats]. destruct (idx =? 0); cbn [map fst]; [reflexivity|].
  now rewrite IH.
Qed.

Lemma aggregate_step_known (table : list (string * lang_stats_t))
    (file : string * result_t) :
  known_names table -> known_names (aggregate_step table file).
Proof.
  intros Ht. destruct file as [n r]. unfold aggregate_step.
  destruct (str_equals_ci n "Unknown") eqn:Hn; [exact Ht|].
  destruct (find_lang_idx (map fst table) n 0 =? -1).
  - destruct (Z.of_nat (List.length table) <? 100); [|exact Ht].
    unfold known_names. rewrite add_stats_names, map_app.
    apply Forall_app. split; [exact Ht|].
    constructor; [|constructor]. cbn [fst].
    now apply str_copy_not_unknown.
  - unfold known_names. now rewrite add_stats_names.
Qed.



(** * Further properties *)

(** ** String utilities *)

Lemma str_equals_ci_lower (a b : string) :
  str_equals_ci a b = true <-> str_lower a = str_lower b.
Proof.
  revert b; induction a as [|x a IH]; intros [|y b]; cbn [str_equals_ci
    str_lower]; try (split; [discriminate|discriminate]).
  - split; reflexivity.
  - destruct (Ascii.eqb_spec (lower x) (lower y)) as [E|E].
    + rewrite IH. split; [intros ->; now rewrite E|].
      intros H. now injection H.
    + split; [discriminate|]. intros H. injection H as H _. contradiction.
Qed.

Lemma lower_cases (c : ascii) :
  let n := Z.of_nat (nat_of_ascii c) in
  (65 <= n <= 90 /\ Z.of_nat (nat_of_ascii (lower c)) = n + 32)
  \/ (~ 65 <= n <= 90 /\ lower c = c).
Proof.
  cbv zeta. unfold lower.
  destruct (Z.leb_spec 65 (Z.of_nat (nat_of_ascii c)));
    destruct (Z.leb_spec (Z.of_nat (nat_of_ascii c)) 90);
    cbn [andb]; try (right; split; [lia|reflexivity]).
  left. split; [lia|].
  rewrite nat_ascii_embedding by lia. lia.
Qed.

Lemma lower_idem (c : ascii) : lower (lower c) = lower c.
Proof.
  destruct (lower_cases c) as [[Hc Hl]|[_ E]]; [|now rewrite !E].
  destruct (lower_cases (lower c)) as [[Hc' _]|[_ E]]; [lia|exact E].
Qed.

(** X1.  [str_equals_ci] compares the two strings after mapping the bytes
    ['A'..'Z'] to ['a'..'z'] and nothing else: it holds exactly when the
    lower-case copies are equal.  It is therefore reflexive, symmetric and
    transitive, and strings it equates have the same length. *)
Theorem str_equals_ci_equivalence :
  (forall a b, str_equals_ci a b = true <-> str_lower a = str_lower b)
  /\ (forall a, str_equals_ci a a = true)
  /\ (forall a b, str_equals_ci a b = str_equals_ci b a)
  /\ (forall a b c, str_equals_ci a b = true -> str_equals_ci b c = true ->
        str_equals_ci a c = true)
  /\ (forall a b, str_equals_ci a b = true ->
        String.length a = String.length b)
  /\ (forall c, lower (lower c) = lower c)
  /\ (forall c, let n := Z.of_nat (nat_of_ascii c) in
        (65 <= n <= 90 /\ Z.of_nat (nat_of_ascii (lower c)) = n + 32)
        \/ (~ 65 <= n <= 90 /\ lower c = c)).
Proof.
  repeat apply conj.
  - apply str_equals_ci_lower.
  - intros a. now apply str_equals_ci_lower.
  - intros a b.
    destruct (str_equals_ci a b) eqn:Eab; destruct (str_equals_ci b a) eqn:Eba;
      try reflexivity.
    + apply str_equals_ci_lower in Eab. symmetry in Eab.
      apply str_equals_ci_lower in Eab. congruence.
    + apply str_equals_ci_lower in Eba. symmetry in Eba.
      apply str_equals_ci_lower in Eba. congruence.
  - intros a b c Hab Hbc. apply str_equals_ci_lower.
    apply str_equals_ci_lower in Hab, Hbc. congruence.
  - apply str_equals_ci_length.
  - apply lower_idem.
  - apply lower_cases.
Qed.

Lemma str_copy_length (src : option string) (max_len : Z) :
  Z.of_nat (String.length (str_copy src max_len)) <= Z.max 0 (max_len - 1).
Proof.
  destruct src as [s|]; [|simpl; lia].
  rewrite str_copy_prefix.
  pose proof (str_prefix_length (Z.to_nat (max_len - 1)) s). lia.
Qed.

(** X2.  [str_copy] never writes more than [max_len - 1] bytes before the
    terminator: what it leaves is the prefix of [src] of that length, the
    whole of [src] when it fits, and the empty string for a [NULL] source
    or [max_len <= 1]. *)
Theorem str_copy_bounded (src : option string) (max_len : Z) :
  Z.of_nat (String.length (str_copy src max_len)) <= Z.max 0 (max_len - 1)
  /\ (src = None -> str_copy src max_len = EmptyString)
  /\ (max_len <= 1 -> str_copy src max_len = EmptyString)
  /\ (forall s, src = Some s ->
        str_copy src max_len = str_prefix (Z.to_nat (max_len - 1)) s
        /\ (Z.of_nat (String.length s) < max_len ->
            str_copy src max_len = s)).
Proof.
  split; [apply str_copy_length|].
  destruct src as [s|].
  - rewrite str_copy_prefix.
    repeat apply conj.
    + discriminate.
    + intros H. replace (Z.to_nat (max_len - 1)) with O by lia.
      unfold str_prefix. destruct s; reflexivity.
    + intros s' E. injection E as <-. split; [reflexivity|].
      intros H. apply str_prefix_short. lia.
  - cbn [str_copy]. repeat apply conj; try reflexivity. discriminate.
Qed.

(** ** Detection *)




Lemma str_equals_ci_congr (a b e : string) :
  str_equals_ci a b = true -> str_equals_ci a e = str_equals_ci b e.
Proof.
  intros Hab. apply str_equals_ci_lower in Hab.
  destruct (str_equals_ci a e) eqn:Ea; destruct (str_equals_ci b e) eqn:Eb;
    try reflexivity.
  - apply str_equals_ci_lower in Ea.
    assert (H : str_equals_ci b e = true)
      by (apply str_equals_ci_lower; congruence).
    congruence.
  - apply str_equals_ci_lower in Eb.
    assert (H : str_equals_ci a e = true)
      by (apply str_equals_ci_lower; congruence).
    congruence.
Qed.

Lemma lookup_extension_ci (g : registry) (e1 e2 : string) :
  str_equals_ci e1 e2 = true ->
  lookup_extension g e1 = lookup_extension g e2.
Proof.
  intros H. unfold lookup_extension.
  induction g as [|l g IH]; [reflexivity|].
  cbn [find]. rewrite IH.
  replace (has_extension e2 l) with (has_extension e1 l); [reflexivity|].
  unfold has_extension. induction (extensions l) as [|e es IHe];
    [reflexivity|].
  cbn [existsb]. now rewrite IHe, (str_equals_ci_congr e1 e2 e H).
Qed.

(** X4.  Detection depends only on the letters of the extension, not on
    their case nor on what precedes the last ['.']: two paths whose texts
    after the last ['.'] are equal up to case get the same descriptor. *)
Theorem detect_language_case_insensitive (g : registry)
    (pre1 pre2 suf1 suf2 : string) :
  dot_free suf1 = true -> dot_free suf2 = true ->
  str_equals_ci suf1 suf2 = true ->
  detect_language g (pre1 ++ String "."%char suf1)
  = detect_language g (pre2 ++ String "."%char suf2).
Proof.
  intros H1 H2 Hci.
  rewrite !detect_language_lookup by assumption.
  apply lookup_extension_ci. cbn [str_equals_ci].
  rewrite Ascii.eqb_refl. exact Hci.
Qed.

Lemma detect_language_case_insensitive_witness :
  let g := add_language [] (Some "Python"%string) (Some "py,"%string)
             (Some "#"%string) None None in
  dot_free "PY" = true /\ dot_free "py" = true
  /\ str_equals_ci "PY" "py" = true
  /\ detect_language g "src/Main.PY" = detect_language g "b.py".
Proof.
  cbv zeta.
  assert (H1 : dot_free "PY" = true) by reflexivity.
  assert (H2 : dot_free "py" = true) by reflexivity.
  assert (H3 : str_equals_ci "PY" "py" = true) by reflexivity.
  split; [exact H1|]. split; [exact H2|]. split; [exact H3|].
  exact (detect_language_case_insensitive
           (add_language [] (Some "Python"%string) (Some "py,"%string)
              (Some "#"%string) None None)
           "src/Main" "b" "PY" "py" H1 H2 H3).
Defined.

(** ** Registration *)

Lemma substring_length_le (a n : nat) (s : string) :
  (String.length (substring a n s) <= n)%nat.
Proof.
  revert a n; induction s as [|c s IH]; intros [|a] [|n]; simpl; try lia.
  - specialize (IH 0%nat n). lia.
  - apply (IH a 0%nat).
  - apply (IH a (S n)).
Qed.

Lemma substring_head (a n : nat) (s : string) (c : ascii) :
  String.get a s = Some c ->
  substring a (S n) s = String c (substring (S a) n s).
Proof.
  revert a; induction s as [|x s IH]; intros [|a] H; simpl in H;
    try discriminate.
  - injection H as <-. reflexivity.
  - cbn [substring]. rewrite (IH a H). reflexivity.
Qed.

(** What [store_extension] adds, if anything, is a well-formed extension. *)
Lemma store_extension_ok (ext_str : string) (start pos : Z)
    (exts : list string) :
  0 <= start ->
  store_extension ext_str start pos exts = exts
  \/ exists e, store_extension ext_str start pos exts = exts ++ [e]
               /\ ext_ok e.
Proof.
  intros Hstart. unfold store_extension.
  destruct ((pos - start >? 0) && (pos - start <? 15)) eqn:Hlen;
    [right|now left].
  apply andb_true_iff in Hlen. destruct Hlen as [Hgt Hlt].
  apply Z.gtb_lt in Hgt. apply Z.ltb_lt in Hlt.
  eexists. split; [reflexivity|].
  destruct (Ascii.eqb_spec (char_at ext_str start) "."%char) as [E|E];
    cbn [negb Z.eqb Pos.eqb].
  - replace (Z.to_nat (Z.min (pos - start) (15 - 0)))
      with (S (Z.to_nat (pos - start - 1))) by lia.
    unfold char_at in E.
    destruct (String.get (Z.to_nat start) ext_str) as [c|] eqn:Hget;
      [|discriminate E].
    subst c. rewrite (substring_head _ _ _ _ Hget). split; [reflexivity|].
    cbn [String.length].
    pose proof (substring_length_le (S (Z.to_nat start))
                  (Z.to_nat (pos - start - 1)) ext_str).
    lia.
  - split; [reflexivity|]. cbn [String.length].
    pose proof (substring_length_le (Z.to_nat start)
                  (Z.to_nat (Z.min (pos - start) (15 - 1))) ext_str).
    lia.
Qed.

Lemma parse_extensions_loop_ok (n : nat) (ext_str : string) (start pos : Z)
    (exts : list string) :
  0 <= start -> 0 <= pos ->
  (List.length exts <= 20)%nat -> Forall ext_ok exts ->
  let r := parse_extensions_loop n ext_str start pos exts in
  (List.length r <= 20)%nat /\ Forall ext_ok r.
Proof.
  revert start pos exts; induction n as [|n IH];
    intros start pos exts Hstart Hpos Hlen Hok; cbv zeta; [now split|].
  rewrite parse_extensions_loop_S. cbv zeta.
  destruct (negb (Ascii.eqb (char_at ext_str pos) NUL)); cbn [andb];
    [|now split].
  destruct (Z.ltb_spec (Z.of_nat (List.length exts)) 20) as [Hroom|];
    [|now split].
  destruct (Ascii.eqb (char_at ext_str pos) ","%char
            || Ascii.eqb (char_at ext_str pos) NUL) eqn:Hhit.
  - destruct (store_extension_ok ext_str start pos exts Hstart)
      as [->|(e & -> & He)].
    + apply IH; try assumption; lia.
    + apply IH; try lia.
      * rewrite length_app. simpl. lia.
      * apply Forall_app. split; [assumption|].
        constructor; [exact He|constructor].
  - apply IH; try assumption; lia.
Qed.

Lemma parse_extensions_ok (exts : option string) :
  (List.length (parse_extensions exts) <= 20)%nat
  /\ Forall ext_ok (parse_extensions exts).
Proof.
  destruct exts as [s|]; [|split; [simpl; lia|constructor]].
  apply (parse_extensions_loop_ok (String.length s) s 0 0 []);
    try lia; [simpl; lia|constructor].
Qed.

(** X5.  Whatever strings it is given, [add_language] stores a descriptor
    that fits the arrays of [dynamic_lang_t]: a name of at most 63 bytes,
    markers of at most 7 bytes, at most 20 extensions, each of 1 to 15 bytes
    and starting with ['.'].  So a registry built by registrations alone
    holds only such descriptors. *)
Theorem add_language_fits (g : registry)
    (nm exts lc bs be : option string) :
  Forall lang_fits g -> Forall lang_fits (add_language g nm exts lc bs be).
Proof.
  intros Hg. unfold add_language.
  destruct (g_lang_count g >=? 300); [exact Hg|].
  apply Forall_app. split; [exact Hg|]. constructor; [|constructor].
  unfold lang_fits.
  cbn [name extensions line_comment block_start block_end].
  destruct (parse_extensions_ok exts) as [Hn Hok].
  pose proof (str_copy_length nm 64) as Hnm.
  pose proof (str_copy_length lc 8) as Hlc.
  pose proof (str_copy_length bs 8) as Hbs.
  pose proof (str_copy_length be 8) as Hbe.
  repeat apply conj; try assumption; lia.
Qed.

Lemma add_language_fits_witness :
  Forall lang_fits []
  /\ Forall lang_fits
       (add_language [] (Some "C"%string) (Some "c,h,"%string)
          (Some "//"%string) (Some "/*"%string) (Some "*/"%string)).
Proof.
  assert (H : Forall lang_fits []) by constructor.
  split; [exact H|].
  exact (add_language_fits [] (Some "C"%string) (Some "c,h,"%string)
           (Some "//"%string) (Some "/*"%string) (Some "*/"%string) H).
Defined.

Lemma find_app_one {A : Type} (f : A -> bool) (l : list A) (x : A) :
  find f (l ++ [x])
  = match find f l with
    | Some y => Some y
    | None => if f x then Some x else None
    end.
Proof.
  induction l as [|a l IH]; cbn [app find]; [reflexivity|].
  destruct (f a); [reflexivity|exact IH].
Qed.

Lemma detect_language_snoc (g : registry) (l : dynamic_lang_t) (p : string) :
  detect_language (g ++ [l]) p
  = match detect_language g p with
    | Some l' => Some l'
    | None =>
        match last_dot p None with
        | Some ext => if has_extension ext l then Some l else None
        | None => None
        end
    end.
Proof.
  unfold detect_language, g_lang_count, lookup_extension.
  rewrite length_app. cbn [List.length].
  destruct (Z.eqb_spec (Z.of_nat (List.length g + 1)) 0); [lia|].
  destruct (last_dot p None) as [ext|].
  - rewrite find_app_one.
    destruct (Z.eqb_spec (Z.of_nat (List.length g)) 0) as [E|E];
      [|reflexivity].
    destruct g; [reflexivity|simpl in E; lia].
  - destruct (Z.of_nat (List.length g) =? 0); reflexivity.
Qed.

(** X6.  A registration never removes or changes an earlier one and never
    takes the registry past 300 descriptors: the old registry is a prefix
    of the new one, which has the same length when the registry was full
    and one more otherwise; and a path that was detected keeps its
    descriptor, the earlier registration having precedence. *)
Theorem add_language_preserves (g : registry)
    (nm exts lc bs be : option string) :
  let g' := add_language g nm exts lc bs be in
  firstn (List.length g) g' = g
  /\ (g_lang_count g < 300 -> g_lang_count g' = g_lang_count g + 1)
  /\ (300 <= g_lang_count g -> g' = g)
  /\ (g_lang_count g <= 300 -> g_lang_count g' <= 300)
  /\ (forall p l, detect_language g p = Some l ->
        detect_language g' p = Some l).
Proof.
  cbv zeta. unfold add_language.
  destruct (Z.geb_spec (g_lang_count g) 300) as [Hfull|Hroom].
  - repeat apply conj; try (intros; (lia || reflexivity || assumption)).
    apply firstn_all.
  - repeat apply conj.
    + rewrite firstn_app, firstn_all, Nat.sub_diag. cbn [firstn].
      apply app_nil_r.
    + intros _. unfold g_lang_count. rewrite length_app. simpl. lia.
    + lia.
    + intros _. unfold g_lang_count in *. rewrite length_app. simpl. lia.
    + intros p l Hd. rewrite detect_language_snoc, Hd. reflexivity.
Qed.

Lemma substring_app_prefix (a n : nat) (s t : string) :
  (a + n <= String.length s)%nat ->
  substring a n (s ++ t)%string = substring a n s.
Proof.
  revert a n; induction s as [|c s IH]; intros a n H; simpl in H.
  - assert (a = O) by lia. assert (n = O) by lia. subst.
    destruct t; reflexivity.
  - destruct a as [|a]; destruct n as [|n]; cbn [append substring];
      try reflexivity.
    + rewrite IH by lia. reflexivity.
    + apply IH. lia.
    + apply IH. lia.
Qed.

Lemma char_at_app_r_shift (s t : string) (k : Z) :
  0 <= k ->
  char_at (s ++ t)%string (Z.of_nat (String.length s) + k) = char_at t k.
Proof.
  intros Hk. unfold char_at.
  replace (Z.to_nat (Z.of_nat (String.length s) + k))
    with (Z.to_nat k + String.length s)%nat by lia.
  now rewrite <- append_correct2.
Qed.

Lemma store_extension_app (s t : string) (start pos : Z)
    (exts : list string) :
  0 <= start -> pos < Z.of_nat (String.length s) ->
  store_extension (s ++ t)%string start pos exts
  = store_extension s start pos exts.
Proof.
  intros Hstart Hpos. unfold store_extension.
  destruct ((pos - start >? 0) && (pos - start <? 15)) eqn:Hlen;
    [|reflexivity].
  apply andb_true_iff in Hlen. destruct Hlen as [Hgt Hlt].
  apply Z.gtb_lt in Hgt.
  rewrite char_at_app_l by lia.
  rewrite substring_app_prefix; [reflexivity|].
  destruct (negb (Ascii.eqb (char_at s start) "."%char)); lia.
Qed.

(** From a position after which no [','] occurs, nothing more is stored. *)
Lemma parse_extensions_loop_tail (n : nat) (ext_str : string)
    (start pos : Z) (exts : list string) :
  (forall k, pos <= k -> char_at ext_str k <> ","%char) ->
  parse_extensions_loop n ext_str start pos exts = exts.
Proof.
  revert pos; induction n as [|n IH]; intros pos Hfree; [reflexivity|].
  rewrite parse_extensions_loop_S. cbv zeta.
  assert (Hc : char_at ext_str pos <> ","%char) by (apply Hfree; lia).
  apply Ascii.eqb_neq in Hc. rewrite Hc.
  destruct (Ascii.eqb (char_at ext_str pos) NUL); cbn [negb andb orb];
    [reflexivity|].
  destruct (Z.of_nat (List.length exts) <? 20); [|reflexivity].
  apply IH. intros k Hk. apply Hfree. lia.
Qed.

Lemma parse_extensions_loop_app (n m : nat) (s t : string) (start pos : Z)
    (exts : list string) :
  comma_free t = true ->
  0 <= start -> 0 <= pos ->
  pos + Z.of_nat n = Z.of_nat (String.length s) ->
  parse_extensions_loop (n + m) (s ++ t)%string start pos exts
  = parse_extensions_loop n s start pos exts.
Proof.
  intros Ht. revert start pos exts; induction n as [|n IH];
    intros start pos exts Hstart Hpos Hn.
  - cbn [Nat.add parse_extensions_loop].
    apply parse_extensions_loop_tail. intros k Hk.
    replace k with (Z.of_nat (String.length s) + (k - pos)) by lia.
    rewrite char_at_app_r_shift by lia.
    apply byte_free_char_at; [discriminate|exact Ht].
  - cbn [Nat.add]. rewrite !parse_extensions_loop_S. cbv zeta.
    rewrite char_at_app_l by lia.
    rewrite store_extension_app by lia.
    destruct (negb (Ascii.eqb (char_at s pos) NUL)
              && (Z.of_nat (List.length exts) <? 20)); [|reflexivity].
    destruct (negb (Ascii.eqb (char_at s pos) NUL)); [|reflexivity].
    apply IH; try lia.
    destruct (Ascii.eqb (char_at s pos) ","%char
              || Ascii.eqb (char_at s pos) NUL); lia.
Qed.

(** X7.  Only entries that are followed by a [','] are stored: text without
    [','] added at the end of an extension list changes nothing, so the
    entry after the last [','], and a list without any [','], register no
    extension. *)
Theorem parse_extensions_ignores_tail (s t : string) :
  comma_free t = true ->
  parse_extensions (Some (s ++ t)%string) = parse_extensions (Some s)
  /\ parse_extensions (Some t) = [].
Proof.
  intros Ht. split.
  - unfold parse_extensions. rewrite string_length_app.
    apply parse_extensions_loop_app; (exact Ht || lia).
  - now apply parse_extensions_no_comma.
Qed.

Lemma parse_extensions_ignores_tail_witness :
  comma_free "cc" = true
  /\ parse_extensions (Some "c,h,cc"%string)
     = parse_extensions (Some "c,h,"%string)
  /\ parse_extensions (Some "cc"%string) = [].
Proof.
  assert (H : comma_free "cc" = true) by reflexivity.
  split; [exact H|].
  exact (parse_extensions_ignores_tail "c,h," "cc" H).
Defined.

(** X8.  Registration followed by detection: after a registration, in a
    registry with room, whose extension list is the single entry [e]
    followed by a [','] ([e] of 1 to 14 bytes, without ['.'] or [',']), a
    path that ends in ['.'] and [e] in any letter case is detected as the
    new descriptor, unless an earlier registration has that extension. *)
Theorem register_then_detect (g : registry) (nm lc bs be : option string)
    (e pre suf : string) :
  g_lang_count g < 300 ->
  comma_free e = true -> dot_free e = true -> byte_free NUL e = true ->
  (1 <= String.length e <= 14)%nat ->
  dot_free suf = true -> str_equals_ci suf e = true ->
  lookup_extension g (String "."%char suf) = None ->
  detect_language
    (add_language g nm (Some (e ++ ",")%string) lc bs be)
    (pre ++ String "."%char suf)
  = Some (mkLang (str_copy nm 64) [String "."%char e] (str_copy lc 8)
                 (str_copy bs 8) (str_copy be 8)).
Proof.
  intros Hroom Hcomma Hdot Hnul Hlen Hsuf Hci Hnone.
  rewrite add_language_spec by exact Hroom.
  rewrite parse_extensions_single by assumption.
  assert (Hfirst : Ascii.eqb (char_at e 0) "."%char = false).
  { apply Ascii.eqb_neq. apply byte_free_char_at; [discriminate|exact Hdot]. }
  rewrite Hfirst, detect_language_snoc.
  rewrite detect_language_lookup by exact Hsuf.
  rewrite Hnone, last_dot_suffix by exact Hsuf.
  unfold has_extension. cbn [extensions existsb str_equals_ci].
  rewrite Ascii.eqb_refl, Hci. reflexivity.
Qed.

Lemma register_then_detect_witness :
  let g := add_language [] (Some "C"%string) (Some "c,h,"%string)
             (Some "//"%string) (Some "/*"%string) (Some "*/"%string) in
  g_lang_count g < 300
  /\ lookup_extension g ".RS" = None
  /\ detect_language
       (add_language g (Some "Rust"%string) (Some "rs,"%string)
          (Some "//"%string) (Some "/*"%string) (Some "*/"%string))
       "src/main.RS"
     = Some (mkLang "Rust" [".rs"%string] "//" "/*" "*/").
Proof.
  cbv zeta.
  assert (H1 : g_lang_count
                 (add_language [] (Some "C"%string) (Some "c,h,"%string)
                    (Some "//"%string) (Some "/*"%string)
                    (Some "*/"%string)) < 300) by (vm_compute; reflexivity).
  assert (H2 : lookup_extension
                 (add_language [] (Some "C"%string) (Some "c,h,"%string)
                    (Some "//"%string) (Some "/*"%string)
                    (Some "*/"%string)) ".RS" = None) by reflexivity.
  assert (H3 : (1 <= String.length "rs" <= 14)%nat) by (simpl; lia).
  split; [exact H1|]. split; [exact H2|].
  exact (register_then_detect _ (Some "Rust"%string) (Some "//"%string)
           (Some "/*"%string) (Some "*/"%string) "rs" "src/main" "RS"
           H1 eq_refl eq_refl eq_refl H3 eq_refl eq_refl H2).
Defined.

(** ** More on the classifier *)

Section ClassifierFacts.

Variable buffer : list ascii.
Variables lc bs be : option string.

Local Abbreviation buf_size := (Z.of_nat (List.length buffer)).
Local Abbreviation step := (scan_step buffer lc bs be).

Lemma scan_step_sum_bounded (s : scan_t) :
  sum_bounded s -> sum_bounded (step s).
Proof.
  destruct s as [i l c cm b ib ls ie]. unfold sum_bounded.
  unfold scan_step, close_line; cbv zeta;
    cbn [s_i s_lines s_code s_comments s_blanks s_in_block s_line_start
         s_is_empty].
  intros (Hlow & Hup).
  scan_cases;
    cbn [s_i s_lines s_code s_comments s_blanks s_in_block s_line_start
         s_is_empty];
    (split; [lia|]); bool_hyps;
    destruct Hup as [?|(? & ?)]; subst; try discriminate;
    solve [left; lia | right; split; (lia || reflexivity)].
Qed.

Lemma scan_step_all_blank (s : scan_t) :
  Forall (fun c => c = NL \/ blank_byte c = true) buffer ->
  0 <= s_i s < buf_size ->
  all_blank_so_far buffer s -> all_blank_so_far buffer (step s).
Proof.
  intros Hall Hi.
  assert (Hc : byte_at buffer (s_i s) = NL
               \/ blank_byte (byte_at buffer (s_i s)) = true).
  { rewrite Forall_forall in Hall. apply Hall. unfold byte_at.
    apply nth_In. lia. }
  pose proof (newlines_upto_succ buffer (s_i s) Hi) as Hsucc.
  revert Hc Hsucc. destruct s as [i l c cm b ib ls ie].
  unfold all_blank_so_far, blank_byte.
  cbn [s_i s_lines s_code s_comments s_blanks s_in_block s_line_start
       s_is_empty].
  intros Hc Hsucc (-> & -> & -> & -> & -> & -> & Hl).
  unfold scan_step, close_line; cbv zeta;
    cbn [s_i s_lines s_code s_comments s_blanks s_in_block s_line_start
         s_is_empty].
  destruct (Ascii.eqb (byte_at buffer i) NL) eqn:Hnl.
  - cbn [s_i s_lines s_code s_comments s_blanks s_in_block s_line_start
         s_is_empty]. repeat split; lia.
  - destruct Hc as [Hc|Hc];
      [apply Ascii.eqb_neq in Hnl; contradiction|].
    rewrite Hc. cbn [andb].
    cbn [s_i s_lines s_code s_comments s_blanks s_in_block s_line_start
         s_is_empty]. repeat split; lia.
Qed.

End ClassifierFacts.

(** X9.  The three classes cover every line and a line is counted at most
    twice: [lines <= code + comments + blanks <= 2 * lines] for every
    buffer and descriptor; and the classes partition the lines, [lines =
    code + comments + blanks], when there is no descriptor or its
    line-comment marker is empty. *)
Theorem classes_cover_lines (buffer : list ascii)
    (lang : option dynamic_lang_t) :
  let r := count_file_buffer buffer lang in
  r_lines r <= r_code r + r_comments r + r_blanks r <= 2 * r_lines r
  /\ ((lang = None \/ exists l, lang = Some l /\ line_comment l = EmptyString)
      -> r_lines r = r_code r + r_comments r + r_blanks r).
Proof.
  cbv zeta. split.
  - unfold count_file_buffer.
    destruct (Z.eqb_spec (Z.of_nat (List.length buffer)) 0) as [E|E];
      cbn [r_lines r_code r_comments r_blanks]; [lia|].
    unfold scan_all.
    set (lc := marker lang line_comment).
    set (bs := marker lang block_start).
    set (be := marker lang block_end).
    destruct (scan_loop_invariant buffer lc bs be sum_bounded
                (fun s _ => scan_step_sum_bounded buffer lc bs be s)
                (Z.to_nat (Z.of_nat (List.length buffer))) scan_init)
      as [Hb _]; [simpl; lia|unfold sum_bounded; simpl; lia|].
    revert Hb. generalize (scan_loop buffer lc bs be
      (Z.to_nat (Z.of_nat (List.length buffer))) scan_init).
    intros [i l c cm b ib ls ie]. unfold sum_bounded, close_line.
    cbn [s_i s_lines s_code s_comments s_blanks s_in_block s_line_start
         s_is_empty].
    intros (Hlow & Hup).
    scan_cases; cbn [s_lines s_code s_comments s_blanks]; lia.
  - intros H. apply count_file_buffer_sum_without_line_comment.
    destruct H as [->|(l & -> & Hl)]; [reflexivity|].
    unfold marker. rewrite Hl. reflexivity.
Qed.

(** X10.  A buffer made of spaces, tabs and newlines only holds blank lines
    only, whatever the descriptor: [code = 0], [comments = 0] and
    [blanks = lines], the number of its newlines plus one. *)
Theorem blank_buffer_all_blank (buffer : list ascii)
    (lang : option dynamic_lang_t) :
  Forall (fun c => c = NL \/ blank_byte c = true) buffer ->
  count_file_buffer buffer lang
  = mkResult (count_newlines buffer + 1) 0 0 (count_newlines buffer + 1)
             (Z.of_nat (List.length buffer)).
Proof.
  intros Hall. unfold count_file_buffer.
  destruct (Z.eqb_spec (Z.of_nat (List.length buffer)) 0) as [E|E].
  - destruct buffer; [reflexivity|simpl in E; lia].
  - unfold scan_all.
    set (lc := marker lang line_comment).
    set (bs := marker lang block_start).
    set (be := marker lang block_end).
    destruct (scan_loop_invariant buffer lc bs be (all_blank_so_far buffer)
                (fun s Hi => scan_step_all_blank buffer lc bs be s Hall Hi)
                (Z.to_nat (Z.of_nat (List.length buffer))) scan_init)
      as [Hb _]; [simpl; lia|unfold all_blank_so_far; simpl; lia|].
    pose proof (scan_final_index buffer lc bs be) as Hend.
    revert Hb Hend. generalize (scan_loop buffer lc bs be
      (Z.to_nat (Z.of_nat (List.length buffer))) scan_init).
    intros [i l c cm b ib ls ie]. unfold all_blank_so_far, close_line.
    cbn [s_i s_lines s_code s_comments s_blanks s_in_block s_line_start
         s_is_empty].
    intros (-> & -> & -> & -> & -> & -> & Hl) ->.
    cbn [s_lines s_code s_comments s_blanks].
    rewrite newlines_upto_all in Hl. f_equal; lia.
Qed.

Lemma blank_buffer_all_blank_witness :
  let buffer := [SPACE; TAB; NL; NL; SPACE] in
  Forall (fun c => c = NL \/ blank_byte c = true) buffer
  /\ count_file_buffer buffer (Some (lang_markers "//" "/*" "*/"))
     = mkResult 3 0 0 3 5.
Proof.
  cbv zeta.
  assert (H : Forall (fun c => c = NL \/ blank_byte c = true)
                [SPACE; TAB; NL; NL; SPACE]).
  { repeat constructor; (now left) || (now right). }
  split; [exact H|].
  exact (blank_buffer_all_blank [SPACE; TAB; NL; NL; SPACE]
           (Some (lang_markers "//" "/*" "*/")) H).
Defined.

Lemma split_lines_nonempty (buf : list ascii) : split_lines buf <> [].
Proof.
  destruct buf as [|c rest]; cbn [split_lines]; [discriminate|].
  destruct (Ascii.eqb c NL); [discriminate|].
  destruct (split_lines rest); discriminate.
Qed.

Lemma split_lines_newline (rest : list ascii) :
  split_lines (NL :: rest) = [] :: split_lines rest.
Proof. reflexivity. Qed.

Lemma split_lines_other (c : ascii) (rest : list ascii) :
  c <> NL ->
  exists seg segs, split_lines rest = seg :: segs
                   /\ split_lines (c :: rest) = (c :: seg) :: segs.
Proof.
  intros Hc. cbn [split_lines]. apply Ascii.eqb_neq in Hc. rewrite Hc.
  destruct (split_lines rest) as [|seg segs] eqn:E;
    [now apply split_lines_nonempty in E|].
  now exists seg, segs.
Qed.

Lemma scan_loop_done (buffer : list ascii) (lc bs be : option string)
    (fuel : nat) (s : scan_t) :
  Z.of_nat (List.length buffer) <= s_i s ->
  scan_loop buffer lc bs be fuel s = s.
Proof.
  intros H. destruct fuel as [|fuel]; [reflexivity|]. simpl.
  destruct (Z.ltb_spec (s_i s) (Z.of_nat (List.length buffer)));
    [lia|reflexivity].
Qed.

Lemma scan_loop_S (buffer : list ascii) (lc bs be : option string)
    (fuel : nat) (s : scan_t) :
  s_i s < Z.of_nat (List.length buffer) ->
  scan_loop buffer lc bs be (S fuel) s
  = scan_loop buffer lc bs be fuel (scan_step buffer lc bs be s).
Proof.
  intros H. simpl.
  destruct (Z.ltb_spec (s_i s) (Z.of_nat (List.length buffer)));
    [reflexivity|lia].
Qed.

Lemma count_blank_cons (seg : list ascii) (segs : list (list ascii)) :
  count_blank (seg :: segs)
  = (if blank_line seg then 1 else 0) + count_blank segs.
Proof.
  unfold count_blank. cbn [filter].
  destruct (blank_line seg); cbn [List.length]; lia.
Qed.

Lemma count_nonblank_cons (seg : list ascii) (segs : list (list ascii)) :
  count_nonblank (seg :: segs)
  = (if blank_line seg then 0 else 1) + count_nonblank segs.
Proof.
  unfold count_nonblank. cbn [filter].
  destruct (blank_line seg); cbn [negb List.length]; lia.
Qed.

(** Without line-comment and block-start markers, scanning the rest of the
    buffer from a state outside a block adds to the counters what the
    remaining lines are. *)
Lemma scan_plain_rest (be : option string) (rest pre : list ascii) :
  forall (fuel : nat) (s : scan_t),
    s_i s = Z.of_nat (List.length pre) ->
    s_in_block s = false ->
    (List.length rest <= fuel)%nat ->
    let f := close_line (scan_loop (pre ++ rest) None None be fuel s) in
    s_lines f = s_lines s + Z.of_nat (List.length (split_lines rest)) - 1
    /\ s_comments f = s_comments s
    /\ s_blanks f = s_blanks s + blank_from (s_is_empty s) (split_lines rest)
    /\ s_code f = s_code s + nonblank_from (s_is_empty s) (split_lines rest).
Proof.
  revert pre; induction rest as [|c rest IH]; intros pre fuel s Hi Hb Hfuel;
    cbv zeta.
  - rewrite scan_loop_done by (rewrite app_nil_r; lia).
    destruct s as [i l cd cm b ib ls ie]. cbn [s_in_block] in Hb. subst ib.
    unfold close_line, blank_from, nonblank_from, count_blank, count_nonblank.
    cbn [s_i s_lines s_code s_comments s_blanks s_in_block s_line_start
         s_is_empty split_lines blank_line forallb filter List.length].
    destruct ie; cbn [andb s_lines s_code s_comments s_blanks];
      repeat split; lia.
  - destruct fuel as [|fuel]; [simpl in Hfuel; lia|].
    rewrite scan_loop_S by (rewrite length_app; simpl; lia).
    assert (Hc : byte_at (pre ++ c :: rest) (s_i s) = c).
    { unfold byte_at. rewrite Hi, Nat2Z.id. apply nth_middle. }
    replace (pre ++ c :: rest) with ((pre ++ [c]) ++ rest) in *
      by (rewrite <- app_assoc; reflexivity).
    set (s' := scan_step ((pre ++ [c]) ++ rest) None None be s).
    assert (Hs' : s_i s' = Z.of_nat (List.length (pre ++ [c]))
                  /\ s_in_block s' = false
                  /\ s_comments s' = s_comments s
                  /\ ((c = NL
                       /\ s_lines s' = s_lines s + 1
                       /\ s_is_empty s' = true
                       /\ s_blanks s'
                          = s_blanks s + (if s_is_empty s then 1 else 0)
                       /\ s_code s'
                          = s_code s + (if s_is_empty s then 0 else 1))
                      \/ (c <> NL
                          /\ s_lines s' = s_lines s
                          /\ s_is_empty s'
                             = s_is_empty s && blank_byte c
                          /\ s_blanks s' = s_blanks s
                          /\ s_code s' = s_code s))).
    { subst s'. revert Hc. destruct s as [i l cd cm b ib ls ie].
      cbn [s_i s_in_block] in Hi, Hb. subst ib.
      unfold scan_step, close_line, blank_byte; cbv zeta;
        cbn [s_i s_lines s_code s_comments s_blanks s_in_block s_line_start
             s_is_empty bytes_match andb negb].
      intros ->. rewrite length_app. cbn [List.length].
      destruct (Ascii.eqb_spec c NL) as [E|E].
      - destruct ie;
          cbn [s_i s_lines s_code s_comments s_blanks s_in_block
               s_line_start s_is_empty];
          (repeat split; try lia); left; repeat split; (assumption || lia).
      - destruct ls, ie, (Ascii.eqb c SPACE), (Ascii.eqb c TAB);
          cbn [andb orb negb s_i s_lines s_code s_comments s_blanks
               s_in_block s_line_start s_is_empty];
          (repeat split; try lia); right; repeat split;
          (assumption || lia). }
    destruct Hs' as (Hi' & Hb' & Hcm' & Hcase).
    destruct (IH (pre ++ [c]) fuel s' Hi' Hb') as (Hl & Hcm & Hbl & Hcd);
      [simpl in Hfuel; lia|].
    cbv zeta in Hl, Hcm, Hbl, Hcd. rewrite Hl, Hcm, Hbl, Hcd, Hcm'.
    destruct Hcase as [(-> & Hl' & He' & Hbl' & Hcd')
                      |(Hnl & Hl' & He' & Hbl' & Hcd')];
      rewrite Hl', He', Hbl', Hcd'.
    + rewrite split_lines_newline.
      destruct (split_lines rest) as [|seg segs] eqn:E;
        [now apply split_lines_nonempty in E|].
      unfold blank_from, nonblank_from.
      rewrite count_blank_cons, count_nonblank_cons.
      cbn [blank_line forallb andb List.length].
      rewrite andb_true_r.
      destruct (s_is_empty s), (blank_line seg); repeat split; lia.
    + destruct (split_lines_other c rest Hnl) as (seg & segs & E & ->).
      rewrite E. unfold blank_from, nonblank_from.
      cbn [blank_line forallb List.length].
      rewrite andb_assoc. repeat split; lia.
Qed.

Lemma blank_from_true (segs : list (list ascii)) :
  blank_from true segs = count_blank segs
  /\ nonblank_from true segs = count_nonblank segs.
Proof.
  destruct segs as [|seg segs]; [split; reflexivity|].
  unfold blank_from, nonblank_from.
  rewrite count_blank_cons, count_nonblank_cons. split; reflexivity.
Qed.

(** X11.  Without a descriptor, or with one whose line-comment and
    block-start markers are empty, the classifier counts the physical lines
    of the buffer (the segments between newlines, the one after the last
    newline included): a line of spaces and tabs only is blank, every other
    line is code, and there are no comment lines. *)
Theorem plain_classifier (buffer : list ascii)
    (lang : option dynamic_lang_t) :
  no_markers lang ->
  count_file_buffer buffer lang
  = mkResult (Z.of_nat (List.length (split_lines buffer)))
             (count_nonblank (split_lines buffer))
             0
             (count_blank (split_lines buffer))
             (Z.of_nat (List.length buffer)).
Proof.
  intros [Hlc Hbs]. unfold count_file_buffer.
  destruct (Z.eqb_spec (Z.of_nat (List.length buffer)) 0) as [E|E].
  - destruct buffer; [reflexivity|simpl in E; lia].
  - rewrite Hlc, Hbs. unfold scan_all.
    destruct (scan_plain_rest (marker lang block_end) buffer []
                (Z.to_nat (Z.of_nat (List.length buffer))) scan_init)
      as (Hl & Hcm & Hbl & Hcd); [reflexivity|reflexivity|lia|].
    cbv zeta in Hl, Hcm, Hbl, Hcd. cbn [app] in Hl, Hcm, Hbl, Hcd.
    rewrite Hl, Hcm, Hbl, Hcd.
    cbn [scan_init s_lines s_code s_comments s_blanks s_is_empty].
    destruct (blank_from_true (split_lines buffer)) as [-> ->].
    f_equal; lia.
Qed.

Lemma plain_classifier_witness :
  let buffer := bytes "int x;" ++ [NL] ++ [SPACE; TAB] ++ [NL]
                ++ bytes "// y" in
  no_markers None
  /\ count_file_buffer buffer None = mkResult 3 2 0 1 14.
Proof.
  cbv zeta.
  assert (H : no_markers None) by (split; reflexivity).
  split; [exact H|].
  exact (plain_classifier
           (bytes "int x;" ++ [NL] ++ [SPACE; TAB] ++ [NL] ++ bytes "// y")
           None H).
Defined.

(** ** Marker matching *)

Lemma list_ascii_length (s : string) :
  List.length (list_ascii_of_string s) = String.length s.
Proof. induction s as [|c s IH]; simpl; [reflexivity|now rewrite IH]. Qed.

Lemma char_at_nth (s : string) (k : nat) :
  char_at s (Z.of_nat k) = nth k (list_ascii_of_string s) NUL.
Proof.
  unfold char_at. rewrite Nat2Z.id.
  revert k; induction s as [|c s IH]; intros [|k]; simpl; try reflexivity.
  apply IH.
Qed.

(** A marker matches at [pos] exactly when it is not empty and the buffer
    holds its bytes from [pos] on. *)
Lemma bytes_match_firstn (buf : list ascii) (pos : Z) (s : string) :
  0 <= pos ->
  bytes_match buf pos (Some s) (str_len (Some s))
              (Z.of_nat (List.length buf)) = true
  <-> s <> EmptyString
      /\ firstn (String.length s) (skipn (Z.to_nat pos) buf)
         = list_ascii_of_string s.
Proof.
  intros Hpos. split.
  - intros H. destruct (bytes_match_spec _ _ _ _ H)
      as (s' & E & Hlen & Hle & Hb). injection E as <-.
    cbn [str_len] in Hlen, Hle, Hb.
    split; [intros ->; simpl in Hlen; lia|].
    apply (nth_ext _ _ NUL NUL).
    + rewrite length_firstn, length_skipn, list_ascii_length. lia.
    + intros k Hk. rewrite length_firstn, length_skipn in Hk.
      rewrite nth_firstn.
      destruct (Nat.ltb_spec k (String.length s)); [|lia].
      rewrite nth_skipn, <- char_at_nth, <- Hb by lia.
      unfold byte_at. f_equal. lia.
  - intros [Hne Heq]. unfold bytes_match. cbn [str_len].
    assert (Hlen : (String.length s
                    <= List.length buf - Z.to_nat pos)%nat).
    { rewrite <- list_ascii_length, <- Heq, length_firstn, length_skipn.
      lia. }
    assert (Hpos' : (0 < String.length s)%nat)
      by (destruct s; [contradiction|simpl; lia]).
    destruct (Z.eqb_spec (Z.of_nat (String.length s)) 0); [lia|].
    destruct (Z.gtb_spec (pos + Z.of_nat (String.length s))
                (Z.of_nat (List.length buf))); [lia|].
    apply forallb_forall. intros k Hk. apply in_seq in Hk.
    apply Ascii.eqb_eq. rewrite char_at_nth, <- Heq, nth_firstn.
    destruct (Nat.ltb_spec k (String.length s)); [|lia].
    rewrite nth_skipn. unfold byte_at. f_equal. lia.
Qed.

(** X12.  [bytes_match] is an exact comparison of bytes: a marker matches
    at [pos] exactly when it is not empty and the buffer holds, from [pos]
    on, the bytes of the marker, all of them inside the buffer.  A [NULL]
    or empty marker never matches. *)
Theorem bytes_match_exact (buf : list ascii) (pos : Z) (s : string) :
  0 <= pos ->
  (bytes_match buf pos (Some s) (str_len (Some s))
               (Z.of_nat (List.length buf)) = true
   <-> s <> EmptyString
       /\ firstn (String.length s) (skipn (Z.to_nat pos) buf)
          = list_ascii_of_string s)
  /\ bytes_match buf pos None (str_len None) (Z.of_nat (List.length buf))
     = false
  /\ bytes_match buf pos (Some EmptyString) (str_len (Some EmptyString))
                 (Z.of_nat (List.length buf)) = false.
Proof.
  intros Hpos. split; [now apply bytes_match_firstn|split; reflexivity].
Qed.

Lemma bytes_match_exact_witness :
  0 <= 2
  /\ bytes_match (bytes "  // x") 2 (Some "//"%string) 2 6 = true.
Proof.
  assert (H : 0 <= 2) by lia.
  split; [exact H|].
  apply (proj1 (bytes_match_exact (bytes "  // x") 2 "//" H)).
  split; [discriminate|reflexivity].
Defined.

(** ** More on batch analysis *)

(** X13.  A batch gives one name and one result per file, in input order,
    and the [i]-th of them are those of the single-file functions on the
    [i]-th file alone: no file influences another.  Every name fits its
    64-byte slot. *)
Theorem analyze_batch_pointwise (g : registry)
    (batch : list (string * list ascii)) :
  List.length (fst (analyze_batch g batch)) = List.length batch
  /\ List.length (snd (analyze_batch g batch)) = List.length batch
  /\ (forall (i : nat) (p : string) (buf : list ascii),
        nth_error batch i = Some (p, buf) ->
        nth_error (fst (analyze_batch g batch)) i
        = Some (get_language_name g p 64)
        /\ nth_error (snd (analyze_batch g batch)) i
           = Some (analyze_file g p buf))
  /\ Forall (fun n => (String.length n <= 63)%nat)
            (fst (analyze_batch g batch)).
Proof.
  rewrite analyze_batch_map. cbn [fst snd]. repeat apply conj.
  - apply length_map.
  - apply length_map.
  - intros i p buf H. split.
    + apply (map_nth_error (fun f => get_language_name g (fst f) 64)) in H.
      exact H.
    + apply (map_nth_error (fun f => analyze_file g (fst f) (snd f))) in H.
      exact H.
  - apply Forall_forall. intros n Hn. apply in_map_iff in Hn.
    destruct Hn as (f & <- & _). unfold get_language_name.
    destruct (detect_language g (fst f)) as [l|].
    + pose proof (str_copy_length (Some (name l)) 64). lia.
    + pose proof (str_copy_length (Some "Unknown"%string) 64). lia.
Qed.

(** ** More on aggregation *)

Lemma int_add_exact (a b : Z) :
  - 2 ^ 31 <= a + b < 2 ^ 31 -> int_add a b = a + b.
Proof.
  intros H. unfold int_add, int_wrap.
  rewrite Z.mod_small by lia. lia.
Qed.

Lemma add_stats_length (table : list (string * lang_stats_t)) (idx : Z)
    (r : result_t) :
  List.length (add_stats table idx r) = List.length table.
Proof.
  rewrite <- (length_map fst), add_stats_names. apply length_map.
Qed.

Lemma find_lang_idx_range (names : list string) (n : string) (j : Z) :
  0 <= j ->
  find_lang_idx names n j = -1
  \/ j <= find_lang_idx names n j < j + Z.of_nat (List.length names).
Proof.
  revert j; induction names as [|m names IH]; intros j Hj; [now left|].
  cbn [find_lang_idx List.length]. destruct (str_equals_ci m n).
  - right. lia.
  - destruct (IH (j + 1)) as [H|H]; [lia|now left|right; lia].
Qed.

Lemma find_lang_idx_none (names : list string) (n : string) (j : Z) :
  0 <= j -> find_lang_idx names n j = -1 ->
  Forall (fun m => str_equals_ci m n = false) names.
Proof.
  revert j; induction names as [|m names IH]; intros j Hj H; [constructor|].
  cbn [find_lang_idx] in H. destruct (str_equals_ci m n) eqn:E; [lia|].
  constructor; [exact E|]. apply (IH (j + 1)); [lia|exact H].
Qed.

Lemma find_lang_idx_found (names : list string) (n : string) (j : Z) :
  0 <= j -> find_lang_idx names n j <> -1 ->
  exists m, In m names /\ str_equals_ci m n = true.
Proof.
  revert j; induction names as [|m names IH]; intros j Hj H;
    [now contradiction H|].
  cbn [find_lang_idx] in H. destruct (str_equals_ci m n) eqn:E.
  - exists m. split; [now left|exact E].
  - destruct (IH (j + 1)) as (m' & Hin & Hm'); [lia|exact H|].
    exists m'. split; [now right|exact Hm'].
Qed.

Lemma known_total_cons (val : result_t -> Z) (f : string * result_t)
    (inputs : list (string * result_t)) :
  known_total val (f :: inputs)
  = if is_unknown f then known_total val inputs
    else val (snd f) + known_total val inputs.
Proof. reflexivity. Qed.

Lemma known_total_nil (val : result_t -> Z) : known_total val [] = 0.
Proof. reflexivity. Qed.

Lemma aggregate_step_length (table : list (string * lang_stats_t))
    (file : string * result_t) :
  (List.length table <= List.length (aggregate_step table file)
   <= List.length table + (if is_unknown file then 0 else 1))%nat
  /\ ((List.length table <= 100)%nat ->
      (List.length (aggregate_step table file) <= 100)%nat).
Proof.
  destruct file as [n r]. unfold aggregate_step, is_unknown. cbn [fst].
  destruct (str_equals_ci n "Unknown"); [lia|].
  destruct (find_lang_idx (map fst table) n 0 =? -1).
  - destruct (Z.ltb_spec (Z.of_nat (List.length table)) 100).
    + rewrite add_stats_length, length_app. simpl. lia.
    + lia.
  - rewrite add_stats_length. lia.
Qed.

Lemma aggregate_fold_length (inputs : list (string * result_t))
    (table : list (string * lang_stats_t)) :
  (List.length table
   <= List.length (fold_left aggregate_step inputs table))%nat
  /\ Z.of_nat (List.length (fold_left aggregate_step inputs table))
     <= Z.of_nat (List.length table) + known_count inputs
  /\ ((List.length table <= 100)%nat ->
      (List.length (fold_left aggregate_step inputs table) <= 100)%nat).
Proof.
  revert table; induction inputs as [|f inputs IH]; intros table.
  - cbn [fold_left]. unfold known_count. rewrite known_total_nil. lia.
  - cbn [fold_left]. destruct (IH (aggregate_step table f)) as (H1 & H2 & H3).
    destruct (aggregate_step_length table f) as (H4 & H5).
    unfold known_count in *. rewrite known_total_cons.
    destruct (is_unknown f); repeat split; lia.
Qed.

Lemma known_total_nonneg (val : result_t -> Z)
    (inputs : list (string * result_t)) :
  Forall (fun f => 0 <= val (snd f)) inputs -> 0 <= known_total val inputs.
Proof.
  induction 1 as [|f inputs Hf _ IH];
    rewrite ?known_total_nil, ?known_total_cons; [lia|].
  destruct (is_unknown f); lia.
Qed.

Lemma known_count_le (inputs : list (string * result_t)) :
  0 <= known_count inputs <= Z.of_nat (List.length inputs).
Proof.
  unfold known_count.
  induction inputs as [|f inputs IH]; cbn [List.length];
    rewrite ?known_total_nil, ?known_total_cons; [lia|].
  destruct (is_unknown f); lia.
Qed.

(** X14.  The aggregates never exceed the 100 slots of the table, nor the
    number of input files that are not ["Unknown"]. *)
Theorem aggregate_results_capacity (inputs : list (string * result_t)) :
  (List.length (aggregate_results inputs) <= 100)%nat
  /\ Z.of_nat (List.length (aggregate_results inputs))
     <= known_count inputs
  /\ known_count inputs <= Z.of_nat (List.length inputs).
Proof.
  unfold aggregate_results. rewrite length_map.
  destruct (aggregate_fold_length inputs []) as (_ & H2 & H3).
  repeat apply conj.
  - apply H3. simpl. lia.
  - simpl in H2. lia.
  - apply known_count_le.
Qed.

Section Conservation.

(** A field of the aggregates, [proj], and the quantity [val] that each
    file adds to it. *)
Variable proj : lang_stats_t -> Z.
Variable val : result_t -> Z.

Hypothesis proj_add : forall (st : lang_stats_t) (r : result_t),
  proj (mkStats (int_add (files st) 1)
                (int_add (lines st) (r_lines r))
                (int_add (code st) (r_code r))
                (int_add (comments st) (r_comments r))
                (int_add (size st) (r_size r)))
  = int_add (proj st) (val r).

Hypothesis proj_zero : proj (mkStats 0 0 0 0 0) = 0.

Local Abbreviation total := (table_total proj).
Local Abbreviation nonneg :=
  (Forall (fun e : string * lang_stats_t => 0 <= proj (snd e))).

Lemma table_total_cons (e : string * lang_stats_t)
    (table : list (string * lang_stats_t)) :
  total (e :: table) = proj (snd e) + total table.
Proof. reflexivity. Qed.

Lemma table_total_nil : total [] = 0.
Proof. reflexivity. Qed.

Lemma table_total_nonneg (table : list (string * lang_stats_t)) :
  nonneg table -> 0 <= total table.
Proof.
  induction 1 as [|e table He _ IH];
    rewrite ?table_total_nil, ?table_total_cons; lia.
Qed.

Lemma table_total_app (t1 t2 : list (string * lang_stats_t)) :
  total (t1 ++ t2) = total t1 + total t2.
Proof.
  induction t1 as [|e t1 IH]; cbn [app];
    rewrite ?table_total_nil, ?table_total_cons; lia.
Qed.

Lemma add_stats_total (table : list (string * lang_stats_t)) (idx : Z)
    (r : result_t) :
  0 <= idx < Z.of_nat (List.length table) ->
  nonneg table -> 0 <= val r -> total table + val r < 2 ^ 31 ->
  total (add_stats table idx r) = total table + val r
  /\ nonneg (add_stats table idx r).
Proof.
  revert idx; induction table as [|[n st] table IH];
    intros idx Hidx Hnn Hval Hsum; [simpl in Hidx; lia|].
  inversion Hnn as [|? ? Hst Hrest]; subst. cbn [snd] in Hst.
  pose proof (table_total_nonneg table Hrest) as Htot.
  rewrite table_total_cons in *. cbn [snd] in *.
  cbn [add_stats]. destruct (Z.eqb_spec idx 0) as [->|Hne].
  - rewrite table_total_cons. cbn [snd].
    rewrite proj_add, int_add_exact by lia.
    split; [lia|]. constructor; [|exact Hrest].
    cbn [snd]. rewrite proj_add, int_add_exact by lia. lia.
  - destruct (IH (idx - 1)) as [Ht Hn];
      [cbn [List.length] in Hidx; lia|exact Hrest|exact Hval|lia|].
    rewrite table_total_cons. cbn [snd].
    split; [lia|]. constructor; [exact Hst|exact Hn].
Qed.

Lemma aggregate_step_total (table : list (string * lang_stats_t))
    (file : string * result_t) :
  is_unknown file = false ->
  (List.length table < 100)%nat ->
  nonneg table -> 0 <= val (snd file) ->
  total table + val (snd file) < 2 ^ 31 ->
  total (aggregate_step table file) = total table + val (snd file)
  /\ nonneg (aggregate_step table file).
Proof.
  destruct file as [n r]. unfold is_unknown, aggregate_step. cbn [fst snd].
  intros -> Hroom Hnn Hval Hsum.
  destruct (Z.eqb_spec (find_lang_idx (map fst table) n 0) (-1)) as [E|E].
  - destruct (Z.ltb_spec (Z.of_nat (List.length table)) 100); [|lia].
    set (fresh := (str_copy (Some n) 64, mkStats 0 0 0 0 0)).
    assert (Htot : total (table ++ [fresh]) = total table).
    { rewrite table_total_app, table_total_cons, table_total_nil.
      cbn [fresh snd]. rewrite proj_zero. lia. }
    rewrite <- Htot. apply add_stats_total.
    + rewrite length_app. simpl. lia.
    + apply Forall_app. split; [exact Hnn|].
      constructor; [|constructor]. cbn [fresh snd]. rewrite proj_zero. lia.
    + exact Hval.
    + lia.
  - apply add_stats_total; try assumption.
    destruct (find_lang_idx_range (map fst table) n 0) as [H|H];
      [lia|contradiction|].
    rewrite length_map in H. lia.
Qed.

Lemma aggregate_fold_total (inputs : list (string * result_t))
    (table : list (string * lang_stats_t)) :
  Forall (fun f => 0 <= val (snd f)) inputs ->
  nonneg table ->
  (List.length (fold_left aggregate_step inputs table) < 100)%nat ->
  total table + known_total val inputs < 2 ^ 31 ->
  total (fold_left aggregate_step inputs table)
  = total table + known_total val inputs.
Proof.
  intros Hvals. revert table.
  induction Hvals as [|f inputs Hf Hvals IH]; intros table Hnn Hlen Hsum.
  - cbn [fold_left]. rewrite known_total_nil. lia.
  - cbn [fold_left] in *. rewrite known_total_cons in *.
    pose proof (known_total_nonneg val inputs Hvals) as Hrest.
    destruct (aggregate_fold_length inputs (aggregate_step table f))
      as (Hmono & _).
    destruct (aggregate_step_length table f) as ((Hstep & _) & _).
    destruct (is_unknown f) eqn:Hu.
    + rewrite aggregate_step_unknown in * by exact Hu.
      now apply IH.
    + destruct (aggregate_step_total table f Hu) as [Ht Hn];
        [lia|exact Hnn|exact Hf|lia|].
      rewrite IH; [lia|exact Hn|exact Hlen|lia].
Qed.

Lemma table_total_rename (f : string -> string)
    (table : list (string * lang_stats_t)) :
  total (map (fun e => (f (fst e), snd e)) table) = total table.
Proof.
  induction table as [|e table IH]; cbn [map]; [reflexivity|].
  rewrite !table_total_cons, IH. reflexivity.
Qed.

Lemma aggregate_results_total (inputs : list (string * result_t)) :
  Forall (fun f => 0 <= val (snd f)) inputs ->
  (List.length (aggregate_results inputs) < 100)%nat ->
  known_total val inputs < 2 ^ 31 ->
  total (aggregate_results inputs) = known_total val inputs.
Proof.
  intros Hvals Hlen Hsum. unfold aggregate_results in *.
  rewrite length_map in Hlen.
  rewrite (table_total_rename (fun n => str_copy (Some n) 64)).
  rewrite aggregate_fold_total; try assumption;
    rewrite ?table_total_nil; try lia.
  constructor.
Qed.

End Conservation.

(** X15.  Aggregation loses nothing but the ["Unknown"] files: when fewer
    than 100 aggregates come out (so that no language was dropped for want
    of a slot), the counts are not negative and the totals fit an [int],
    the [files] of the aggregates add up to the number of files that are
    not ["Unknown"], and their [lines], [code], [comments] and [size] to the
    sums of these fields over those files. *)
Theorem aggregate_results_conserves (inputs : list (string * result_t)) :
  Forall (fun f => result_nonneg (snd f)) inputs ->
  (List.length (aggregate_results inputs) < 100)%nat ->
  known_count inputs < 2 ^ 31 ->
  known_total r_lines inputs < 2 ^ 31 ->
  known_total r_code inputs < 2 ^ 31 ->
  known_total r_comments inputs < 2 ^ 31 ->
  known_total r_size inputs < 2 ^ 31 ->
  let agg := aggregate_results inputs in
  table_total files agg = known_count inputs
  /\ table_total lines agg = known_total r_lines inputs
  /\ table_total code agg = known_total r_code inputs
  /\ table_total comments agg = known_total r_comments inputs
  /\ table_total size agg = known_total r_size inputs.
Proof.
  intros Hnn Hlen Hf Hl Hc Hcm Hs. cbv zeta.
  assert (Hall : forall val : result_t -> Z,
            (forall r, result_nonneg r -> 0 <= val r) ->
            Forall (fun f => 0 <= val (snd f)) inputs).
  { intros val Hval. eapply Forall_impl; [|exact Hnn].
    intros f Hr. now apply Hval. }
  repeat apply conj.
  - apply (aggregate_results_total files (fun _ => 1)); try assumption;
      try reflexivity. apply (Hall (fun _ => 1)). intros; lia.
  - apply (aggregate_results_total lines r_lines); try assumption;
      try reflexivity. apply Hall. now intros r (H & _).
  - apply (aggregate_results_total code r_code); try assumption;
      try reflexivity. apply Hall. now intros r (_ & H & _).
  - apply (aggregate_results_total comments r_comments); try assumption;
      try reflexivity. apply Hall. now intros r (_ & _ & H & _).
  - apply (aggregate_results_total size r_size); try assumption;
      try reflexivity. apply Hall. now intros r (_ & _ & _ & H).
Qed.

Lemma aggregate_results_conserves_witness :
  let inputs := [("C"%string, mkResult 10 7 2 1 120);
                 ("Unknown"%string, mkResult 5 5 0 0 40);
                 ("c"%string, mkResult 3 3 0 0 30);
                 ("Rust"%string, mkResult 8 6 1 1 90)] in
  aggregate_results inputs
  = [("C"%string, mkStats 2 13 10 2 150);
     ("Rust"%string, mkStats 1 8 6 1 90)]
  /\ (List.length (aggregate_results inputs) < 100)%nat
  /\ table_total files (aggregate_results inputs) = 3
  /\ table_total size (aggregate_results inputs) = 240.
Proof.
  cbv zeta. split; [reflexivity|]. split; [vm_compute; lia|].
  assert (H : Forall (fun f : string * result_t => result_nonneg (snd f))
                [("C"%string, mkResult 10 7 2 1 120);
                 ("Unknown"%string, mkResult 5 5 0 0 40);
                 ("c"%string, mkResult 3 3 0 0 30);
                 ("Rust"%string, mkResult 8 6 1 1 90)]).
  { repeat constructor; simpl; lia. }
  destruct (aggregate_results_conserves _ H) as (Hf & _ & _ & _ & Hs);
    [vm_compute; lia|reflexivity..|].
  split; [exact Hf|exact Hs].
Defined.

Lemma distinct_ci_snoc (names : list string) (n : string) :
  distinct_ci names ->
  Forall (fun m => str_equals_ci m n = false) names ->
  distinct_ci (names ++ [n]).
Proof.
  unfold distinct_ci. induction 1 as [|a l Ha Hl IH]; intros Hn.
  - cbn [app]. constructor; constructor.
  - inversion Hn as [|? ? Han Hln]; subst.
    cbn [app]. constructor; [|now apply IH].
    apply Forall_app. split; [exact Ha|]. constructor; [exact Han|constructor].
Qed.

Lemma str_copy_fits (n : string) :
  (String.length n <= 63)%nat -> str_copy (Some n) 64 = n.
Proof.
  intros H. rewrite str_copy_prefix. apply str_prefix_short. simpl. lia.
Qed.

(** The names of the table only grow, at the end. *)
Lemma aggregate_step_names (table : list (string * lang_stats_t))
    (file : string * result_t) :
  exists extra,
    map fst (aggregate_step table file) = map fst table ++ extra.
Proof.
  destruct file as [n r]. unfold aggregate_step.
  destruct (str_equals_ci n "Unknown");
    [exists []; now rewrite app_nil_r|].
  destruct (find_lang_idx (map fst table) n 0 =? -1).
  - destruct (Z.of_nat (List.length table) <? 100).
    + rewrite add_stats_names, map_app. now eexists.
    + exists []. now rewrite app_nil_r.
  - rewrite add_stats_names. exists []. now rewrite app_nil_r.
Qed.

Lemma aggregate_fold_names (inputs : list (string * result_t))
    (table : list (string * lang_stats_t)) :
  exists extra,
    map fst (fold_left aggregate_step inputs table)
    = map fst table ++ extra.
Proof.
  revert table; induction inputs as [|f inputs IH]; intros table.
  - exists []. cbn [fold_left]. now rewrite app_nil_r.
  - cbn [fold_left]. destruct (IH (aggregate_step table f)) as (e2 & ->).
    destruct (aggregate_step_names table f) as (e1 & ->).
    exists (e1 ++ e2). now rewrite app_assoc.
Qed.

(** The table holds names of at most 63 bytes, no two of them equal up to
    case. *)
Lemma aggregate_step_distinct (table : list (string * lang_stats_t))
    (file : string * result_t) :
  (String.length (fst file) <= 63)%nat ->
  distinct_ci (map fst table)
  /\ Forall (fun m => (String.length m <= 63)%nat) (map fst table) ->
  distinct_ci (map fst (aggregate_step table file))
  /\ Forall (fun m => (String.length m <= 63)%nat)
            (map fst (aggregate_step table file)).
Proof.
  destruct file as [n r]. cbn [fst]. intros Hn [Hd Hl].
  unfold aggregate_step.
  destruct (str_equals_ci n "Unknown"); [now split|].
  destruct (Z.eqb_spec (find_lang_idx (map fst table) n 0) (-1)) as [E|E].
  - destruct (Z.of_nat (List.length table) <? 100); [|now split].
    rewrite add_stats_names, map_app. cbn [map fst].
    rewrite str_copy_fits by exact Hn. split.
    + apply distinct_ci_snoc; [exact Hd|].
      apply (find_lang_idx_none _ _ 0); [lia|exact E].
    + apply Forall_app. split; [exact Hl|]. constructor; [exact Hn|constructor].
  - rewrite add_stats_names. now split.
Qed.

Lemma aggregate_fold_distinct (inputs : list (string * result_t))
    (table : list (string * lang_stats_t)) :
  Forall (fun f => (String.length (fst f) <= 63)%nat) inputs ->
  distinct_ci (map fst table)
  /\ Forall (fun m => (String.length m <= 63)%nat) (map fst table) ->
  distinct_ci (map fst (fold_left aggregate_step inputs table))
  /\ Forall (fun m => (String.length m <= 63)%nat)
            (map fst (fold_left aggregate_step inputs table)).
Proof.
  intros Hin. revert table.
  induction Hin as [|f inputs Hf _ IH]; intros table Ht; [exact Ht|].
  cbn [fold_left]. apply IH. now apply aggregate_step_distinct.
Qed.

(** A file that is not ["Unknown"] finds its language in the table, unless
    the table is full. *)
Lemma aggregate_step_present (table : list (string * lang_stats_t))
    (file : string * result_t) :
  (String.length (fst file) <= 63)%nat ->
  is_unknown file = false ->
  (List.length table < 100)%nat ->
  exists m, In m (map fst (aggregate_step table file))
            /\ str_equals_ci m (fst file) = true.
Proof.
  destruct file as [n r]. unfold is_unknown, aggregate_step. cbn [fst].
  intros Hn -> Hroom.
  destruct (Z.eqb_spec (find_lang_idx (map fst table) n 0) (-1)) as [E|E].
  - destruct (Z.ltb_spec (Z.of_nat (List.length table)) 100); [|lia].
    exists n. rewrite add_stats_names, map_app. cbn [map fst].
    rewrite str_copy_fits by exact Hn. split.
    + apply in_or_app. right. now left.
    + now apply str_equals_ci_lower.
  - rewrite add_stats_names.
    apply (find_lang_idx_found _ _ 0); [lia|exact E].
Qed.

Lemma aggregate_fold_present (inputs : list (string * result_t))
    (table : list (string * lang_stats_t)) (f : string * result_t) :
  Forall (fun f => (String.length (fst f) <= 63)%nat) inputs ->
  (List.length (fold_left aggregate_step inputs table) < 100)%nat ->
  In f inputs -> is_unknown f = false ->
  exists m, In m (map fst (fold_left aggregate_step inputs table))
            /\ str_equals_ci m (fst f) = true.
Proof.
  intros Hlen. revert table.
  induction Hlen as [|f0 inputs Hf0 _ IH]; intros table Hroom Hin Hu;
    [contradiction|].
  cbn [fold_left] in *. destruct Hin as [->|Hin].
  - destruct (aggregate_fold_length inputs (aggregate_step table f))
      as (Hmono & _).
    destruct (aggregate_step_length table f) as ((Hstep & _) & _).
    destruct (aggregate_step_present table f Hf0 Hu) as (m & Hm & Hci);
      [lia|].
    destruct (aggregate_fold_names inputs (aggregate_step table f))
      as (extra & ->).
    exists m. split; [apply in_or_app; now left|exact Hci].
  - now apply IH.
Qed.

Lemma map_str_copy_fits (names : list string) :
  Forall (fun m => (String.length m <= 63)%nat) names ->
  map (fun n => str_copy (Some n) 64) names = names.
Proof.
  induction 1 as [|n names Hn _ IH]; [reflexivity|].
  cbn [map]. now rewrite str_copy_fits, IH.
Qed.

(** X16.  Aggregation groups the files by language name up to letter case:
    when the names are at most 63 bytes long (as are those that fit a
    64-byte slot), no two aggregates have names equal up to case, and, if
    fewer than 100 aggregates come out, every input file that is not
    ["Unknown"] has an aggregate whose name equals its own up to case. *)
Theorem aggregate_results_groups (inputs : list (string * result_t)) :
  Forall (fun f => (String.length (fst f) <= 63)%nat) inputs ->
  let names := map fst (aggregate_results inputs) in
  distinct_ci names
  /\ ((List.length names < 100)%nat ->
      forall f, In f inputs -> is_unknown f = false ->
        exists m, In m names /\ str_equals_ci m (fst f) = true).
Proof.
  intros Hlen. cbv zeta.
  destruct (aggregate_fold_distinct inputs [] Hlen) as [Hd Hl];
    [split; constructor|].
  assert (Hnames : map fst (aggregate_results inputs)
                   = map fst (fold_left aggregate_step inputs [])).
  { unfold aggregate_results. rewrite map_map. cbn [fst].
    rewrite <- (map_map fst (fun n => str_copy (Some n) 64)).
    now apply map_str_copy_fits. }
  rewrite Hnames. split; [exact Hd|].
  intros Hroom f Hin Hu. rewrite length_map in Hroom.
  now apply aggregate_fold_present.
Qed.

Lemma aggregate_results_groups_witness :
  let inputs := [("C"%string, mkResult 10 7 2 1 120);
                 ("c"%string, mkResult 3 3 0 0 30);
                 ("Rust"%string, mkResult 8 6 1 1 90)] in
  Forall (fun f : string * result_t => (String.length (fst f) <= 63)%nat)
         inputs
  /\ distinct_ci (map fst (aggregate_results inputs))
  /\ map fst (aggregate_results inputs) = ["C"%string; "Rust"%string].
Proof.
  cbv zeta.
  assert (H : Forall (fun f : string * result_t =>
                        (String.length (fst f) <= 63)%nat)
                [("C"%string, mkResult 10 7 2 1 120);
                 ("c"%string, mkResult 3 3 0 0 30);
                 ("Rust"%string, mkResult 8 6 1 1 90)]).
  { repeat constructor; simpl; lia. }
  split; [exact H|].
  split; [exact (proj1 (aggregate_results_groups _ H))|reflexivity].
Defined.

Lemma marker_fits (lang : option dynamic_lang_t)
    (field : dynamic_lang_t -> string) :
  (forall l, lang = Some l -> (String.length (field l) <= 7)%nat) ->
  0 <= str_len (marker lang field) <= 7.
Proof.
  intros H. destruct (marker_cases lang field) as [->|(l & E & ->)];
    cbn [str_len]; [lia|]. specialize (H l E). lia.
Qed.

(** X17.  No [int] of the classifier overflows on a buffer of at most
    [2^31 - 8] bytes when the markers are at most 7 bytes long, as they are
    in the 8-byte arrays of a descriptor.  In every state the main loop
    reaches, the index [i] is between 0 and [buf_size], [lines] is between
    1 and [buf_size + 1] and every class is between 0 and [lines]; at every
    position of the buffer the sum [pos + pattern_len] of [bytes_match] is
    below [2^31] for each of the three markers; and the five results are
    non-negative [int] values, with every class between 0 and [lines],
    [lines] between 1 and [buf_size + 1] and [size = buf_size]. *)
Theorem count_file_buffer_fits_int (buffer : list ascii)
    (lang : option dynamic_lang_t) :
  markers_fit lang ->
  Z.of_nat (List.length buffer) + 7 < 2 ^ 31 ->
  let n := Z.of_nat (List.length buffer) in
  let lc := marker lang line_comment in
  let bs := marker lang block_start in
  let be := marker lang block_end in
  let r := count_file_buffer buffer lang in
  (forall fuel : nat,
     let s := scan_loop buffer lc bs be fuel scan_init in
     0 <= s_i s <= n
     /\ 1 <= s_lines s <= n + 1
     /\ Forall (fun x => 0 <= x <= s_lines s)
               [s_code s; s_comments s; s_blanks s])
  /\ (forall pos : Z, 0 <= pos <= n ->
        Forall (fun m => 0 <= str_len m <= 7
                         /\ 0 <= pos + str_len m < 2 ^ 31) [lc; bs; be])
  /\ 1 <= r_lines r <= n + 1
  /\ r_size r = n
  /\ Forall (fun x => 0 <= x <= r_lines r)
            [r_code r; r_comments r; r_blanks r]
  /\ Forall (fun x => 0 <= x < 2 ^ 31)
            [r_lines r; r_code r; r_comments r; r_blanks r; r_size r].
Proof.
  intros Hfit Hsize. cbv zeta.
  destruct (count_file_buffer_bounds buffer lang)
    as (Hl & Hc & Hcm & Hb & Hs).
  cbv zeta in Hl, Hc, Hcm, Hb, Hs.
  split; [|split].
  - intros fuel.
    set (lc := marker lang line_comment).
    set (bs := marker lang block_start).
    set (be := marker lang block_end).
    assert (Hinv : forall s, 0 <= s_i s < Z.of_nat (List.length buffer) ->
              s_i s <= Z.of_nat (List.length buffer) /\ scan_bounded s ->
              s_i (scan_step buffer lc bs be s)
                <= Z.of_nat (List.length buffer)
              /\ scan_bounded (scan_step buffer lc bs be s)).
    { intros s Hs' [_ Hbd]. split.
      - apply (scan_step_advances buffer lc bs be s Hs').
      - now apply scan_step_bounded. }
    assert (Hinit : s_i scan_init <= Z.of_nat (List.length buffer)
                    /\ scan_bounded scan_init).
    { split; [simpl; lia|unfold scan_bounded; simpl; lia]. }
    assert (H0 : 0 <= s_i scan_init) by (simpl; lia).
    destruct (scan_loop_invariant buffer lc bs be _ Hinv fuel scan_init
                H0 Hinit) as [[Hi Hbd] Hi0].
    destruct Hbd as (H1 & H2 & H3 & H4 & H5).
    repeat apply conj; try lia; repeat (constructor; try lia);
      destruct H5 as [?|(? & _)]; lia.
  - intros pos Hpos.
    assert (H1 : 0 <= str_len (marker lang line_comment) <= 7).
    { apply marker_fits. intros l ->. apply Hfit. }
    assert (H2 : 0 <= str_len (marker lang block_start) <= 7).
    { apply marker_fits. intros l ->. apply Hfit. }
    assert (H3 : 0 <= str_len (marker lang block_end) <= 7).
    { apply marker_fits. intros l ->. apply Hfit. }
    repeat constructor; lia.
  - repeat apply conj; try assumption; try lia;
      repeat (constructor; try lia).
Qed.

Lemma count_file_buffer_fits_int_witness :
  let buffer := bytes "/* a" ++ [NL] ++ bytes "REMARK x" ++ [NL]
                ++ bytes "x = 1" in
  let lang := Some (lang_markers "REMARK" "/*" "*/") in
  markers_fit lang
  /\ Z.of_nat (List.length buffer) + 7 < 2 ^ 31
  /\ Forall (fun x => 0 <= x < 2 ^ 31)
       (let r := count_file_buffer buffer lang in
        [r_lines r; r_code r; r_comments r; r_blanks r; r_size r]).
Proof.
  cbv zeta.
  assert (Hfit : markers_fit (Some (lang_markers "REMARK" "/*" "*/"))).
  { simpl. lia. }
  assert (H : Z.of_nat (List.length (bytes "/* a" ++ [NL]
                 ++ bytes "REMARK x" ++ [NL] ++ bytes "x = 1")) + 7
              < 2 ^ 31) by (vm_compute; reflexivity).
  split; [exact Hfit|]. split; [exact H|].
  exact (proj2 (proj2 (proj2 (proj2 (proj2
           (count_file_buffer_fits_int _ _ Hfit H)))))).
Defined.

(** ** The classifier line by line *)

Lemma is_prefix_firstn (p l : list ascii) :
  is_prefix p l = true <-> firstn (List.length p) l = p.
Proof.
  revert l; induction p as [|x p IH]; intros [|y l]; cbn [is_prefix firstn
    List.length]; try (split; [reflexivity|reflexivity]);
    try (split; discriminate).
  rewrite andb_true_iff, IH. split.
  - intros [E ->]. apply Ascii.eqb_eq in E. now subst.
  - intros E. injection E as -> E. rewrite Ascii.eqb_refl. now split.
Qed.

Lemma is_prefix_length (p l : list ascii) :
  is_prefix p l = true -> (List.length p <= List.length l)%nat.
Proof.
  intros H. apply is_prefix_firstn in H.
  rewrite <- H at 1. rewrite length_firstn. lia.
Qed.

Lemma is_prefix_line (p l tail : list ascii) :
  Forall (fun c => c <> NL) p -> line_end tail ->
  is_prefix p (l ++ tail) = is_prefix p l.
Proof.
  intros Hp Htail. revert l; induction Hp as [|x p Hx Hp IH]; intros l;
    [reflexivity|].
  destruct l as [|y l]; cbn [app is_prefix].
  - destruct Htail as [->|(rest & ->)]; [reflexivity|].
    cbn [is_prefix]. apply Ascii.eqb_neq in Hx. now rewrite Hx.
  - now rewrite IH.
Qed.

Lemma newline_free_chars (s : string) :
  newline_free s = true ->
  Forall (fun c => c <> NL) (list_ascii_of_string s).
Proof.
  intros H. apply Forall_forall. intros c Hc E. subst c.
  unfold newline_free, byte_free in H. apply negb_true_iff in H.
  assert (Hex : existsb (Ascii.eqb NL) (list_ascii_of_string s) = true).
  { apply existsb_exists. exists NL. split; [exact Hc|apply Ascii.eqb_refl]. }
  congruence.
Qed.

Lemma starts_with_line (m : option string) (l tail : list ascii) :
  opt_newline_free m -> line_end tail ->
  starts_with m (l ++ tail) = starts_with m l.
Proof.
  intros Hm Htail. destruct m as [s|]; [|reflexivity].
  unfold starts_with. pose proof (newline_free_chars s Hm) as Hs.
  destruct (list_ascii_of_string s) as [|x p] eqn:E; [reflexivity|].
  now apply is_prefix_line.
Qed.

Lemma starts_with_length (m : option string) (l : list ascii) :
  starts_with m l = true ->
  0 < str_len m /\ (Z.to_nat (str_len m) <= List.length l)%nat.
Proof.
  destruct m as [s|]; [|discriminate]. unfold starts_with. cbn [str_len].
  rewrite <- list_ascii_length.
  destruct (list_ascii_of_string s) as [|x p] eqn:E; [discriminate|].
  intros H. apply is_prefix_length in H. cbn [List.length] in *. lia.
Qed.

Lemma byte_at_app (pre l : list ascii) (k : nat) :
  byte_at (pre ++ l) (Z.of_nat (List.length pre) + Z.of_nat k)
  = nth k l NUL.
Proof.
  unfold byte_at.
  replace (Z.to_nat (Z.of_nat (List.length pre) + Z.of_nat k))
    with (List.length pre + k)%nat by lia.
  now rewrite app_nth2_plus.
Qed.

Lemma byte_at_head (pre rest : list ascii) (c : ascii) :
  byte_at (pre ++ c :: rest) (Z.of_nat (List.length pre)) = c.
Proof.
  rewrite <- (Z.add_0_r (Z.of_nat (List.length pre))).
  apply (byte_at_app pre (c :: rest) 0).
Qed.

(** Matching at the end of [pre] is starting what follows. *)
Lemma bytes_match_starts (pre l : list ascii) (m : option string) :
  bytes_match (pre ++ l) (Z.of_nat (List.length pre)) m (str_len m)
              (Z.of_nat (List.length (pre ++ l)))
  = starts_with m l.
Proof.
  destruct m as [s|]; [|reflexivity].
  destruct (starts_with (Some s) l) eqn:Hs.
  - unfold starts_with in Hs.
    destruct (list_ascii_of_string s) as [|x p] eqn:E; [discriminate|].
    apply is_prefix_firstn in Hs. rewrite <- E in Hs.
    rewrite list_ascii_length in Hs.
    apply (bytes_match_firstn (pre ++ l) (Z.of_nat (List.length pre)) s);
      [lia|].
    split; [intros ->; discriminate|].
    rewrite Nat2Z.id, skipn_app, skipn_all, Nat.sub_diag. exact Hs.
  - destruct (bytes_match (pre ++ l) (Z.of_nat (List.length pre)) (Some s)
                (str_len (Some s)) (Z.of_nat (List.length (pre ++ l))))
      eqn:Hb; [|reflexivity].
    apply bytes_match_firstn in Hb; [|lia]. destruct Hb as [Hne Hb].
    rewrite Nat2Z.id, skipn_app, skipn_all, Nat.sub_diag in Hb.
    cbn [skipn app] in Hb.
    unfold starts_with in Hs.
    destruct (list_ascii_of_string s) as [|x p] eqn:E.
    + destruct s; [contradiction|discriminate].
    + rewrite <- E, <- list_ascii_length in Hb. rewrite E in Hb.
      apply is_prefix_firstn in Hb. congruence.
Qed.

Section LineRuns.

Variables lc bs be : option string.

Local Abbreviation run := (fun buffer => scan_loop buffer lc bs be).
Local Abbreviation step := (fun buffer => scan_step buffer lc bs be).

Lemma scan_loop_add (buffer : list ascii) (n m : nat) (s : scan_t) :
  0 <= s_i s ->
  scan_loop buffer lc bs be (n + m) s
  = scan_loop buffer lc bs be m (scan_loop buffer lc bs be n s).
Proof.
  revert s; induction n as [|n IH]; intros s Hi; [reflexivity|].
  cbn [Nat.add].
  destruct (Z.ltb_spec (s_i s) (Z.of_nat (List.length buffer))) as [Hlt|Hge].
  - rewrite !scan_loop_S by exact Hlt. apply IH.
    pose proof (scan_step_advances buffer lc bs be s (conj Hi Hlt)). lia.
  - rewrite (scan_loop_done buffer lc bs be (S (n + m)) s) by lia.
    rewrite (scan_loop_done buffer lc bs be (S n) s) by lia.
    rewrite (scan_loop_done buffer lc bs be m s) by lia. reflexivity.
Qed.

Lemma blank_byte_not_nl (c : ascii) : blank_byte c = true -> c <> NL.
Proof.
  unfold blank_byte. intros H E. subst c. discriminate H.
Qed.

(** Leading spaces and tabs are passed one by one and change nothing. *)
Lemma run_blanks (ws : list ascii) :
  Forall (fun c => blank_byte c = true) ws ->
  forall (pre rest : list ascii) (s : scan_t) (m : nat),
    s_i s = Z.of_nat (List.length pre) ->
    s_line_start s = true ->
    scan_loop (pre ++ ws ++ rest) lc bs be (List.length ws + m) s
    = scan_loop (pre ++ ws ++ rest) lc bs be m
        (set_i s (Z.of_nat (List.length pre + List.length ws))).
Proof.
  induction 1 as [|c ws Hc Hws IH]; intros pre rest s m Hi Hls.
  - cbn [List.length Nat.add app]. f_equal.
    destruct s; unfold set_i; cbn in *. f_equal. lia.
  - cbn [List.length Nat.add].
    rewrite scan_loop_S
      by (rewrite Hi, !length_app; cbn [List.length]; lia).
    assert (Hstep : scan_step (pre ++ (c :: ws) ++ rest) lc bs be s
                    = set_i s (s_i s + 1)).
    { pose proof (blank_byte_not_nl c Hc) as Hnl.
      apply Ascii.eqb_neq in Hnl. unfold blank_byte in Hc.
      destruct s as [i ln cd cm b ib ls ie]. cbn [s_i s_line_start] in Hi, Hls.
      subst i ls. unfold scan_step, set_i. cbv zeta.
      cbn [s_i s_lines s_code s_comments s_blanks s_in_block s_line_start
           s_is_empty app].
      rewrite byte_at_head, Hnl, Hc. reflexivity. }
    rewrite Hstep.
    replace (pre ++ (c :: ws) ++ rest) with ((pre ++ [c]) ++ ws ++ rest)
      by (rewrite <- app_assoc; reflexivity).
    rewrite IH.
    + f_equal. unfold set_i. cbn [s_i s_lines s_code s_comments s_blanks
        s_in_block s_line_start s_is_empty].
      f_equal. rewrite length_app. cbn [List.length]. lia.
    + unfold set_i. cbn [s_i]. rewrite Hi, length_app. cbn [List.length].
      lia.
    + exact Hls.
Qed.

(** After the first byte of a line that is not a space or a tab has been
    dealt with, the other bytes of the line are passed one by one and
    change nothing. *)
Lemma run_plain (l : list ascii) :
  Forall (fun c => c <> NL) l ->
  forall (pre rest : list ascii) (s : scan_t) (m : nat),
    s_i s = Z.of_nat (List.length pre) ->
    s_line_start s = false -> s_is_empty s = false ->
    scan_loop (pre ++ l ++ rest) lc bs be (List.length l + m) s
    = scan_loop (pre ++ l ++ rest) lc bs be m
        (set_i s (Z.of_nat (List.length pre + List.length l))).
Proof.
  induction 1 as [|c l Hc Hl IH]; intros pre rest s m Hi Hls He.
  - cbn [List.length Nat.add app]. f_equal.
    destruct s; unfold set_i; cbn in *. f_equal. lia.
  - cbn [List.length Nat.add].
    rewrite scan_loop_S
      by (rewrite Hi, !length_app; cbn [List.length]; lia).
    assert (Hstep : scan_step (pre ++ (c :: l) ++ rest) lc bs be s
                    = set_i s (s_i s + 1)).
    { apply Ascii.eqb_neq in Hc.
      destruct s as [i ln cd cm b ib ls ie].
      cbn [s_i s_line_start s_is_empty] in Hi, Hls, He. subst i ls ie.
      unfold scan_step, set_i. cbv zeta.
      cbn [s_i s_lines s_code s_comments s_blanks s_in_block s_line_start
           s_is_empty app].
      rewrite byte_at_head, Hc. cbn [andb].
      destruct (negb (Ascii.eqb c SPACE) && negb (Ascii.eqb c TAB));
        reflexivity. }
    rewrite Hstep.
    replace (pre ++ (c :: l) ++ rest) with ((pre ++ [c]) ++ l ++ rest)
      by (rewrite <- app_assoc; reflexivity).
    rewrite IH.
    + f_equal. unfold set_i. cbn [s_i s_lines s_code s_comments s_blanks
        s_in_block s_line_start s_is_empty].
      f_equal. rewrite length_app. cbn [List.length]. lia.
    + unfold set_i. cbn [s_i]. rewrite Hi, length_app. cbn [List.length].
      lia.
    + exact Hls.
    + exact He.
Qed.

(** On a line, the skip of a line comment stops at the end of the line. *)
Lemma skip_to_newline_line (l : list ascii) :
  Forall (fun c => c <> NL) l ->
  forall (pre tail : list ascii) (n : nat),
    line_end tail -> (List.length l <= n)%nat ->
    skip_to_newline (pre ++ l ++ tail) n (Z.of_nat (List.length pre))
    = Z.of_nat (List.length pre + List.length l).
Proof.
  induction 1 as [|c l Hc Hl IH]; intros pre tail n Htail Hn.
  - cbn [app List.length]. rewrite Nat.add_0_r.
    destruct n as [|n]; [reflexivity|]. rewrite skip_to_newline_S.
    destruct Htail as [->|(rest & ->)].
    + rewrite app_nil_r.
      destruct (Z.ltb_spec (Z.of_nat (List.length pre))
                  (Z.of_nat (List.length pre))); [lia|reflexivity].
    + rewrite byte_at_head, Ascii.eqb_refl, andb_false_r. reflexivity.
  - destruct n as [|n]; [simpl in Hn; lia|].
    rewrite skip_to_newline_S. cbn [app]. rewrite byte_at_head.
    apply Ascii.eqb_neq in Hc. rewrite Hc.
    destruct (Z.ltb_spec (Z.of_nat (List.length pre))
                (Z.of_nat (List.length (pre ++ c :: l ++ tail))))
      as [_|Hge]; [|rewrite !length_app in Hge; cbn [List.length] in Hge;
                    lia].
    cbn [andb negb].
    replace (pre ++ c :: l ++ tail) with ((pre ++ [c]) ++ l ++ tail)
      by (rewrite <- app_assoc; reflexivity).
    replace (Z.of_nat (List.length pre) + 1)
      with (Z.of_nat (List.length (pre ++ [c])))
      by (rewrite length_app; cbn [List.length]; lia).
    rewrite IH; [|exact Htail|simpl in Hn; lia].
    rewrite length_app. cbn [List.length]. lia.
Qed.

End LineRuns.

Lemma occurs_length (m : option string) (l : list ascii) :
  occurs m l = true ->
  0 < str_len m /\ (Z.to_nat (str_len m) <= List.length l)%nat.
Proof.
  induction l as [|c l IH]; cbn [occurs]; rewrite orb_true_iff.
  - intros [H|H]; [now apply starts_with_length|discriminate].
  - intros [H|H]; [now apply starts_with_length|].
    destruct (IH H). cbn [List.length]. lia.
Qed.

Lemma skip_blanks_split (seg : list ascii) :
  exists ws, seg = ws ++ skip_blanks seg
    /\ Forall (fun c => blank_byte c = true) ws
    /\ (skip_blanks seg = []
        \/ exists c r, skip_blanks seg = c :: r /\ blank_byte c = false).
Proof.
  induction seg as [|c seg (ws & E & Hws & Hbody)].
  - exists []. repeat split; [constructor|now left].
  - cbn [skip_blanks]. destruct (blank_byte c) eqn:Hc.
    + exists (c :: ws). repeat split.
      * cbn [app]. now rewrite <- E.
      * now constructor.
      * exact Hbody.
    + exists []. repeat split; [constructor|].
      right. now exists c, seg.
Qed.

Lemma byte_at_head_eq (B pre rest : list ascii) (c : ascii) :
  B = pre ++ c :: rest -> byte_at B (Z.of_nat (List.length pre)) = c.
Proof. intros ->. apply byte_at_head. Qed.

Lemma bytes_match_starts_eq (B pre l : list ascii) (m : option string) :
  B = pre ++ l ->
  bytes_match B (Z.of_nat (List.length pre)) m (str_len m)
              (Z.of_nat (List.length B))
  = starts_with m l.
Proof. intros ->. apply bytes_match_starts. Qed.

(** The search for a block end after a block start, on the rest [l] of
    the line: it succeeds exactly when the marker occurs in [l], and then
    stops inside the line. *)
Lemma find_block_end_line (be : option string) (l : list ascii) :
  Forall (fun c => c <> NL) l ->
  forall (B pre tail : list ascii),
    B = pre ++ l ++ tail ->
    line_end tail -> opt_newline_free be -> 0 < str_len be ->
    match find_block_end B be
            (Z.to_nat (Z.of_nat (List.length B) - str_len be
                       - Z.of_nat (List.length pre) + 1))
            (Z.of_nat (List.length pre)) with
    | Some r =>
        occurs be l = true
        /\ Z.of_nat (List.length pre) < r
           <= Z.of_nat (List.length pre + List.length l)
    | None => occurs be l = false
    end.
Proof.
  induction 1 as [|c l Hc Hl IH]; intros B pre tail EB Htail Hbe Hlen.
  - assert (Hocc : occurs be [] = false).
    { destruct (occurs be []) eqn:E; [|reflexivity].
      apply occurs_length in E. simpl in E. lia. }
    rewrite Hocc. cbn [app] in EB.
    destruct (Z.to_nat _) as [|n]; [reflexivity|].
    rewrite find_block_end_S.
    destruct (Z.leb_spec (Z.of_nat (List.length pre))
                (Z.of_nat (List.length B) - str_len be)) as [Hle|];
      [|reflexivity].
    destruct Htail as [->|(rest & ->)].
    + rewrite app_nil_r in EB. subst B. lia.
    + now rewrite (byte_at_head_eq B pre rest NL EB), Ascii.eqb_refl.
  - assert (HlenB : List.length B
                    = (List.length pre + S (List.length l)
                       + List.length tail)%nat).
    { subst B. rewrite !length_app. cbn [List.length]. lia. }
    destruct (Z.leb_spec (Z.of_nat (List.length pre))
                (Z.of_nat (List.length B) - str_len be)) as [Hle|Hgt].
    + replace (Z.to_nat (Z.of_nat (List.length B) - str_len be
                         - Z.of_nat (List.length pre) + 1))
        with (S (Z.to_nat (Z.of_nat (List.length B) - str_len be
                           - Z.of_nat (List.length pre)))) by lia.
      rewrite find_block_end_S.
      destruct (Z.leb_spec (Z.of_nat (List.length pre))
                  (Z.of_nat (List.length B) - str_len be)); [|lia].
      rewrite (byte_at_head_eq B pre (l ++ tail) c EB).
      apply Ascii.eqb_neq in Hc. rewrite Hc.
      rewrite (bytes_match_starts_eq B pre ((c :: l) ++ tail) be EB).
      rewrite starts_with_line by assumption.
      cbn [occurs].
      destruct (starts_with be (c :: l)) eqn:Hs.
      * cbn [orb]. split; [reflexivity|].
        apply starts_with_length in Hs. cbn [List.length] in *. lia.
      * cbn [orb].
        assert (EB' : B = (pre ++ [c]) ++ l ++ tail)
          by (rewrite EB, <- app_assoc; reflexivity).
        specialize (IH B (pre ++ [c]) tail EB' Htail Hbe Hlen).
        rewrite length_app in IH. cbn [List.length] in IH.
        match goal with
        | |- match find_block_end _ _ ?n ?j with _ => _ end =>
            match type of IH with
            | match find_block_end _ _ ?n' ?j' with _ => _ end =>
                replace n with n' by lia; replace j with j' by lia
            end
        end.
        destruct (find_block_end _ _ _ _) as [r|]; [|exact IH].
        destruct IH as [Ho Hr]. split; [exact Ho|]. cbn [List.length]. lia.
    + replace (Z.to_nat (Z.of_nat (List.length B) - str_len be
                         - Z.of_nat (List.length pre) + 1)) with O by lia.
      cbn [find_block_end].
      destruct (occurs be (c :: l)) eqn:E; [|reflexivity].
      apply occurs_length in E. cbn [List.length] in E. lia.
Qed.

Section LineByLine.

Variables lc bs be : option string.
Hypothesis lc_free : opt_newline_free lc.
Hypothesis bs_free : opt_newline_free bs.
Hypothesis be_free : opt_newline_free be.

Lemma run_blanks_eq (B ws pre rest : list ascii) (s : scan_t) (m : nat) :
  B = pre ++ ws ++ rest ->
  Forall (fun c => blank_byte c = true) ws ->
  s_i s = Z.of_nat (List.length pre) -> s_line_start s = true ->
  scan_loop B lc bs be (List.length ws + m) s
  = scan_loop B lc bs be m (set_i s (Z.of_nat (List.length (pre ++ ws)))).
Proof.
  intros -> Hws Hi Hls. rewrite length_app. now apply run_blanks.
Qed.

Lemma run_plain_eq (B l pre rest : list ascii) (s : scan_t) (m : nat) :
  B = pre ++ l ++ rest ->
  Forall (fun c => c <> NL) l ->
  s_i s = Z.of_nat (List.length pre) ->
  s_line_start s = false -> s_is_empty s = false ->
  scan_loop B lc bs be (List.length l + m) s
  = scan_loop B lc bs be m (set_i s (Z.of_nat (List.length (pre ++ l)))).
Proof.
  intros -> Hl Hi Hls He. rewrite length_app. now apply run_plain.
Qed.

Lemma skip_to_newline_line_eq (B l pre tail : list ascii) (n : nat) :
  B = pre ++ l ++ tail ->
  Forall (fun c => c <> NL) l -> line_end tail ->
  (List.length l <= n)%nat ->
  skip_to_newline B n (Z.of_nat (List.length pre))
  = Z.of_nat (List.length (pre ++ l)).
Proof.
  intros -> Hl Htail Hn. rewrite length_app.
  now apply skip_to_newline_line.
Qed.

(** The first byte of a line that is not a space or a tab, met at the
    start of the line: the iteration written with the markers looked for
    in the rest of the line. *)
Lemma first_byte_step (B p r tail : list ascii) (c : ascii)
    (ln cd cm b : Z) (ib : bool) :
  B = p ++ (c :: r) ++ tail ->
  Forall (fun x => x <> NL) (c :: r) -> line_end tail ->
  blank_byte c = false ->
  let body := c :: r in
  let i := Z.of_nat (List.length p) in
  let plain := mkScan (i + 1) ln cd cm b ib false false in
  scan_step B lc bs be (mkScan i ln cd cm b ib true true)
  = if ib && starts_with be body then
      mkScan (i + str_len be) ln cd cm b false false false
    else if negb ib then
      if starts_with lc body then
        mkScan (Z.of_nat (List.length (p ++ body))) ln cd (cm + 1) b ib
               false true
      else if starts_with bs body then
        match (if str_len be >? 0
               then find_block_end B be
                      (Z.to_nat (Z.of_nat (List.length B) - str_len be
                                 - (i + str_len bs) + 1))
                      (i + str_len bs)
               else None) with
        | Some i2 => mkScan i2 ln cd cm b false false false
        | None => mkScan (i + str_len bs) ln cd cm b true false false
        end
      else plain
    else plain.
Proof.
  intros EB Hbody Htail Hc. cbv zeta.
  pose proof (Forall_inv Hbody) as Hnl. cbn beta in Hnl.
  unfold scan_step. cbv zeta.
  cbn [s_i s_lines s_code s_comments s_blanks s_in_block s_line_start
       s_is_empty].
  rewrite (byte_at_head_eq B p (r ++ tail) c EB).
  apply Ascii.eqb_neq in Hnl. rewrite Hnl.
  unfold blank_byte in Hc. rewrite Hc.
  apply orb_false_iff in Hc. destruct Hc as [Hsp Htab].
  rewrite Hsp, Htab. cbn [andb negb].
  rewrite !(bytes_match_starts_eq B p ((c :: r) ++ tail) _ EB).
  rewrite !starts_with_line by assumption.
  destruct (starts_with lc (c :: r)) eqn:Hlc; [|reflexivity].
  rewrite (skip_to_newline_line_eq B (c :: r) p tail _ EB Hbody Htail);
    [reflexivity|].
  rewrite EB, !length_app. cbn [List.length]. lia.
Qed.

Lemma Forall_skipn_nl (k : nat) (l : list ascii) :
  Forall (fun x => x <> NL) l -> Forall (fun x => x <> NL) (skipn k l).
Proof.
  intros H. rewrite <- (firstn_skipn k l) in H.
  apply Forall_app in H. tauto.
Qed.

(** Scanning one line from its start: after at most as many iterations as
    the line has bytes the scanner is at the end of the line, in the state
    that the class of the line describes. *)
Lemma scan_line (B pre seg tail : list ascii) (ln cd cm b : Z) (ib : bool) :
  B = pre ++ seg ++ tail ->
  Forall (fun c => c <> NL) seg -> line_end tail ->
  let s := mkScan (Z.of_nat (List.length pre)) ln cd cm b ib true true in
  exists (n : nat) (s' : scan_t),
    (n <= List.length seg)%nat
    /\ (forall m, scan_loop B lc bs be (n + m) s
                  = scan_loop B lc bs be m s')
    /\ s_i s' = Z.of_nat (List.length (pre ++ seg))
    /\ line_done s s' (fst (classify_line lc bs be ib seg))
                      (snd (classify_line lc bs be ib seg)).
Proof.
  intros EB Hseg Htail s.
  destruct (skip_blanks_split seg) as (ws & Eseg & Hws & Hbody).
  unfold classify_line.
  remember (skip_blanks seg) as body eqn:Hb. clear Hb.
  assert (Hlenseg : List.length seg
                    = (List.length ws + List.length body)%nat)
    by (rewrite Eseg; apply length_app).
  assert (Hbody_nl : Forall (fun c => c <> NL) body)
    by (rewrite Eseg in Hseg; apply Forall_app in Hseg; tauto).
  set (p := pre ++ ws).
  assert (EB2 : B = p ++ body ++ tail)
    by (rewrite EB, Eseg; unfold p; rewrite <- !app_assoc; reflexivity).
  assert (Epseg : pre ++ seg = p ++ body)
    by (rewrite Eseg; unfold p; apply app_assoc).
  set (s1 := mkScan (Z.of_nat (List.length p)) ln cd cm b ib true true).
  assert (Hrun1 : forall m,
            scan_loop B lc bs be (List.length ws + m) s
            = scan_loop B lc bs be m s1).
  { intros m.
    apply (run_blanks_eq B ws pre (body ++ tail) s m);
      [rewrite EB, Eseg, <- !app_assoc; reflexivity|exact Hws
      |reflexivity|reflexivity]. }
  rewrite Epseg.
  destruct Hbody as [Eb|(c & r & Eb & Hc)]; subst body.
  - exists (List.length ws), s1. split; [lia|].
    split; [intros m; apply Hrun1|].
    split; [rewrite app_nil_r; reflexivity|].
    unfold line_done, s1, s.
    destruct ib; cbn; repeat split.
  - cbn [List.length] in Hlenseg.
    pose proof (first_byte_step B p r tail c ln cd cm b ib EB2 Hbody_nl
                  Htail Hc) as Hstep.
    cbv zeta in Hstep. fold s1 in Hstep.
    assert (HlenB : List.length B
                    = (List.length p + S (List.length r)
                       + List.length tail)%nat).
    { rewrite EB2, !length_app. cbn [List.length]. lia. }
    assert (Hfin : forall (s2 : scan_t) (p2 l2 : list ascii),
              scan_step B lc bs be s1 = s2 ->
              B = p2 ++ l2 ++ tail ->
              Forall (fun x => x <> NL) l2 ->
              s_i s2 = Z.of_nat (List.length p2) ->
              s_line_start s2 = false -> s_is_empty s2 = false ->
              p2 ++ l2 = p ++ c :: r ->
              forall m,
                scan_loop B lc bs be (List.length ws + S (List.length l2) + m)
                          s
                = scan_loop B lc bs be m
                    (set_i s2 (Z.of_nat (List.length (p ++ c :: r))))).
    { intros s2 p2 l2 Hs2 EB3 Hl2 Hi2 Hls2 He2 Epl m.
      replace (List.length ws + S (List.length l2) + m)%nat
        with (List.length ws + S (List.length l2 + m))%nat by lia.
      rewrite Hrun1, scan_loop_S by (unfold s1; cbn [s_i]; lia).
      rewrite Hs2, (run_plain_eq B l2 p2 tail s2 m EB3 Hl2 Hi2 Hls2 He2).
      now rewrite Epl. }
    assert (Hsplit : forall k : nat,
              (k <= List.length (c :: r))%nat ->
              B = (p ++ firstn k (c :: r)) ++ skipn k (c :: r) ++ tail
              /\ (p ++ firstn k (c :: r)) ++ skipn k (c :: r) = p ++ c :: r
              /\ List.length (p ++ firstn k (c :: r))
                 = (List.length p + k)%nat
              /\ List.length (skipn k (c :: r))
                 = (List.length (c :: r) - k)%nat).
    { intros k Hk. repeat split.
      - rewrite EB2, <- !app_assoc, (app_assoc (firstn k (c :: r))),
          firstn_skipn. reflexivity.
      - rewrite <- app_assoc, firstn_skipn. reflexivity.
      - rewrite length_app, length_firstn. lia.
      - apply length_skipn. }
    destruct ib.
    + (* a block is open *)
      cbn [andb negb] in Hstep.
      destruct (starts_with be (c :: r)) eqn:Hbe.
      * destruct (starts_with_length _ _ Hbe) as [Hpos Hk].
        destruct (Hsplit (Z.to_nat (str_len be)) Hk) as (E1 & E2 & E3 & E4).
        cbn [List.length] in E4, Hk.
        eexists (List.length ws + S _)%nat, _.
        split; [|split; [intros m; eapply (Hfin _ _ _ Hstep E1)|]].
        -- rewrite E4. lia.
        -- now apply Forall_skipn_nl.
        -- cbn [s_i]. rewrite E3. lia.
        -- reflexivity.
        -- reflexivity.
        -- exact E2.
        -- split; [reflexivity|]. unfold line_done, set_i, s. cbn.
           repeat split.
      * eexists (List.length ws + S _)%nat, _.
        split; [|split; [intros m;
                         eapply (Hfin _ (p ++ [c]) r Hstep)|]].
        -- lia.
        -- rewrite EB2, <- app_assoc. reflexivity.
        -- exact (Forall_inv_tail Hbody_nl).
        -- cbn [s_i]. rewrite length_app. cbn [List.length]. lia.
        -- reflexivity.
        -- reflexivity.
        -- rewrite <- app_assoc. reflexivity.
        -- split; [reflexivity|]. unfold line_done, set_i, s. cbn.
           repeat split.
    + (* no block is open *)
      cbn [andb negb] in Hstep.
      destruct (starts_with lc (c :: r)) eqn:Hlc.
      * eexists (List.length ws + 1)%nat, _.
        split; [lia|]. split.
        -- intros m.
           replace (List.length ws + 1 + m)%nat
             with (List.length ws + S m)%nat by lia.
           rewrite Hrun1, scan_loop_S by (unfold s1; cbn [s_i]; lia).
           rewrite Hstep. reflexivity.
        -- split; [reflexivity|]. unfold line_done, s. cbn. repeat split.
      * destruct (starts_with bs (c :: r)) eqn:Hbs.
        -- destruct (starts_with_length _ _ Hbs) as [Hpos Hk].
           destruct (Hsplit (Z.to_nat (str_len bs)) Hk)
             as (E1 & E2 & E3 & E4).
           set (p2 := p ++ firstn (Z.to_nat (str_len bs)) (c :: r)) in *.
           set (l2 := skipn (Z.to_nat (str_len bs)) (c :: r)) in *.
           assert (Hl2 : Forall (fun x => x <> NL) l2)
             by (now apply Forall_skipn_nl).
           assert (Ei1 : Z.of_nat (List.length p) + str_len bs
                         = Z.of_nat (List.length p2)) by lia.
           rewrite Ei1 in Hstep.
           cbn [List.length] in E4, Hk.
           destruct (Z.gtb_spec (str_len be) 0) as [Hbe|Hbe].
           ++ pose proof (find_block_end_line be l2 Hl2 B p2 tail E1 Htail
                            be_free Hbe) as Hfind.
              destruct (find_block_end B be _ _) as [i2|].
              ** destruct Hfind as [Hocc Hi2]. rewrite Hocc.
                 assert (Hk2 : (Z.to_nat (i2 - Z.of_nat (List.length p2))
                                <= List.length l2)%nat) by lia.
                 set (k2 := Z.to_nat (i2 - Z.of_nat (List.length p2))) in *.
                 eexists (List.length ws + S (List.length (skipn k2 l2)))%nat,
                   _.
                 split; [|split;
                          [intros m;
                           eapply (Hfin _ (p2 ++ firstn k2 l2) (skipn k2 l2)
                                     Hstep)|]].
                 --- rewrite length_skipn. lia.
                 --- rewrite E1, <- !app_assoc,
                       (app_assoc (firstn k2 l2)), firstn_skipn.
                     reflexivity.
                 --- now apply Forall_skipn_nl.
                 --- cbn [s_i]. rewrite length_app, length_firstn. lia.
                 --- reflexivity.
                 --- reflexivity.
                 --- rewrite <- app_assoc, firstn_skipn. exact E2.
                 --- split; [reflexivity|]. unfold line_done, set_i, s.
                     cbn. repeat split.
              ** rewrite Hfind.
                 eexists (List.length ws + S (List.length l2))%nat, _.
                 split; [|split;
                          [intros m; eapply (Hfin _ p2 l2 Hstep E1 Hl2)|]].
                 --- lia.
                 --- reflexivity.
                 --- reflexivity.
                 --- reflexivity.
                 --- exact E2.
                 --- split; [reflexivity|]. unfold line_done, set_i, s.
                     cbn. repeat split.
           ++ assert (Hocc : occurs be l2 = false).
              { destruct (occurs be l2) eqn:E; [|reflexivity].
                apply occurs_length in E. lia. }
              rewrite Hocc.
              eexists (List.length ws + S (List.length l2))%nat, _.
              split; [|split;
                       [intros m; eapply (Hfin _ p2 l2 Hstep E1 Hl2)|]].
              ** lia.
              ** reflexivity.
              ** reflexivity.
              ** reflexivity.
              ** exact E2.
              ** split; [reflexivity|]. unfold line_done, set_i, s.
                 cbn. repeat split.
        -- eexists (List.length ws + S _)%nat, _.
           split; [|split; [intros m;
                            eapply (Hfin _ (p ++ [c]) r Hstep)|]].
           ++ lia.
           ++ rewrite EB2, <- app_assoc. reflexivity.
           ++ exact (Forall_inv_tail Hbody_nl).
           ++ cbn [s_i]. rewrite length_app. cbn [List.length]. lia.
           ++ reflexivity.
           ++ reflexivity.
           ++ rewrite <- app_assoc. reflexivity.
           ++ split; [reflexivity|]. unfold line_done, set_i, s. cbn.
              repeat split.
Qed.

End LineByLine.

Lemma split_lines_join (buf : list ascii) :
  join_lines (split_lines buf) = buf.
Proof.
  induction buf as [|c buf IH]; [reflexivity|].
  cbn [split_lines]. destruct (Ascii.eqb_spec c NL) as [->|Hc].
  - destruct (split_lines buf) as [|seg segs] eqn:E;
      [now apply split_lines_nonempty in E|].
    change (join_lines ([] :: seg :: segs))
      with ([] ++ NL :: join_lines (seg :: segs)).
    now rewrite IH.
  - destruct (split_lines buf) as [|seg segs] eqn:E;
      [now apply split_lines_nonempty in E|].
    rewrite <- IH. destruct segs; reflexivity.
Qed.

Lemma split_lines_nl_free (buf : list ascii) :
  Forall (Forall (fun c => c <> NL)) (split_lines buf).
Proof.
  induction buf as [|c buf IH]; [repeat constructor|].
  cbn [split_lines]. destruct (Ascii.eqb_spec c NL) as [->|Hc].
  - constructor; [constructor|exact IH].
  - destruct (split_lines buf) as [|seg segs]; [repeat constructor; exact Hc|].
    inversion IH; subst. constructor; [now constructor|assumption].
Qed.

Lemma count_class_cons (c x : line_class) (cs : list line_class) :
  count_class c (x :: cs)
  = (if line_class_eqb c x then 1 else 0) + count_class c cs.
Proof.
  unfold count_class. cbn [filter].
  destruct (line_class_eqb c x); cbn [List.length]; lia.
Qed.

Lemma count_class_nil (c : line_class) : count_class c [] = 0.
Proof. reflexivity. Qed.

Lemma classify_lines_length (lc bs be : option string) (ib : bool)
    (segs : list (list ascii)) :
  List.length (classify_lines lc bs be ib segs) = List.length segs.
Proof.
  revert ib; induction segs as [|seg segs IH]; intros ib; [reflexivity|].
  cbn [classify_lines List.length]. now rewrite IH.
Qed.

(** Closing a scanned line, at its newline or at the end of the buffer,
    counts it in its class. *)
Lemma close_line_class (s s' : scan_t) (cls : line_class) (ib' : bool) :
  line_done s s' cls ib' ->
  s_lines (close_line s') = s_lines s
  /\ s_in_block (close_line s') = ib'
  /\ s_code (close_line s') = s_code s + count_class LCode [cls]
  /\ s_comments (close_line s')
     = s_comments s + count_class LComment [cls]
       + count_class LLineComment [cls]
  /\ s_blanks (close_line s')
     = s_blanks s + count_class LBlank [cls]
       + count_class LLineComment [cls].
Proof.
  destruct s as [i ln cd cm b ib ls ie].
  destruct s' as [i' ln' cd' cm' b' ib2 ls' ie'].
  unfold line_done, close_line.
  cbn [s_i s_lines s_code s_comments s_blanks s_in_block s_line_start
       s_is_empty].
  intros (-> & -> & -> & -> & Hcls).
  destruct cls; cbn in Hcls |- *.
  - destruct Hcls as (-> & -> & ->). cbn. repeat split; lia.
  - destruct Hcls as (-> & -> & ->). cbn. repeat split; lia.
  - destruct Hcls as (-> & ->). cbn. repeat split; lia.
  - destruct Hcls as (-> & -> & ->). cbn. repeat split; lia.
Qed.

Section WholeBuffer.

Variables lc bs be : option string.
Hypothesis lc_free : opt_newline_free lc.
Hypothesis bs_free : opt_newline_free bs.
Hypothesis be_free : opt_newline_free be.

(** Scanning lines from the start of a line to the end of the buffer adds
    to the counters the classes of these lines. *)
Lemma scan_lines (segs : list (list ascii)) :
  segs <> [] -> Forall (Forall (fun c => c <> NL)) segs ->
  forall (B pre : list ascii) (ln cd cm b : Z) (ib : bool) (fuel : nat),
    B = pre ++ join_lines segs ->
    (List.length (join_lines segs) <= fuel)%nat ->
    let s := mkScan (Z.of_nat (List.length pre)) ln cd cm b ib true true in
    let f := close_line (scan_loop B lc bs be fuel s) in
    let cs := classify_lines lc bs be ib segs in
    s_lines f = ln + Z.of_nat (List.length segs) - 1
    /\ s_code f = cd + count_class LCode cs
    /\ s_comments f
       = cm + count_class LComment cs + count_class LLineComment cs
    /\ s_blanks f
       = b + count_class LBlank cs + count_class LLineComment cs.
Proof.
  induction segs as [|seg segs IH]; intros Hne Hnl; [contradiction|].
  intros B pre ln cd cm b ib fuel EB Hfuel. cbv zeta.
  pose proof (Forall_inv Hnl) as Hseg.
  pose proof (Forall_inv_tail Hnl) as Hsegs.
  destruct (match segs with [] => true | _ => false end) eqn:Elast.
  - (* the last line *)
    destruct segs; [|discriminate]. cbn [join_lines] in EB, Hfuel.
    destruct (scan_line lc bs be lc_free bs_free be_free B pre seg [] ln cd
                cm b ib) as (n & s' & Hn & Hrun & Hi' & Hdone);
      [now rewrite app_nil_r|exact Hseg|now left|].
    replace fuel with (n + (fuel - n))%nat by lia.
    rewrite Hrun, scan_loop_done by (rewrite Hi', EB; lia).
    destruct (close_line_class _ _ _ _ Hdone) as (Hl & _ & Hc & Hcm & Hb).
    cbn [s_lines s_code s_comments s_blanks] in Hl, Hc, Hcm, Hb.
    cbn [classify_lines List.length].
    rewrite Hl, Hc, Hcm, Hb. repeat split; lia.
  - (* a line followed by a newline *)
    destruct segs as [|seg2 rest]; [discriminate|].
    set (J := join_lines (seg2 :: rest)) in *.
    assert (EJ : join_lines (seg :: seg2 :: rest) = seg ++ NL :: J)
      by reflexivity.
    rewrite EJ in EB, Hfuel. rewrite length_app in Hfuel.
    cbn [List.length] in Hfuel.
    destruct (scan_line lc bs be lc_free bs_free be_free B pre seg (NL :: J)
                ln cd cm b ib) as (n & s' & Hn & Hrun & Hi' & Hdone);
      [exact EB|exact Hseg|right; now exists J|].
    destruct (close_line_class _ _ _ _ Hdone) as (Hl & Hib & Hc & Hcm & Hb).
    cbn [s_lines s_code s_comments s_blanks] in Hl, Hc, Hcm, Hb.
    assert (EB' : B = (pre ++ seg) ++ NL :: J)
      by (rewrite EB, <- app_assoc; reflexivity).
    assert (HlenB : List.length B
                    = (List.length (pre ++ seg) + S (List.length J))%nat)
      by (rewrite EB', length_app; reflexivity).
    replace fuel with (n + S (fuel - n - 1))%nat by lia.
    rewrite Hrun, scan_loop_S by (rewrite Hi'; lia).
    assert (Hstep : scan_step B lc bs be s'
                    = mkScan (Z.of_nat (List.length ((pre ++ seg) ++ [NL])))
                             (s_lines (close_line s') + 1)
                             (s_code (close_line s'))
                             (s_comments (close_line s'))
                             (s_blanks (close_line s'))
                             (s_in_block s') true true).
    { unfold scan_step. cbv zeta. rewrite Hi'.
      rewrite (byte_at_head_eq B (pre ++ seg) J NL EB'), Ascii.eqb_refl.
      f_equal. rewrite (length_app (pre ++ seg)). cbn [List.length]. lia. }
    rewrite Hstep.
    assert (Hib' : s_in_block s'
                   = snd (classify_line lc bs be ib seg))
      by (destruct Hdone as (_ & _ & _ & H & _); exact H).
    rewrite Hib'.
    destruct (IH (ltac:(discriminate)) Hsegs B ((pre ++ seg) ++ [NL])
                (s_lines (close_line s') + 1) (s_code (close_line s'))
                (s_comments (close_line s')) (s_blanks (close_line s'))
                (snd (classify_line lc bs be ib seg)) (fuel - n - 1)%nat)
      as (Hl2 & Hc2 & Hcm2 & Hb2).
    + rewrite EB', <- (app_assoc (pre ++ seg) [NL] J). reflexivity.
    + fold J. lia.
    + cbv zeta in Hl2, Hc2, Hcm2, Hb2.
      rewrite Hl2, Hc2, Hcm2, Hb2, Hl, Hc, Hcm, Hb.
      cbn [classify_lines]. rewrite !count_class_cons, !count_class_nil.
      cbn [List.length]. repeat split; lia.
Qed.

End WholeBuffer.

Lemma markers_newline_free_lc (lang : option dynamic_lang_t) :
  markers_newline_free lang -> opt_newline_free (marker lang line_comment).
Proof.
  intros H.
  destruct (marker_cases lang line_comment) as [->|(l & -> & ->)];
    simpl in *; tauto.
Qed.

(** The counts are those of the classes of the lines. *)
Lemma count_file_buffer_classes (buffer : list ascii)
    (lang : option dynamic_lang_t) :
  markers_newline_free lang ->
  let cs := classify_lines (marker lang line_comment)
              (marker lang block_start) (marker lang block_end) false
              (split_lines buffer) in
  count_file_buffer buffer lang
  = mkResult (Z.of_nat (List.length (split_lines buffer)))
             (count_class LCode cs)
             (count_class LComment cs + count_class LLineComment cs)
             (count_class LBlank cs + count_class LLineComment cs)
             (Z.of_nat (List.length buffer)).
Proof.
  intros Hfree. cbv zeta. unfold count_file_buffer.
  destruct (Z.eqb_spec (Z.of_nat (List.length buffer)) 0) as [E|E].
  - destruct buffer; [reflexivity|simpl in E; lia].
  - destruct (markers_newline_free_opt lang Hfree) as [Hbs Hbe].
    pose proof (markers_newline_free_lc lang Hfree) as Hlc.
    unfold scan_all.
    destruct (scan_lines (marker lang line_comment)
                (marker lang block_start) (marker lang block_end)
                Hlc Hbs Hbe (split_lines buffer)
                (split_lines_nonempty buffer) (split_lines_nl_free buffer)
                buffer [] 1 0 0 0 false
                (Z.to_nat (Z.of_nat (List.length buffer))))
      as (Hl & Hc & Hcm & Hb).
    + now rewrite split_lines_join.
    + rewrite split_lines_join. lia.
    + cbv zeta in Hl, Hc, Hcm, Hb.
      change (mkScan (Z.of_nat (List.length (@nil ascii))) 1 0 0 0 false
                true true) with scan_init in Hl, Hc, Hcm, Hb.
      rewrite Hl, Hc, Hcm, Hb. f_equal; lia.
Qed.

(** X18.  When the markers of the descriptor hold no newline byte, the
    counts are those of a line-by-line reading of the buffer.  The lines
    are the segments between newlines, the one after the last newline
    included.  On each line the markers are looked for at the first byte
    that is not a space or a tab only.  Outside a block comment, a line
    without such a byte is a blank; a line that starts with the
    line-comment marker is counted both as a comment and as a blank; a
    line that starts with the block-start marker is code if the block-end
    marker occurs after it on the line, else a comment that leaves the
    block open; any other line is code.  Inside a block comment, a line
    that starts with the block-end marker closes the block and is code;
    any other line, also an empty one, is a comment. *)
Theorem count_file_buffer_by_lines (buffer : list ascii)
    (lang : option dynamic_lang_t) :
  markers_newline_free lang ->
  let cs := classify_lines (marker lang line_comment)
              (marker lang block_start) (marker lang block_end) false
              (split_lines buffer) in
  count_file_buffer buffer lang
  = mkResult (Z.of_nat (List.length (split_lines buffer)))
             (count_class LCode cs)
             (count_class LComment cs + count_class LLineComment cs)
             (count_class LBlank cs + count_class LLineComment cs)
             (Z.of_nat (List.length buffer)).
Proof. apply count_file_buffer_classes. Qed.

Lemma count_file_buffer_by_lines_witness :
  let lang := Some (lang_markers "//" "/*" "*/") in
  let buffer := bytes "/* a" ++ [NL] ++ bytes "*/ b" ++ [NL]
                ++ bytes "  // c" ++ [NL] ++ bytes "x /* y */" in
  markers_newline_free lang
  /\ classify_lines (Some "//"%string) (Some "/*"%string)
       (Some "*/"%string) false (split_lines buffer)
     = [LComment; LCode; LLineComment; LCode]
  /\ count_file_buffer buffer lang = mkResult 4 2 2 1 26.
Proof.
  cbv zeta.
  assert (H : markers_newline_free (Some (lang_markers "//" "/*" "*/")))
    by (vm_compute; auto).
  split; [exact H|]. split; [reflexivity|].
  exact (count_file_buffer_by_lines _ _ H).
Defined.

(** ** Buffers put together *)

Lemma split_lines_app (b1 b2 : list ascii) :
  split_lines (b1 ++ NL :: b2) = split_lines b1 ++ split_lines b2.
Proof.
  induction b1 as [|c b1 IH]; [reflexivity|].
  cbn [app split_lines]. rewrite IH.
  destruct (Ascii.eqb c NL); [reflexivity|].
  destruct (split_lines b1) as [|seg segs] eqn:E;
    [now apply split_lines_nonempty in E|reflexivity].
Qed.

Lemma classify_lines_app (lc bs be : option string) (ib : bool)
    (s1 s2 : list (list ascii)) :
  classify_lines lc bs be ib (s1 ++ s2)
  = classify_lines lc bs be ib s1
    ++ classify_lines lc bs be (block_open_after lc bs be ib s1) s2.
Proof.
  revert ib; induction s1 as [|seg s1 IH]; intros ib; [reflexivity|].
  cbn [app classify_lines block_open_after]. now rewrite IH.
Qed.

Lemma count_class_app (c : line_class) (a b : list line_class) :
  count_class c (a ++ b) = count_class c a + count_class c b.
Proof.
  unfold count_class. rewrite filter_app, length_app. lia.
Qed.

(** X19.  Counting composes over a newline: when the markers hold no
    newline byte and the first buffer does not end inside a block comment,
    the counts of two buffers joined by a newline are the sums of their
    counts, and the size is the sum of the sizes plus one. *)
Theorem count_file_buffer_concat (b1 b2 : list ascii)
    (lang : option dynamic_lang_t) :
  markers_newline_free lang ->
  ends_in_block b1 lang = false ->
  let r1 := count_file_buffer b1 lang in
  let r2 := count_file_buffer b2 lang in
  count_file_buffer (b1 ++ NL :: b2) lang
  = mkResult (r_lines r1 + r_lines r2) (r_code r1 + r_code r2)
             (r_comments r1 + r_comments r2) (r_blanks r1 + r_blanks r2)
             (r_size r1 + r_size r2 + 1).
Proof.
  intros Hfree Hopen. cbv zeta.
  rewrite !count_file_buffer_classes by exact Hfree.
  cbn [r_lines r_code r_comments r_blanks r_size].
  rewrite split_lines_app, classify_lines_app.
  unfold ends_in_block in Hopen. rewrite Hopen.
  rewrite !count_class_app, !length_app. cbn [List.length].
  f_equal; lia.
Qed.

Lemma count_file_buffer_concat_witness :
  let lang := Some (lang_markers "//" "/*" "*/") in
  let b1 := bytes "/* a */" ++ [NL] ++ bytes "x" in
  let b2 := bytes "// c" ++ [NL] in
  markers_newline_free lang /\ ends_in_block b1 lang = false
  /\ count_file_buffer (b1 ++ NL :: b2) lang = mkResult 4 2 1 2 15.
Proof.
  cbv zeta.
  assert (H : markers_newline_free (Some (lang_markers "//" "/*" "*/")))
    by (vm_compute; auto).
  assert (H2 : ends_in_block (bytes "/* a */" ++ [NL] ++ bytes "x")
                 (Some (lang_markers "//" "/*" "*/")) = false)
    by reflexivity.
  split; [exact H|]. split; [exact H2|].
  exact (count_file_buffer_concat _ (bytes "// c" ++ [NL]) _ H H2).
Defined.

(** ** Aggregation language by language *)

Lemma str_equals_ci_sym (a b : string) :
  str_equals_ci a b = str_equals_ci b a.
Proof.
  destruct (str_equals_ci a b) eqn:Eab; destruct (str_equals_ci b a) eqn:Eba;
    try reflexivity.
  - apply str_equals_ci_lower in Eab. symmetry in Eab.
    apply str_equals_ci_lower in Eab. congruence.
  - apply str_equals_ci_lower in Eba. symmetry in Eba.
    apply str_equals_ci_lower in Eba. congruence.
Qed.

Lemma str_equals_ci_refl (a : string) : str_equals_ci a a = true.
Proof. now apply str_equals_ci_lower. Qed.

(** An iteration for a known file, with room in the table, finds the first
    entry of that language or appends one. *)
Lemma add_stats_upsert (table : list (string * lang_stats_t)) (n : string)
    (r : result_t) (j : Z) :
  0 <= j ->
  let idx := find_lang_idx (map fst table) n j in
  (idx = -1 ->
   add_stats (table ++ [(str_copy (Some n) 64, mkStats 0 0 0 0 0)])
             (Z.of_nat (List.length table)) r
   = upsert table n r)
  /\ (idx <> -1 -> add_stats table (idx - j) r = upsert table n r).
Proof.
  revert j; induction table as [|[m st] table IH]; intros j Hj; cbv zeta.
  - cbn [map find_lang_idx app List.length add_stats upsert].
    split; [reflexivity|contradiction].
  - cbn [map fst find_lang_idx app List.length add_stats upsert].
    destruct (str_equals_ci m n).
    + split; [lia|]. intros _. rewrite Z.sub_diag. reflexivity.
    + destruct (IH (j + 1)) as [Hnew Hold]; [lia|]. cbv zeta in Hnew, Hold.
      destruct (find_lang_idx_range (map fst table) n (j + 1)) as [E|E];
        [lia| |].
      * split; [|congruence]. intros _.
        destruct (Z.eqb_spec (Z.of_nat (S (List.length table))) 0); [lia|].
        replace (Z.of_nat (S (List.length table)) - 1)
          with (Z.of_nat (List.length table)) by lia.
        now rewrite Hnew.
      * split; [lia|]. intros _.
        destruct (Z.eqb_spec (find_lang_idx (map fst table) n (j + 1) - j) 0);
          [lia|].
        replace (find_lang_idx (map fst table) n (j + 1) - j - 1)
          with (find_lang_idx (map fst table) n (j + 1) - (j + 1)) by lia.
        rewrite Hold by lia. reflexivity.
Qed.

Lemma aggregate_step_upsert (table : list (string * lang_stats_t))
    (n : string) (r : result_t) :
  is_unknown (n, r) = false -> (List.length table < 100)%nat ->
  aggregate_step table (n, r) = upsert table n r.
Proof.
  unfold is_unknown, aggregate_step. cbn [fst]. intros -> Hroom.
  destruct (add_stats_upsert table n r 0) as [Hnew Hold]; [lia|].
  cbv zeta in Hnew, Hold.
  destruct (Z.eqb_spec (find_lang_idx (map fst table) n 0) (-1)) as [E|E].
  - destruct (Z.ltb_spec (Z.of_nat (List.length table)) 100); [|lia].
    now apply Hnew.
  - rewrite <- (Hold E). f_equal. lia.
Qed.

Lemma group_total_app (val : result_t -> Z) (n : string)
    (a b : list (string * result_t)) :
  group_total val n (a ++ b) = group_total val n a + group_total val n b.
Proof.
  unfold group_total. induction a as [|f a IH]; cbn [app fold_right];
    [lia|]. destruct (str_equals_ci (fst f) n); lia.
Qed.

Lemma group_total_one (val : result_t -> Z) (n : string)
    (f : string * result_t) :
  group_total val n [f]
  = if str_equals_ci (fst f) n then val (snd f) else 0.
Proof.
  unfold group_total. cbn [fold_right].
  destruct (str_equals_ci (fst f) n); lia.
Qed.

Lemma group_total_nonneg (val : result_t -> Z) (n : string)
    (inputs : list (string * result_t)) :
  Forall (fun f => 0 <= val (snd f)) inputs -> 0 <= group_total val n inputs.
Proof.
  unfold group_total. induction 1 as [|f l Hf _ IH]; cbn [fold_right];
    [lia|]. destruct (str_equals_ci (fst f) n); lia.
Qed.

Lemma group_total_none (val : result_t -> Z) (n : string)
    (inputs : list (string * result_t)) :
  Forall (fun f => str_equals_ci (fst f) n = false) inputs ->
  group_total val n inputs = 0.
Proof.
  unfold group_total. induction 1 as [|f l Hf _ IH]; cbn [fold_right];
    [reflexivity|]. now rewrite Hf.
Qed.

Section PerLanguage.

Variable proj : lang_stats_t -> Z.
Variable val : result_t -> Z.

Hypothesis proj_add : forall (st : lang_stats_t) (r : result_t),
  proj (add_result st r) = int_add (proj st) (val r).

Hypothesis proj_zero : proj (mkStats 0 0 0 0 0) = 0.

(** An entry holds the sum of its language over the files [done], if that
    sum fits an [int]. *)
Local Abbreviation entry_ok :=
  (fun (done : list (string * result_t)) (e : string * lang_stats_t) =>
     group_total val (fst e) done < 2 ^ 31 ->
     proj (snd e) = group_total val (fst e) done).

Lemma entry_ok_other (done : list (string * result_t))
    (e : string * lang_stats_t) (f : string * result_t) :
  str_equals_ci (fst f) (fst e) = false ->
  entry_ok done e -> entry_ok (done ++ [f]) e.
Proof.
  intros Hne He. cbv beta.
  rewrite group_total_app, group_total_one, Hne, Z.add_0_r. exact He.
Qed.

Lemma entry_ok_hit (done : list (string * result_t)) (m : string)
    (st : lang_stats_t) (n : string) (r : result_t) :
  Forall (fun f => 0 <= val (snd f)) done -> 0 <= val r ->
  str_equals_ci n m = true ->
  entry_ok done (m, st) -> entry_ok (done ++ [(n, r)]) (m, add_result st r).
Proof.
  intros Hdone Hr Hnm He. cbv beta. cbn [fst snd] in *.
  rewrite group_total_app, group_total_one. cbn [fst snd]. rewrite Hnm.
  intros Hsum. pose proof (group_total_nonneg val m done Hdone).
  rewrite proj_add, He by lia. apply int_add_exact. lia.
Qed.

Lemma upsert_ok (table : list (string * lang_stats_t)) (n : string)
    (r : result_t) (done : list (string * result_t)) :
  Forall (fun f => 0 <= val (snd f)) done -> 0 <= val r ->
  (String.length n <= 63)%nat ->
  distinct_ci (map fst table) ->
  (Forall (fun m => str_equals_ci m n = false) (map fst table) ->
   group_total val n done = 0) ->
  Forall (entry_ok done) table ->
  Forall (entry_ok (done ++ [(n, r)])) (upsert table n r).
Proof.
  intros Hdone Hr Hn. induction table as [|[m st] table IH];
    intros Hdist Hnew Hok.
  - cbn [upsert]. constructor; [|constructor]. cbv beta. cbn [fst snd].
    rewrite str_copy_fits by exact Hn.
    rewrite group_total_app, group_total_one. cbn [fst snd].
    rewrite str_equals_ci_refl, Hnew by constructor.
    intros Hsum. rewrite proj_add, proj_zero. apply int_add_exact. lia.
  - cbn [upsert]. inversion Hok as [|? ? Hhead Htail]; subst.
    unfold distinct_ci in Hdist. cbn [map fst] in Hdist.
    inversion Hdist as [|? ? Hm Hrest]; subst.
    destruct (str_equals_ci m n) eqn:Emn.
    + constructor.
      * apply entry_ok_hit; try assumption.
        now rewrite str_equals_ci_sym.
      * rewrite Forall_forall in Htail |- *. intros [m' st'] Hin.
        apply entry_ok_other; [|now apply Htail].
        cbn [fst]. rewrite Forall_forall in Hm.
        rewrite <- (str_equals_ci_congr m n m' Emn).
        apply Hm. change m' with (fst (m', st')). now apply in_map.
    + constructor.
      * apply entry_ok_other; [|exact Hhead].
        cbn [fst]. now rewrite str_equals_ci_sym.
      * apply IH; [exact Hrest| |exact Htail].
        intros Hall. apply Hnew. cbn [map fst]. now constructor.
Qed.

(** The invariant of the loop of [aggregate_results]. *)
Local Abbreviation agg_inv :=
  (fun (table : list (string * lang_stats_t))
       (done : list (string * result_t)) =>
     Forall (entry_ok done) table
     /\ distinct_ci (map fst table)
     /\ Forall (fun m => (String.length m <= 63)%nat) (map fst table)
     /\ known_names table
     /\ represented table done).

Lemma aggregate_step_inv (table : list (string * lang_stats_t))
    (done : list (string * result_t)) (f : string * result_t) :
  Forall (fun f => 0 <= val (snd f)) done -> 0 <= val (snd f) ->
  (String.length (fst f) <= 63)%nat ->
  (List.length table < 100)%nat ->
  agg_inv table done -> agg_inv (aggregate_step table f) (done ++ [f]).
Proof.
  intros Hdone Hval Hlen Hroom (Hok & Hdist & Hnames & Hknown & Hrep).
  destruct (aggregate_step_distinct table f Hlen (conj Hdist Hnames))
    as [Hdist' Hnames'].
  pose proof (aggregate_step_known table f Hknown) as Hknown'.
  destruct (aggregate_step_names table f) as (extra & Hextra).
  assert (Hrep' : represented (aggregate_step table f) (done ++ [f])).
  { intros g Hg Hu. apply in_app_or in Hg. destruct Hg as [Hg|[<-|[]]].
    - destruct (Hrep g Hg Hu) as (m & Hm & Hci). exists m.
      split; [|exact Hci]. rewrite Hextra. apply in_or_app. now left.
    - now apply aggregate_step_present. }
  repeat split; try assumption.
  destruct (is_unknown f) eqn:Hu.
  - rewrite aggregate_step_unknown by exact Hu.
    rewrite Forall_forall in Hok |- *. intros [m st] Hin.
    apply entry_ok_other; [|now apply Hok]. cbn [fst].
    destruct (str_equals_ci (fst f) m) eqn:E; [|reflexivity].
    unfold is_unknown in Hu.
    rewrite (str_equals_ci_congr (fst f) m "Unknown" E) in Hu.
    unfold known_names in Hknown. rewrite Forall_forall in Hknown.
    rewrite Hknown in Hu; [discriminate|].
    change m with (fst (m, st)). now apply in_map.
  - destruct f as [n r]. cbn [fst snd] in *.
    rewrite aggregate_step_upsert by assumption.
    apply upsert_ok; try assumption.
    intros Hall. apply group_total_none.
    apply Forall_forall. intros g Hg.
    destruct (str_equals_ci (fst g) n) eqn:E; [|reflexivity].
    assert (Hgu : is_unknown g = false).
    { unfold is_unknown in *.
      now rewrite (str_equals_ci_congr (fst g) n "Unknown" E). }
    destruct (Hrep g Hg Hgu) as (m & Hm & Hci).
    rewrite Forall_forall in Hall. specialize (Hall m Hm).
    rewrite (str_equals_ci_congr m (fst g) n Hci), E in Hall.
    discriminate.
Qed.

Lemma aggregate_fold_inv (inputs : list (string * result_t)) :
  Forall (fun f => 0 <= val (snd f)) inputs ->
  Forall (fun f => (String.length (fst f) <= 63)%nat) inputs ->
  forall (table : list (string * lang_stats_t))
         (done : list (string * result_t)),
    Forall (fun f => 0 <= val (snd f)) done ->
    (List.length (fold_left aggregate_step inputs table) < 100)%nat ->
    agg_inv table done ->
    agg_inv (fold_left aggregate_step inputs table) (done ++ inputs).
Proof.
  induction inputs as [|f inputs IH]; intros Hvals Hlens table done Hdone
    Hroom Hinv.
  - rewrite app_nil_r. exact Hinv.
  - cbn [fold_left] in *.
    pose proof (Forall_inv Hvals) as Hf.
    pose proof (Forall_inv Hlens) as Hl. cbn beta in Hf, Hl.
    destruct (aggregate_fold_length inputs (aggregate_step table f))
      as (Hmono & _).
    destruct (aggregate_step_length table f) as ((Hstep & _) & _).
    replace (done ++ f :: inputs) with ((done ++ [f]) ++ inputs)
      by (rewrite <- app_assoc; reflexivity).
    apply IH.
    + exact (Forall_inv_tail Hvals).
    + exact (Forall_inv_tail Hlens).
    + apply Forall_app. split; [exact Hdone|]. now constructor.
    + exact Hroom.
    + apply aggregate_step_inv; try assumption. lia.
Qed.

Lemma aggregate_results_entry (inputs : list (string * result_t))
    (n : string) (st : lang_stats_t) :
  Forall (fun f => 0 <= val (snd f)) inputs ->
  Forall (fun f => (String.length (fst f) <= 63)%nat) inputs ->
  (List.length (aggregate_results inputs) < 100)%nat ->
  In (n, st) (aggregate_results inputs) ->
  group_total val n inputs < 2 ^ 31 ->
  proj st = group_total val n inputs.
Proof.
  intros Hvals Hlens Hroom Hin Hsum. unfold aggregate_results in *.
  rewrite length_map in Hroom.
  destruct (aggregate_fold_inv inputs Hvals Hlens [] []) as
    (Hok & _ & Hnames & _); [constructor|exact Hroom| |].
  { repeat split; try constructor. intros f []. }
  cbn [app] in Hok. apply in_map_iff in Hin.
  destruct Hin as ([m st'] & E & Hin). cbn [fst snd] in E.
  injection E as <- <-.
  assert (Hm : (String.length m <= 63)%nat).
  { rewrite Forall_forall in Hnames. apply Hnames.
    change m with (fst (m, st')). now apply in_map. }
  change (str_copy_from m 0 64) with (str_copy (Some m) 64) in *.
  rewrite str_copy_fits in Hsum |- * by exact Hm.
  rewrite Forall_forall in Hok. exact (Hok (m, st') Hin Hsum).
Qed.

End PerLanguage.

(** The number of input files whose language name equals [n] up to case. *)
Lemma group_count_le (n : string) (inputs : list (string * result_t)) :
  0 <= group_total (fun _ => 1) n inputs <= Z.of_nat (List.length inputs).
Proof.
  unfold group_total. induction inputs as [|f l IH];
    cbn [fold_right List.length]; [lia|].
  destruct (str_equals_ci (fst f) n); lia.
Qed.

(** X20.  Each aggregate holds the sums of its own language: when the
    names are at most 63 bytes long, the counts are not negative and fewer
    than 100 aggregates come out, the aggregate named [n] has for [files]
    the number of input files whose name equals [n] up to letter case, and
    for [lines], [code], [comments] and [size] the sums of these fields
    over those files, each as long as the sum fits an [int]. *)
Theorem aggregate_results_per_language (inputs : list (string * result_t))
    (n : string) (st : lang_stats_t) :
  Forall (fun f => (String.length (fst f) <= 63)%nat) inputs ->
  Forall (fun f => result_nonneg (snd f)) inputs ->
  (List.length (aggregate_results inputs) < 100)%nat ->
  In (n, st) (aggregate_results inputs) ->
  (group_total (fun _ => 1) n inputs < 2 ^ 31 ->
   files st = group_total (fun _ => 1) n inputs)
  /\ (group_total r_lines n inputs < 2 ^ 31 ->
      lines st = group_total r_lines n inputs)
  /\ (group_total r_code n inputs < 2 ^ 31 ->
      code st = group_total r_code n inputs)
  /\ (group_total r_comments n inputs < 2 ^ 31 ->
      comments st = group_total r_comments n inputs)
  /\ (group_total r_size n inputs < 2 ^ 31 ->
      size st = group_total r_size n inputs).
Proof.
  intros Hlens Hnn Hroom Hin.
  assert (Hall : forall val : result_t -> Z,
            (forall r, result_nonneg r -> 0 <= val r) ->
            Forall (fun f => 0 <= val (snd f)) inputs).
  { intros val Hval. eapply Forall_impl; [|exact Hnn].
    intros f Hr. now apply Hval. }
  repeat apply conj.
  - apply (aggregate_results_entry files (fun _ => 1)); try assumption;
      try reflexivity. apply (Hall (fun _ => 1)). intros; lia.
  - apply (aggregate_results_entry lines r_lines); try assumption;
      try reflexivity. apply Hall. now intros r (H & _).
  - apply (aggregate_results_entry code r_code); try assumption;
      try reflexivity. apply Hall. now intros r (_ & H & _).
  - apply (aggregate_results_entry comments r_comments); try assumption;
      try reflexivity. apply Hall. now intros r (_ & _ & H & _).
  - apply (aggregate_results_entry size r_size); try assumption;
      try reflexivity. apply Hall. now intros r (_ & _ & _ & H).
Qed.

Lemma aggregate_results_per_language_witness :
  let inputs := [("C"%string, mkResult 10 7 2 1 120);
                 ("Unknown"%string, mkResult 5 5 0 0 40);
                 ("Rust"%string, mkResult 8 6 1 1 90);
                 ("c"%string, mkResult 3 3 0 0 30)] in
  In ("C"%string, mkStats 2 13 10 2 150) (aggregate_results inputs)
  /\ group_total (fun _ => 1) "C" inputs = 2
  /\ group_total r_size "C" inputs = 150.
Proof.
  cbv zeta.
  set (inputs := [("C"%string, mkResult 10 7 2 1 120);
                  ("Unknown"%string, mkResult 5 5 0 0 40);
                  ("Rust"%string, mkResult 8 6 1 1 90);
                  ("c"%string, mkResult 3 3 0 0 30)]).
  assert (Hin : In ("C"%string, mkStats 2 13 10 2 150)
                  (aggregate_results inputs)) by (now left).
  assert (H1 : Forall (fun f : string * result_t =>
                         (String.length (fst f) <= 63)%nat) inputs)
    by (repeat constructor; simpl; lia).
  assert (H2 : Forall (fun f : string * result_t => result_nonneg (snd f))
                 inputs)
    by (repeat constructor; simpl; lia).
  assert (H3 : (List.length (aggregate_results inputs) < 100)%nat)
    by (vm_compute; lia).
  split; [exact Hin|].
  destruct (aggregate_results_per_language inputs _ _ H1 H2 H3 Hin)
    as (Hf & _ & _ & _ & Hs).
  split; [symmetry; apply Hf; reflexivity|symmetry; apply Hs; reflexivity].
Defined.
